(** * Spikeling: a shallow embedding of the firmware core

    The development follows the firmware sources:
    - [Izhikevich_parameters.h]: the preset table and [clampToModel];
    - [General_settings.h]: the global structures and their initial values;
    - [Core_functions.h]: the per-tick conditioning functions, the stimulus
      generator and the telemetry encoder;
    - [Serial_functions.h]: the handlers of the line-oriented command channel;
    - [WiFi_functions.h]: [dispatchToken], the network command channel.

    Conventions of the embedding.
    - The firmware keeps its state in global structures.  They are gathered in
      one record [World] that every function takes and returns.
    - Hardware reads ([ADC1.read], [ADC2.read], [digitalRead]) and the draw of
      the Gaussian generator are inputs: a [Board] value gives what each read
      returns during one call.
    - Hardware writes ([digitalWrite], [ledcWrite], [DAC.write], [delay],
      [Serial.print], [Serial.write]) are appended to the [effects] log.
    - The value of a C++ [float] is a rational ([Q]).  In the conditioning
      functions the arithmetic on floats is exact: the rounding of each
      operation to single precision is not modelled there.  In the telemetry
      encoder, whose results are discretised, each operation is rounded to
      single precision ([fl32]).  Comparisons of floats are the boolean
      comparisons of [Q]; C++ [==] on floats is [Qeq_bool].
    - A C++ [int] is a [Z].  Signed arithmetic on [int] that would overflow
      is undefined in C++ and is not given a meaning here: sums and products
      of [int]s are those of [Z].  A conversion between integer types
      ([int], [int16_t], [uint32_t], [std::size_t]) wraps, and the
      wrap-around is written out.  A conversion from a float discards the
      fraction; it is defined when the integer part fits the type
      ([int_defined]).
    - A token of the serial channel is given by what [atof] and [atoi]
      return on its text ([Token]).
    - Each of the longer functions is given block by block, in the order of
      its source lines, and then as the composition of its blocks. *)

From Stdlib Require Import ZArith QArith Qround Qabs Qpower Lia Lqa Bool String List.
From stdpp Require Import base list.
Import ListNotations.

Local Open Scope string_scope.
Local Open Scope Z_scope.

(** ** Numbers *)

Abbreviation float := Q (only parsing).

Definition Qltb (x y : Q) : bool := negb (Qle_bool y x).

(** Conversion of a float to an integer type discards the fractional part
    (truncation toward zero). *)
Definition Qtrunc (x : Q) : Z :=
  if Qle_bool 0 x then Qfloor x else Qceiling x.

(** Two's complement wrap-around of a [bits]-wide signed integer. *)
Definition wrap_signed (bits z : Z) : Z :=
  (z + 2 ^ (bits - 1)) mod 2 ^ bits - 2 ^ (bits - 1).

Definition to_int16 (z : Z) : Z := wrap_signed 16 z.
Definition to_int (z : Z) : Z := wrap_signed 32 z.
Definition to_uint32 (z : Z) : Z := z mod 2 ^ 32.
(** [std::size_t] is 32 bits wide on the ESP32-S3. *)
Definition to_size_t (z : Z) : Z := z mod 2 ^ 32.

(** A conversion of a float to an integer type is defined in C++ when the
    integer part fits the type.  [float_to_int] and [float_to_int16] return
    the integer part there; outside that range the conversion is undefined,
    and the wrapped value that they return is not what the code is known to
    do.  The statements that depend on a converted value carry
    [int_defined] (or a range that implies it). *)
Definition float_to_int16 (x : float) : Z := to_int16 (Qtrunc x).
Definition float_to_int (x : float) : Z := to_int (Qtrunc x).

Definition int_defined (x : float) : Prop := - 2 ^ 31 <= Qtrunc x < 2 ^ 31.

(** ** Single precision *)

(** The integer nearest to [y], ties to the even one. *)
Definition Qround_even (y : Q) : Z :=
  let f := Qfloor y in
  match Qcompare (y - inject_Z f) (1#2) with
  | Lt => f
  | Gt => f + 1
  | Eq => if Z.even f then f else f + 1
  end.

(** The binary exponent of a positive rational: the [k] with
    2^k <= x < 2^(k+1). *)
Definition Qlog2 (x : Q) : Z :=
  let k := Z.log2 (Qnum x) - Z.log2 (Zpos (Qden x)) in
  if Qle_bool (2 ^ k) x then k else k - 1.

(** The single-precision numbers around [x] are the multiples of
    2^(b32_exp x): 24 significant bits, and below 2^-126 the spacing 2^-149
    of the subnormal numbers. *)
Definition b32_exp (x : Q) : Z := Z.max (Qlog2 (Qabs x)) (-126) - 23.

(** Rounding to the nearest single-precision number, ties to even (the
    rounding of IEEE 754 arithmetic).  Overflow is not modelled: a result of
    magnitude 2^128 or more is infinite in single precision. *)
Definition fl32 (x : Q) : Q :=
  if Qeq_bool x 0 then 0%Q
  else (inject_Z (Qround_even (x / 2 ^ b32_exp x)) * 2 ^ b32_exp x)%Q.

(** The sum, the difference and the product of two floats, as floats. *)
Definition fadd (a b : float) : float := fl32 (a + b).
Definition fsub (a b : float) : float := fl32 (a - b).
Definition fmul (a b : float) : float := fl32 (a * b).

(** The relative error of one rounding is at most 2^-24; in the subnormal
    range the absolute error is at most 2^-150. *)
Definition b32_eps : Q := 1 # 16777216.
Definition b32_eta : Q := (2 ^ (-150))%Q.

(** [constrain(x, lo, hi)] of the Arduino core. *)
Definition constrain (x lo hi : Z) : Z :=
  if x <? lo then lo else if hi <? x then hi else x.

Definition HIGH : Z := 1.
Definition LOW : Z := 0.

(** ** Izhikevich_parameters.h *)

Inductive IzhikevichModel : Type :=
  | TonicSpiking | PhasicSpiking | TonicBursting | PhasicBursting | MixedMode
  | SpikeFrequencyAdaptation | Class1 | Class2 | SpikeLatency
  | SubThresholdOscillations | Resonator | Integrator | ReboundSpike
  | ReboundBurst | ThresholdVariability | Bistability | DAP | Accommodation
  | InhibitionInducedSpiking | InhibitionInducedBursting.

(** The enumerators in declaration order; [Count] is their number. *)
Definition IzhikevichModel_values : list IzhikevichModel :=
  [TonicSpiking; PhasicSpiking; TonicBursting; PhasicBursting; MixedMode;
   SpikeFrequencyAdaptation; Class1; Class2; SpikeLatency;
   SubThresholdOscillations; Resonator; Integrator; ReboundSpike;
   ReboundBurst; ThresholdVariability; Bistability; DAP; Accommodation;
   InhibitionInducedSpiking; InhibitionInducedBursting].

Definition IzhikevichModelCount : Z := 20.

(** [static_cast<std::size_t>(model)] *)
Definition index_of_model (m : IzhikevichModel) : Z :=
  match m with
  | TonicSpiking => 0 | PhasicSpiking => 1 | TonicBursting => 2
  | PhasicBursting => 3 | MixedMode => 4 | SpikeFrequencyAdaptation => 5
  | Class1 => 6 | Class2 => 7 | SpikeLatency => 8
  | SubThresholdOscillations => 9 | Resonator => 10 | Integrator => 11
  | ReboundSpike => 12 | ReboundBurst => 13 | ThresholdVariability => 14
  | Bistability => 15 | DAP => 16 | Accommodation => 17
  | InhibitionInducedSpiking => 18 | InhibitionInducedBursting => 19
  end.

(** [static_cast<IzhikevichModel>(index)], used by [clampToModel] on indices
    below [Count] only. *)
Definition model_of_index (i : Z) : IzhikevichModel :=
  nth (Z.to_nat i) IzhikevichModel_values TonicSpiking.

Record IzhikevichParams : Type := mkIzhikevichParams {
  izh_a : float;
  izh_b : float;
  izh_c : float;
  izh_d : float;
  izh_v_rest : float
}.

Definition izhikevich : list IzhikevichParams :=
  [ mkIzhikevichParams (2#100)  (20#100)    (-65)  6        (-70);      (* TonicSpiking *)
    mkIzhikevichParams (2#100)  (25#100)    (-65)  6        (-64);      (* PhasicSpiking *)
    mkIzhikevichParams (2#100)  (20#100)    (-50)  2        (-70);      (* TonicBursting *)
    mkIzhikevichParams (2#100)  (25#100)    (-55)  (5#100)  (-64);      (* PhasicBursting *)
    mkIzhikevichParams (2#100)  (20#100)    (-55)  4        (-70);      (* MixedMode *)
    mkIzhikevichParams (1#100)  (20#100)    (-65)  8        (-70);      (* SpikeFrequencyAdaptation *)
    mkIzhikevichParams (2#100)  (-10#100)   (-55)  6        (-60);      (* Class1 *)
    mkIzhikevichParams (20#100) (26#100)    (-65)  0        (-64);      (* Class2 *)
    mkIzhikevichParams (2#100)  (20#100)    (-65)  6        (-70);      (* SpikeLatency *)
    mkIzhikevichParams (5#100)  (26#100)    (-60)  0        (-62);      (* SubThresholdOscillations *)
    mkIzhikevichParams (10#100) (26#100)    (-60)  (-1)     (-62);      (* Resonator *)
    mkIzhikevichParams (2#100)  (-10#100)   (-55)  6        (-60);      (* Integrator *)
    mkIzhikevichParams (3#100)  (25#100)    (-60)  4        (-64);      (* ReboundSpike *)
    mkIzhikevichParams (3#100)  (25#100)    (-52)  0        (-64);      (* ReboundBurst *)
    mkIzhikevichParams (3#100)  (25#100)    (-60)  4        (-64);      (* ThresholdVariability *)
    mkIzhikevichParams (10#100) (26#100)    (-60)  0        (-61);      (* Bistability *)
    mkIzhikevichParams 1        (20#100)    (-60)  (-21)    (-70);      (* DAP *)
    mkIzhikevichParams (2#100)  1           (-55)  4        (-65);      (* Accommodation *)
    mkIzhikevichParams (2#100)  1           (-60)  8        (-638#10);  (* InhibitionInducedSpiking *)
    mkIzhikevichParams (26#1000) (-1)       (-45)  (-2)     (-638#10)   (* InhibitionInducedBursting *)
  ]%Q.

Definition getIzhikevichParams (model : IzhikevichModel) : IzhikevichParams :=
  nth (Z.to_nat (index_of_model model)) izhikevich
      (mkIzhikevichParams 0 0 0 0 0).

Definition clampToModel (index : Z) : IzhikevichModel :=
  let index := if IzhikevichModelCount <=? index then 0 else index in
  model_of_index index.

(** ** General_settings.h *)

Definition bits10 : Z := 1023.
Definition bits12 : Z := 4095.
Definition ledc_Max : Z := 2 ^ 10 - 1.

Definition V_SCALE : float := 100.
Definition I_SCALE : float := 100.
Definition SYN_V_SCALE : float := 1.

(** [pot.offset = bits12/15], an integer division. *)
Definition pot_offset : Z := bits12 / 15.

(** The channels and pins of [pins] that the embedded functions read or
    write. *)
Definition pins_adc1_current_in_pot : Z := 5.
Definition pins_adc1_pd : Z := 6.
Definition pins_adc1_pd_pot : Z := 7.
Definition pins_adc2_stim_str_pot : Z := 1.
Definition pins_adc2_stim_freq_pot : Z := 2.
Definition pins_adc2_noise_pot : Z := 4.
Definition pins_dac_stim_a : Z := 1.
Definition pins_gpio_stim_d : Z := 1.
Definition pins_gpio_spike : Z := 18.
Definition pins_gpio_led_r : Z := 21.
Definition pins_gpio_led_g : Z := 14.
Definition pins_gpio_led_b : Z := 47.

Definition axon_offset : float := (-675 # 100)%Q.

(** [struct Timing] (General_settings.h). *)
Record Timing : Type := mkTiming {
  current_us : Z;
  lastStep_us : Z;
  step_us : Z  (* uint32_t, tick period in microseconds *)
}.

Definition set_step_us (x : Z) (t : Timing) : Timing :=
  mkTiming (current_us t) (lastStep_us t) x.

(** [struct NeuronModel] (General_settings.h); the pin field is left out. *)
Record NeuronModel : Type := mkNeuronModel {
  neuron_v : float;
  neuron_u : float;
  neuron_dt_ms : float;
  neuron_a : float;
  neuron_b : float;
  neuron_c : float;
  neuron_d : float;
  neuron_v_rest : float;
  neuron_Vm_min : float;
  neuron_Vm_max : float;
  neuron_Vm_spike : float;
  neuron_Vm_peak : float;
  neuron_v_out : float;
  neuron_total_current : float;
  neuron_spike : bool
}.

(** [struct VoltageClamp] (General_settings.h); pins are the constants of [pins]. *)
Record VoltageClamp : Type := mkVoltageClamp {
  IC_value_currentIn : float;
  IC_currentIn_scaling : float;
  IC_current : float;
  IC_pot_value : float;
  IC_pot_scaling : float;
  IC_current_clamp : float;
  IC_enable : bool  (* true: the clamp potentiometer drives current_clamp *)
}.

Definition set_IC_pot_value (x : float) (c : VoltageClamp) : VoltageClamp :=
  mkVoltageClamp (IC_value_currentIn c) (IC_currentIn_scaling c) (IC_current
    c) x (IC_pot_scaling c) (IC_current_clamp c) (IC_enable c).
Definition set_IC_current_clamp (x : float) (c : VoltageClamp) : VoltageClamp :=
  mkVoltageClamp (IC_value_currentIn c) (IC_currentIn_scaling c) (IC_current
    c) (IC_pot_value c) (IC_pot_scaling c) x (IC_enable c).
Definition set_IC_enable (x : bool) (c : VoltageClamp) : VoltageClamp :=
  mkVoltageClamp (IC_value_currentIn c) (IC_currentIn_scaling c) (IC_current
    c) (IC_pot_value c) (IC_pot_scaling c) (IC_current_clamp c) x.

(** [struct NoiseGenerator] (General_settings.h); the [Gaussian dist] member is its two public fields. *)
Record NoiseGenerator : Type := mkNoiseGenerator {
  noise_pot_value : Z;
  noise_pot_scaling : float;
  noise_amp : float;
  noise_current : float;
  noise_enable : bool;
  noise_mean : float;
  noise_sigma : float;
  noise_newSigma : float;
  noise_var : float;
  noise_dist_mean : float;  (* noise.dist.mean *)
  noise_dist_variance : float  (* noise.dist.variance *)
}.

Definition set_noise_pot_value (x : Z) (g : NoiseGenerator) : NoiseGenerator :=
  mkNoiseGenerator x (noise_pot_scaling g) (noise_amp g) (noise_current g)
    (noise_enable g) (noise_mean g) (noise_sigma g) (noise_newSigma g)
    (noise_var g) (noise_dist_mean g) (noise_dist_variance g).
Definition set_noise_amp (x : float) (g : NoiseGenerator) : NoiseGenerator :=
  mkNoiseGenerator (noise_pot_value g) (noise_pot_scaling g) x (noise_current
    g) (noise_enable g) (noise_mean g) (noise_sigma g) (noise_newSigma g)
    (noise_var g) (noise_dist_mean g) (noise_dist_variance g).
Definition set_noise_current (x : float) (g : NoiseGenerator) : NoiseGenerator :=
  mkNoiseGenerator (noise_pot_value g) (noise_pot_scaling g) (noise_amp g) x
    (noise_enable g) (noise_mean g) (noise_sigma g) (noise_newSigma g)
    (noise_var g) (noise_dist_mean g) (noise_dist_variance g).
Definition set_noise_enable (x : bool) (g : NoiseGenerator) : NoiseGenerator :=
  mkNoiseGenerator (noise_pot_value g) (noise_pot_scaling g) (noise_amp g)
    (noise_current g) x (noise_mean g) (noise_sigma g) (noise_newSigma g)
    (noise_var g) (noise_dist_mean g) (noise_dist_variance g).
Definition set_noise_sigma (x : float) (g : NoiseGenerator) : NoiseGenerator :=
  mkNoiseGenerator (noise_pot_value g) (noise_pot_scaling g) (noise_amp g)
    (noise_current g) (noise_enable g) (noise_mean g) x (noise_newSigma g)
    (noise_var g) (noise_dist_mean g) (noise_dist_variance g).
Definition set_noise_newSigma (x : float) (g : NoiseGenerator) : NoiseGenerator :=
  mkNoiseGenerator (noise_pot_value g) (noise_pot_scaling g) (noise_amp g)
    (noise_current g) (noise_enable g) (noise_mean g) (noise_sigma g) x
    (noise_var g) (noise_dist_mean g) (noise_dist_variance g).
Definition set_noise_var (x : float) (g : NoiseGenerator) : NoiseGenerator :=
  mkNoiseGenerator (noise_pot_value g) (noise_pot_scaling g) (noise_amp g)
    (noise_current g) (noise_enable g) (noise_mean g) (noise_sigma g)
    (noise_newSigma g) x (noise_dist_mean g) (noise_dist_variance g).
Definition set_noise_dist_mean (x : float) (g : NoiseGenerator) : NoiseGenerator :=
  mkNoiseGenerator (noise_pot_value g) (noise_pot_scaling g) (noise_amp g)
    (noise_current g) (noise_enable g) (noise_mean g) (noise_sigma g)
    (noise_newSigma g) (noise_var g) x (noise_dist_variance g).
Definition set_noise_dist_variance (x : float) (g : NoiseGenerator) : NoiseGenerator :=
  mkNoiseGenerator (noise_pot_value g) (noise_pot_scaling g) (noise_amp g)
    (noise_current g) (noise_enable g) (noise_mean g) (noise_sigma g)
    (noise_newSigma g) (noise_var g) (noise_dist_mean g) x.

(** [struct Photodiode] (General_settings.h). *)
Record Photodiode : Type := mkPhotodiode {
  PD_pot_value : Z;
  PD_pot_scaling : float;
  PD_gain : float;
  PD_amp : float;
  PD_value : Z;
  PD_values : list Z;  (* int values[PD_WindowSize] *)
  PD_counter : Z;
  PD_avgWindow : Z;
  PD_sum : Z;
  PD_average : float;
  PD_inv_scaling : float;
  PD_decay : float;
  PD_ampMin : float;
  PD_recovery : float;
  PD_polarity : Z;
  PD_current : float;
  PD_gain_enable : bool;
  PD_decay_enable : bool;
  PD_recovery_enable : bool
}.

Definition set_PD_pot_value (x : Z) (p : Photodiode) : Photodiode :=
  mkPhotodiode x (PD_pot_scaling p) (PD_gain p) (PD_amp p) (PD_value p)
    (PD_values p) (PD_counter p) (PD_avgWindow p) (PD_sum p) (PD_average p)
    (PD_inv_scaling p) (PD_decay p) (PD_ampMin p) (PD_recovery p) (PD_polarity
    p) (PD_current p) (PD_gain_enable p) (PD_decay_enable p)
    (PD_recovery_enable p).
Definition set_PD_gain (x : float) (p : Photodiode) : Photodiode :=
  mkPhotodiode (PD_pot_value p) (PD_pot_scaling p) x (PD_amp p) (PD_value p)
    (PD_values p) (PD_counter p) (PD_avgWindow p) (PD_sum p) (PD_average p)
    (PD_inv_scaling p) (PD_decay p) (PD_ampMin p) (PD_recovery p) (PD_polarity
    p) (PD_current p) (PD_gain_enable p) (PD_decay_enable p)
    (PD_recovery_enable p).
Definition set_PD_amp (x : float) (p : Photodiode) : Photodiode :=
  mkPhotodiode (PD_pot_value p) (PD_pot_scaling p) (PD_gain p) x (PD_value p)
    (PD_values p) (PD_counter p) (PD_avgWindow p) (PD_sum p) (PD_average p)
    (PD_inv_scaling p) (PD_decay p) (PD_ampMin p) (PD_recovery p) (PD_polarity
    p) (PD_current p) (PD_gain_enable p) (PD_decay_enable p)
    (PD_recovery_enable p).
Definition set_PD_value (x : Z) (p : Photodiode) : Photodiode :=
  mkPhotodiode (PD_pot_value p) (PD_pot_scaling p) (PD_gain p) (PD_amp p) x
    (PD_values p) (PD_counter p) (PD_avgWindow p) (PD_sum p) (PD_average p)
    (PD_inv_scaling p) (PD_decay p) (PD_ampMin p) (PD_recovery p) (PD_polarity
    p) (PD_current p) (PD_gain_enable p) (PD_decay_enable p)
    (PD_recovery_enable p).
Definition set_PD_values (x : list Z) (p : Photodiode) : Photodiode :=
  mkPhotodiode (PD_pot_value p) (PD_pot_scaling p) (PD_gain p) (PD_amp p)
    (PD_value p) x (PD_counter p) (PD_avgWindow p) (PD_sum p) (PD_average p)
    (PD_inv_scaling p) (PD_decay p) (PD_ampMin p) (PD_recovery p) (PD_polarity
    p) (PD_current p) (PD_gain_enable p) (PD_decay_enable p)
    (PD_recovery_enable p).
Definition set_PD_counter (x : Z) (p : Photodiode) : Photodiode :=
  mkPhotodiode (PD_pot_value p) (PD_pot_scaling p) (PD_gain p) (PD_amp p)
    (PD_value p) (PD_values p) x (PD_avgWindow p) (PD_sum p) (PD_average p)
    (PD_inv_scaling p) (PD_decay p) (PD_ampMin p) (PD_recovery p) (PD_polarity
    p) (PD_current p) (PD_gain_enable p) (PD_decay_enable p)
    (PD_recovery_enable p).
Definition set_PD_sum (x : Z) (p : Photodiode) : Photodiode :=
  mkPhotodiode (PD_pot_value p) (PD_pot_scaling p) (PD_gain p) (PD_amp p)
    (PD_value p) (PD_values p) (PD_counter p) (PD_avgWindow p) x (PD_average
    p) (PD_inv_scaling p) (PD_decay p) (PD_ampMin p) (PD_recovery p)
    (PD_polarity p) (PD_current p) (PD_gain_enable p) (PD_decay_enable p)
    (PD_recovery_enable p).
Definition set_PD_average (x : float) (p : Photodiode) : Photodiode :=
  mkPhotodiode (PD_pot_value p) (PD_pot_scaling p) (PD_gain p) (PD_amp p)
    (PD_value p) (PD_values p) (PD_counter p) (PD_avgWindow p) (PD_sum p) x
    (PD_inv_scaling p) (PD_decay p) (PD_ampMin p) (PD_recovery p) (PD_polarity
    p) (PD_current p) (PD_gain_enable p) (PD_decay_enable p)
    (PD_recovery_enable p).
Definition set_PD_decay (x : float) (p : Photodiode) : Photodiode :=
  mkPhotodiode (PD_pot_value p) (PD_pot_scaling p) (PD_gain p) (PD_amp p)
    (PD_value p) (PD_values p) (PD_counter p) (PD_avgWindow p) (PD_sum p)
    (PD_average p) (PD_inv_scaling p) x (PD_ampMin p) (PD_recovery p)
    (PD_polarity p) (PD_current p) (PD_gain_enable p) (PD_decay_enable p)
    (PD_recovery_enable p).
Definition set_PD_recovery (x : float) (p : Photodiode) : Photodiode :=
  mkPhotodiode (PD_pot_value p) (PD_pot_scaling p) (PD_gain p) (PD_amp p)
    (PD_value p) (PD_values p) (PD_counter p) (PD_avgWindow p) (PD_sum p)
    (PD_average p) (PD_inv_scaling p) (PD_decay p) (PD_ampMin p) x
    (PD_polarity p) (PD_current p) (PD_gain_enable p) (PD_decay_enable p)
    (PD_recovery_enable p).
Definition set_PD_polarity (x : Z) (p : Photodiode) : Photodiode :=
  mkPhotodiode (PD_pot_value p) (PD_pot_scaling p) (PD_gain p) (PD_amp p)
    (PD_value p) (PD_values p) (PD_counter p) (PD_avgWindow p) (PD_sum p)
    (PD_average p) (PD_inv_scaling p) (PD_decay p) (PD_ampMin p) (PD_recovery
    p) x (PD_current p) (PD_gain_enable p) (PD_decay_enable p)
    (PD_recovery_enable p).
Definition set_PD_current (x : float) (p : Photodiode) : Photodiode :=
  mkPhotodiode (PD_pot_value p) (PD_pot_scaling p) (PD_gain p) (PD_amp p)
    (PD_value p) (PD_values p) (PD_counter p) (PD_avgWindow p) (PD_sum p)
    (PD_average p) (PD_inv_scaling p) (PD_decay p) (PD_ampMin p) (PD_recovery
    p) (PD_polarity p) x (PD_gain_enable p) (PD_decay_enable p)
    (PD_recovery_enable p).
Definition set_PD_gain_enable (x : bool) (p : Photodiode) : Photodiode :=
  mkPhotodiode (PD_pot_value p) (PD_pot_scaling p) (PD_gain p) (PD_amp p)
    (PD_value p) (PD_values p) (PD_counter p) (PD_avgWindow p) (PD_sum p)
    (PD_average p) (PD_inv_scaling p) (PD_decay p) (PD_ampMin p) (PD_recovery
    p) (PD_polarity p) (PD_current p) x (PD_decay_enable p)
    (PD_recovery_enable p).
Definition set_PD_decay_enable (x : bool) (p : Photodiode) : Photodiode :=
  mkPhotodiode (PD_pot_value p) (PD_pot_scaling p) (PD_gain p) (PD_amp p)
    (PD_value p) (PD_values p) (PD_counter p) (PD_avgWindow p) (PD_sum p)
    (PD_average p) (PD_inv_scaling p) (PD_decay p) (PD_ampMin p) (PD_recovery
    p) (PD_polarity p) (PD_current p) (PD_gain_enable p) x (PD_recovery_enable
    p).
Definition set_PD_recovery_enable (x : bool) (p : Photodiode) : Photodiode :=
  mkPhotodiode (PD_pot_value p) (PD_pot_scaling p) (PD_gain p) (PD_amp p)
    (PD_value p) (PD_values p) (PD_counter p) (PD_avgWindow p) (PD_sum p)
    (PD_average p) (PD_inv_scaling p) (PD_decay p) (PD_ampMin p) (PD_recovery
    p) (PD_polarity p) (PD_current p) (PD_gain_enable p) (PD_decay_enable p)
    x.

(** [struct Synapse] (General_settings.h). *)
Record Synapse : Type := mkSynapse {
  syn_pin_digital : Z;
  syn_pin_analog : Z;
  syn_pot_pin : Z;
  syn_gain : float;
  syn_pot_value : Z;
  syn_pot_scaling : float;
  syn_spikeState : Z;
  syn_current : float;
  syn_decay : float;
  syn_Vm : float;
  syn_Vm_input : float;
  syn_analogOffsetLow : float;
  syn_analogOffsetHigh : float;
  syn_gain_enable : bool;
  syn_decay_enable : bool
}.

Definition set_syn_gain (x : float) (s : Synapse) : Synapse :=
  mkSynapse (syn_pin_digital s) (syn_pin_analog s) (syn_pot_pin s) x
    (syn_pot_value s) (syn_pot_scaling s) (syn_spikeState s) (syn_current s)
    (syn_decay s) (syn_Vm s) (syn_Vm_input s) (syn_analogOffsetLow s)
    (syn_analogOffsetHigh s) (syn_gain_enable s) (syn_decay_enable s).
Definition set_syn_pot_value (x : Z) (s : Synapse) : Synapse :=
  mkSynapse (syn_pin_digital s) (syn_pin_analog s) (syn_pot_pin s) (syn_gain
    s) x (syn_pot_scaling s) (syn_spikeState s) (syn_current s) (syn_decay s)
    (syn_Vm s) (syn_Vm_input s) (syn_analogOffsetLow s) (syn_analogOffsetHigh
    s) (syn_gain_enable s) (syn_decay_enable s).
Definition set_syn_spikeState (x : Z) (s : Synapse) : Synapse :=
  mkSynapse (syn_pin_digital s) (syn_pin_analog s) (syn_pot_pin s) (syn_gain
    s) (syn_pot_value s) (syn_pot_scaling s) x (syn_current s) (syn_decay s)
    (syn_Vm s) (syn_Vm_input s) (syn_analogOffsetLow s) (syn_analogOffsetHigh
    s) (syn_gain_enable s) (syn_decay_enable s).
Definition set_syn_current (x : float) (s : Synapse) : Synapse :=
  mkSynapse (syn_pin_digital s) (syn_pin_analog s) (syn_pot_pin s) (syn_gain
    s) (syn_pot_value s) (syn_pot_scaling s) (syn_spikeState s) x (syn_decay
    s) (syn_Vm s) (syn_Vm_input s) (syn_analogOffsetLow s)
    (syn_analogOffsetHigh s) (syn_gain_enable s) (syn_decay_enable s).
Definition set_syn_decay (x : float) (s : Synapse) : Synapse :=
  mkSynapse (syn_pin_digital s) (syn_pin_analog s) (syn_pot_pin s) (syn_gain
    s) (syn_pot_value s) (syn_pot_scaling s) (syn_spikeState s) (syn_current
    s) x (syn_Vm s) (syn_Vm_input s) (syn_analogOffsetLow s)
    (syn_analogOffsetHigh s) (syn_gain_enable s) (syn_decay_enable s).
Definition set_syn_Vm (x : float) (s : Synapse) : Synapse :=
  mkSynapse (syn_pin_digital s) (syn_pin_analog s) (syn_pot_pin s) (syn_gain
    s) (syn_pot_value s) (syn_pot_scaling s) (syn_spikeState s) (syn_current
    s) (syn_decay s) x (syn_Vm_input s) (syn_analogOffsetLow s)
    (syn_analogOffsetHigh s) (syn_gain_enable s) (syn_decay_enable s).
Definition set_syn_Vm_input (x : float) (s : Synapse) : Synapse :=
  mkSynapse (syn_pin_digital s) (syn_pin_analog s) (syn_pot_pin s) (syn_gain
    s) (syn_pot_value s) (syn_pot_scaling s) (syn_spikeState s) (syn_current
    s) (syn_decay s) (syn_Vm s) x (syn_analogOffsetLow s)
    (syn_analogOffsetHigh s) (syn_gain_enable s) (syn_decay_enable s).
Definition set_syn_gain_enable (x : bool) (s : Synapse) : Synapse :=
  mkSynapse (syn_pin_digital s) (syn_pin_analog s) (syn_pot_pin s) (syn_gain
    s) (syn_pot_value s) (syn_pot_scaling s) (syn_spikeState s) (syn_current
    s) (syn_decay s) (syn_Vm s) (syn_Vm_input s) (syn_analogOffsetLow s)
    (syn_analogOffsetHigh s) x (syn_decay_enable s).
Definition set_syn_decay_enable (x : bool) (s : Synapse) : Synapse :=
  mkSynapse (syn_pin_digital s) (syn_pin_analog s) (syn_pot_pin s) (syn_gain
    s) (syn_pot_value s) (syn_pot_scaling s) (syn_spikeState s) (syn_current
    s) (syn_decay s) (syn_Vm s) (syn_Vm_input s) (syn_analogOffsetLow s)
    (syn_analogOffsetHigh s) (syn_gain_enable s) x.

(** [struct Stimulus] (General_settings.h); the pin fields are the constants of [pins]. *)
Record Stimulus : Type := mkStimulus {
  stim_strPot : Z;
  stim_str_digitalMap : float;
  stim_str_digital : Z;
  stim_str_analogMap : float;
  stim_str_analog : Z;
  stim_str_analog_min : Z;
  stim_freqPot : Z;
  stim_freq_map : float;
  stim_freq : Z;
  stim_value_digital : Z;
  stim_value_analog : Z;
  stim_value_custom : Z;
  stim_current_scaling : float;
  stim_light_scaling : float;
  stim_light_offset : float;
  stim_counter : Z;
  stim_steps : Z;
  stim_dutyCycle : Z;
  stim_dutyCycle_Min : Z;
  stim_state : Z;
  stim_trigger : Z;
  stim_pwm : Z;
  stim_dac : Z;
  stim_strength_enable : bool;
  stim_frequency_enable : bool;
  stim_custom_enable : bool;  (* true: custom mode is OFF (auto mode) *)
  stim_trigger_enable : bool;
  stim_serialTrigger_enable : bool
}.

Definition set_stim_strPot (x : Z) (s : Stimulus) : Stimulus :=
  mkStimulus x (stim_str_digitalMap s) (stim_str_digital s)
    (stim_str_analogMap s) (stim_str_analog s) (stim_str_analog_min s)
    (stim_freqPot s) (stim_freq_map s) (stim_freq s) (stim_value_digital s)
    (stim_value_analog s) (stim_value_custom s) (stim_current_scaling s)
    (stim_light_scaling s) (stim_light_offset s) (stim_counter s) (stim_steps
    s) (stim_dutyCycle s) (stim_dutyCycle_Min s) (stim_state s) (stim_trigger
    s) (stim_pwm s) (stim_dac s) (stim_strength_enable s)
    (stim_frequency_enable s) (stim_custom_enable s) (stim_trigger_enable s)
    (stim_serialTrigger_enable s).
Definition set_stim_str_digital (x : Z) (s : Stimulus) : Stimulus :=
  mkStimulus (stim_strPot s) (stim_str_digitalMap s) x (stim_str_analogMap s)
    (stim_str_analog s) (stim_str_analog_min s) (stim_freqPot s)
    (stim_freq_map s) (stim_freq s) (stim_value_digital s) (stim_value_analog
    s) (stim_value_custom s) (stim_current_scaling s) (stim_light_scaling s)
    (stim_light_offset s) (stim_counter s) (stim_steps s) (stim_dutyCycle s)
    (stim_dutyCycle_Min s) (stim_state s) (stim_trigger s) (stim_pwm s)
    (stim_dac s) (stim_strength_enable s) (stim_frequency_enable s)
    (stim_custom_enable s) (stim_trigger_enable s) (stim_serialTrigger_enable
    s).
Definition set_stim_str_analog (x : Z) (s : Stimulus) : Stimulus :=
  mkStimulus (stim_strPot s) (stim_str_digitalMap s) (stim_str_digital s)
    (stim_str_analogMap s) x (stim_str_analog_min s) (stim_freqPot s)
    (stim_freq_map s) (stim_freq s) (stim_value_digital s) (stim_value_analog
    s) (stim_value_custom s) (stim_current_scaling s) (stim_light_scaling s)
    (stim_light_offset s) (stim_counter s) (stim_steps s) (stim_dutyCycle s)
    (stim_dutyCycle_Min s) (stim_state s) (stim_trigger s) (stim_pwm s)
    (stim_dac s) (stim_strength_enable s) (stim_frequency_enable s)
    (stim_custom_enable s) (stim_trigger_enable s) (stim_serialTrigger_enable
    s).
Definition set_stim_freqPot (x : Z) (s : Stimulus) : Stimulus :=
  mkStimulus (stim_strPot s) (stim_str_digitalMap s) (stim_str_digital s)
    (stim_str_analogMap s) (stim_str_analog s) (stim_str_analog_min s) x
    (stim_freq_map s) (stim_freq s) (stim_value_digital s) (stim_value_analog
    s) (stim_value_custom s) (stim_current_scaling s) (stim_light_scaling s)
    (stim_light_offset s) (stim_counter s) (stim_steps s) (stim_dutyCycle s)
    (stim_dutyCycle_Min s) (stim_state s) (stim_trigger s) (stim_pwm s)
    (stim_dac s) (stim_strength_enable s) (stim_frequency_enable s)
    (stim_custom_enable s) (stim_trigger_enable s) (stim_serialTrigger_enable
    s).
Definition set_stim_freq (x : Z) (s : Stimulus) : Stimulus :=
  mkStimulus (stim_strPot s) (stim_str_digitalMap s) (stim_str_digital s)
    (stim_str_analogMap s) (stim_str_analog s) (stim_str_analog_min s)
    (stim_freqPot s) (stim_freq_map s) x (stim_value_digital s)
    (stim_value_analog s) (stim_value_custom s) (stim_current_scaling s)
    (stim_light_scaling s) (stim_light_offset s) (stim_counter s) (stim_steps
    s) (stim_dutyCycle s) (stim_dutyCycle_Min s) (stim_state s) (stim_trigger
    s) (stim_pwm s) (stim_dac s) (stim_strength_enable s)
    (stim_frequency_enable s) (stim_custom_enable s) (stim_trigger_enable s)
    (stim_serialTrigger_enable s).
Definition set_stim_value_digital (x : Z) (s : Stimulus) : Stimulus :=
  mkStimulus (stim_strPot s) (stim_str_digitalMap s) (stim_str_digital s)
    (stim_str_analogMap s) (stim_str_analog s) (stim_str_analog_min s)
    (stim_freqPot s) (stim_freq_map s) (stim_freq s) x (stim_value_analog s)
    (stim_value_custom s) (stim_current_scaling s) (stim_light_scaling s)
    (stim_light_offset s) (stim_counter s) (stim_steps s) (stim_dutyCycle s)
    (stim_dutyCycle_Min s) (stim_state s) (stim_trigger s) (stim_pwm s)
    (stim_dac s) (stim_strength_enable s) (stim_frequency_enable s)
    (stim_custom_enable s) (stim_trigger_enable s) (stim_serialTrigger_enable
    s).
Definition set_stim_value_analog (x : Z) (s : Stimulus) : Stimulus :=
  mkStimulus (stim_strPot s) (stim_str_digitalMap s) (stim_str_digital s)
    (stim_str_analogMap s) (stim_str_analog s) (stim_str_analog_min s)
    (stim_freqPot s) (stim_freq_map s) (stim_freq s) (stim_value_digital s) x
    (stim_value_custom s) (stim_current_scaling s) (stim_light_scaling s)
    (stim_light_offset s) (stim_counter s) (stim_steps s) (stim_dutyCycle s)
    (stim_dutyCycle_Min s) (stim_state s) (stim_trigger s) (stim_pwm s)
    (stim_dac s) (stim_strength_enable s) (stim_frequency_enable s)
    (stim_custom_enable s) (stim_trigger_enable s) (stim_serialTrigger_enable
    s).
Definition set_stim_value_custom (x : Z) (s : Stimulus) : Stimulus :=
  mkStimulus (stim_strPot s) (stim_str_digitalMap s) (stim_str_digital s)
    (stim_str_analogMap s) (stim_str_analog s) (stim_str_analog_min s)
    (stim_freqPot s) (stim_freq_map s) (stim_freq s) (stim_value_digital s)
    (stim_value_analog s) x (stim_current_scaling s) (stim_light_scaling s)
    (stim_light_offset s) (stim_counter s) (stim_steps s) (stim_dutyCycle s)
    (stim_dutyCycle_Min s) (stim_state s) (stim_trigger s) (stim_pwm s)
    (stim_dac s) (stim_strength_enable s) (stim_frequency_enable s)
    (stim_custom_enable s) (stim_trigger_enable s) (stim_serialTrigger_enable
    s).
Definition set_stim_counter (x : Z) (s : Stimulus) : Stimulus :=
  mkStimulus (stim_strPot s) (stim_str_digitalMap s) (stim_str_digital s)
    (stim_str_analogMap s) (stim_str_analog s) (stim_str_analog_min s)
    (stim_freqPot s) (stim_freq_map s) (stim_freq s) (stim_value_digital s)
    (stim_value_analog s) (stim_value_custom s) (stim_current_scaling s)
    (stim_light_scaling s) (stim_light_offset s) x (stim_steps s)
    (stim_dutyCycle s) (stim_dutyCycle_Min s) (stim_state s) (stim_trigger s)
    (stim_pwm s) (stim_dac s) (stim_strength_enable s) (stim_frequency_enable
    s) (stim_custom_enable s) (stim_trigger_enable s)
    (stim_serialTrigger_enable s).
Definition set_stim_steps (x : Z) (s : Stimulus) : Stimulus :=
  mkStimulus (stim_strPot s) (stim_str_digitalMap s) (stim_str_digital s)
    (stim_str_analogMap s) (stim_str_analog s) (stim_str_analog_min s)
    (stim_freqPot s) (stim_freq_map s) (stim_freq s) (stim_value_digital s)
    (stim_value_analog s) (stim_value_custom s) (stim_current_scaling s)
    (stim_light_scaling s) (stim_light_offset s) (stim_counter s) x
    (stim_dutyCycle s) (stim_dutyCycle_Min s) (stim_state s) (stim_trigger s)
    (stim_pwm s) (stim_dac s) (stim_strength_enable s) (stim_frequency_enable
    s) (stim_custom_enable s) (stim_trigger_enable s)
    (stim_serialTrigger_enable s).
Definition set_stim_state (x : Z) (s : Stimulus) : Stimulus :=
  mkStimulus (stim_strPot s) (stim_str_digitalMap s) (stim_str_digital s)
    (stim_str_analogMap s) (stim_str_analog s) (stim_str_analog_min s)
    (stim_freqPot s) (stim_freq_map s) (stim_freq s) (stim_value_digital s)
    (stim_value_analog s) (stim_value_custom s) (stim_current_scaling s)
    (stim_light_scaling s) (stim_light_offset s) (stim_counter s) (stim_steps
    s) (stim_dutyCycle s) (stim_dutyCycle_Min s) x (stim_trigger s) (stim_pwm
    s) (stim_dac s) (stim_strength_enable s) (stim_frequency_enable s)
    (stim_custom_enable s) (stim_trigger_enable s) (stim_serialTrigger_enable
    s).
Definition set_stim_trigger (x : Z) (s : Stimulus) : Stimulus :=
  mkStimulus (stim_strPot s) (stim_str_digitalMap s) (stim_str_digital s)
    (stim_str_analogMap s) (stim_str_analog s) (stim_str_analog_min s)
    (stim_freqPot s) (stim_freq_map s) (stim_freq s) (stim_value_digital s)
    (stim_value_analog s) (stim_value_custom s) (stim_current_scaling s)
    (stim_light_scaling s) (stim_light_offset s) (stim_counter s) (stim_steps
    s) (stim_dutyCycle s) (stim_dutyCycle_Min s) (stim_state s) x (stim_pwm s)
    (stim_dac s) (stim_strength_enable s) (stim_frequency_enable s)
    (stim_custom_enable s) (stim_trigger_enable s) (stim_serialTrigger_enable
    s).
Definition set_stim_pwm (x : Z) (s : Stimulus) : Stimulus :=
  mkStimulus (stim_strPot s) (stim_str_digitalMap s) (stim_str_digital s)
    (stim_str_analogMap s) (stim_str_analog s) (stim_str_analog_min s)
    (stim_freqPot s) (stim_freq_map s) (stim_freq s) (stim_value_digital s)
    (stim_value_analog s) (stim_value_custom s) (stim_current_scaling s)
    (stim_light_scaling s) (stim_light_offset s) (stim_counter s) (stim_steps
    s) (stim_dutyCycle s) (stim_dutyCycle_Min s) (stim_state s) (stim_trigger
    s) x (stim_dac s) (stim_strength_enable s) (stim_frequency_enable s)
    (stim_custom_enable s) (stim_trigger_enable s) (stim_serialTrigger_enable
    s).
Definition set_stim_dac (x : Z) (s : Stimulus) : Stimulus :=
  mkStimulus (stim_strPot s) (stim_str_digitalMap s) (stim_str_digital s)
    (stim_str_analogMap s) (stim_str_analog s) (stim_str_analog_min s)
    (stim_freqPot s) (stim_freq_map s) (stim_freq s) (stim_value_digital s)
    (stim_value_analog s) (stim_value_custom s) (stim_current_scaling s)
    (stim_light_scaling s) (stim_light_offset s) (stim_counter s) (stim_steps
    s) (stim_dutyCycle s) (stim_dutyCycle_Min s) (stim_state s) (stim_trigger
    s) (stim_pwm s) x (stim_strength_enable s) (stim_frequency_enable s)
    (stim_custom_enable s) (stim_trigger_enable s) (stim_serialTrigger_enable
    s).
Definition set_stim_strength_enable (x : bool) (s : Stimulus) : Stimulus :=
  mkStimulus (stim_strPot s) (stim_str_digitalMap s) (stim_str_digital s)
    (stim_str_analogMap s) (stim_str_analog s) (stim_str_analog_min s)
    (stim_freqPot s) (stim_freq_map s) (stim_freq s) (stim_value_digital s)
    (stim_value_analog s) (stim_value_custom s) (stim_current_scaling s)
    (stim_light_scaling s) (stim_light_offset s) (stim_counter s) (stim_steps
    s) (stim_dutyCycle s) (stim_dutyCycle_Min s) (stim_state s) (stim_trigger
    s) (stim_pwm s) (stim_dac s) x (stim_frequency_enable s)
    (stim_custom_enable s) (stim_trigger_enable s) (stim_serialTrigger_enable
    s).
Definition set_stim_frequency_enable (x : bool) (s : Stimulus) : Stimulus :=
  mkStimulus (stim_strPot s) (stim_str_digitalMap s) (stim_str_digital s)
    (stim_str_analogMap s) (stim_str_analog s) (stim_str_analog_min s)
    (stim_freqPot s) (stim_freq_map s) (stim_freq s) (stim_value_digital s)
    (stim_value_analog s) (stim_value_custom s) (stim_current_scaling s)
    (stim_light_scaling s) (stim_light_offset s) (stim_counter s) (stim_steps
    s) (stim_dutyCycle s) (stim_dutyCycle_Min s) (stim_state s) (stim_trigger
    s) (stim_pwm s) (stim_dac s) (stim_strength_enable s) x
    (stim_custom_enable s) (stim_trigger_enable s) (stim_serialTrigger_enable
    s).
Definition set_stim_custom_enable (x : bool) (s : Stimulus) : Stimulus :=
  mkStimulus (stim_strPot s) (stim_str_digitalMap s) (stim_str_digital s)
    (stim_str_analogMap s) (stim_str_analog s) (stim_str_analog_min s)
    (stim_freqPot s) (stim_freq_map s) (stim_freq s) (stim_value_digital s)
    (stim_value_analog s) (stim_value_custom s) (stim_current_scaling s)
    (stim_light_scaling s) (stim_light_offset s) (stim_counter s) (stim_steps
    s) (stim_dutyCycle s) (stim_dutyCycle_Min s) (stim_state s) (stim_trigger
    s) (stim_pwm s) (stim_dac s) (stim_strength_enable s)
    (stim_frequency_enable s) x (stim_trigger_enable s)
    (stim_serialTrigger_enable s).
Definition set_stim_trigger_enable (x : bool) (s : Stimulus) : Stimulus :=
  mkStimulus (stim_strPot s) (stim_str_digitalMap s) (stim_str_digital s)
    (stim_str_analogMap s) (stim_str_analog s) (stim_str_analog_min s)
    (stim_freqPot s) (stim_freq_map s) (stim_freq s) (stim_value_digital s)
    (stim_value_analog s) (stim_value_custom s) (stim_current_scaling s)
    (stim_light_scaling s) (stim_light_offset s) (stim_counter s) (stim_steps
    s) (stim_dutyCycle s) (stim_dutyCycle_Min s) (stim_state s) (stim_trigger
    s) (stim_pwm s) (stim_dac s) (stim_strength_enable s)
    (stim_frequency_enable s) (stim_custom_enable s) x
    (stim_serialTrigger_enable s).
Definition set_stim_serialTrigger_enable (x : bool) (s : Stimulus) : Stimulus :=
  mkStimulus (stim_strPot s) (stim_str_digitalMap s) (stim_str_digital s)
    (stim_str_analogMap s) (stim_str_analog s) (stim_str_analog_min s)
    (stim_freqPot s) (stim_freq_map s) (stim_freq s) (stim_value_digital s)
    (stim_value_analog s) (stim_value_custom s) (stim_current_scaling s)
    (stim_light_scaling s) (stim_light_offset s) (stim_counter s) (stim_steps
    s) (stim_dutyCycle s) (stim_dutyCycle_Min s) (stim_state s) (stim_trigger
    s) (stim_pwm s) (stim_dac s) (stim_strength_enable s)
    (stim_frequency_enable s) (stim_custom_enable s) (stim_trigger_enable s)
    x.

(** [struct SamplePacket]: eight [int16_t] fields, 16 bytes (General_settings.h). *)
Record SamplePacket : Type := mkSamplePacket {
  pkt_v_q : Z;
  pkt_stim_state : Z;
  pkt_Itot_q : Z;
  pkt_syn1_vm_q : Z;
  pkt_Isyn1_q : Z;
  pkt_syn2_vm_q : Z;
  pkt_Isyn2_q : Z;
  pkt_trigger_q : Z
}.

(** What one call reads from the hardware: the two ADCs by channel, the
    digital pins by number, and the sample that [noise.dist.random()] draws
    for a given mean and variance. *)
Record Board : Type := mkBoard {
  ADC1_read : Z -> Z;
  ADC2_read : Z -> Z;
  digitalRead : Z -> Z;
  Gaussian_random : float -> float -> float
}.

(** Writes to the hardware, in the order the firmware issues them. *)
Inductive Effect : Type :=
  | DigitalWrite (pin level : Z)
  | LedcWrite (pin value : Z)
  | DacWrite (value channel : Z)
  | Delay (ms : Z)
  | SerialPrint (s : string)
  | SerialWrite (bytes : list Z).

(** The global objects of the firmware. *)
Record World : Type := mkWorld {
  timing : Timing;
  currentModel : IzhikevichModel;
  neuron : NeuronModel;
  IC : VoltageClamp;
  noise : NoiseGenerator;
  PD : Photodiode;
  syn1 : Synapse;
  syn2 : Synapse;
  stim : Stimulus;
  Buzzer_enable : bool;
  LED_enable : bool;
  pkt : SamplePacket;
  effects : list Effect
}.

Definition set_timing (x : Timing) (w : World) : World :=
  mkWorld x (currentModel w) (neuron w) (IC w) (noise w) (PD w) (syn1 w) (syn2
    w) (stim w) (Buzzer_enable w) (LED_enable w) (pkt w) (effects w).
Definition set_currentModel (x : IzhikevichModel) (w : World) : World :=
  mkWorld (timing w) x (neuron w) (IC w) (noise w) (PD w) (syn1 w) (syn2 w)
    (stim w) (Buzzer_enable w) (LED_enable w) (pkt w) (effects w).
Definition set_neuron (x : NeuronModel) (w : World) : World :=
  mkWorld (timing w) (currentModel w) x (IC w) (noise w) (PD w) (syn1 w) (syn2
    w) (stim w) (Buzzer_enable w) (LED_enable w) (pkt w) (effects w).
Definition set_IC (x : VoltageClamp) (w : World) : World :=
  mkWorld (timing w) (currentModel w) (neuron w) x (noise w) (PD w) (syn1 w)
    (syn2 w) (stim w) (Buzzer_enable w) (LED_enable w) (pkt w) (effects w).
Definition set_noise (x : NoiseGenerator) (w : World) : World :=
  mkWorld (timing w) (currentModel w) (neuron w) (IC w) x (PD w) (syn1 w)
    (syn2 w) (stim w) (Buzzer_enable w) (LED_enable w) (pkt w) (effects w).
Definition set_PD (x : Photodiode) (w : World) : World :=
  mkWorld (timing w) (currentModel w) (neuron w) (IC w) (noise w) x (syn1 w)
    (syn2 w) (stim w) (Buzzer_enable w) (LED_enable w) (pkt w) (effects w).
Definition set_syn1 (x : Synapse) (w : World) : World :=
  mkWorld (timing w) (currentModel w) (neuron w) (IC w) (noise w) (PD w) x
    (syn2 w) (stim w) (Buzzer_enable w) (LED_enable w) (pkt w) (effects w).
Definition set_syn2 (x : Synapse) (w : World) : World :=
  mkWorld (timing w) (currentModel w) (neuron w) (IC w) (noise w) (PD w) (syn1
    w) x (stim w) (Buzzer_enable w) (LED_enable w) (pkt w) (effects w).
Definition set_stim (x : Stimulus) (w : World) : World :=
  mkWorld (timing w) (currentModel w) (neuron w) (IC w) (noise w) (PD w) (syn1
    w) (syn2 w) x (Buzzer_enable w) (LED_enable w) (pkt w) (effects w).
Definition set_Buzzer_enable (x : bool) (w : World) : World :=
  mkWorld (timing w) (currentModel w) (neuron w) (IC w) (noise w) (PD w) (syn1
    w) (syn2 w) (stim w) x (LED_enable w) (pkt w) (effects w).
Definition set_LED_enable (x : bool) (w : World) : World :=
  mkWorld (timing w) (currentModel w) (neuron w) (IC w) (noise w) (PD w) (syn1
    w) (syn2 w) (stim w) (Buzzer_enable w) x (pkt w) (effects w).
Definition set_pkt (x : SamplePacket) (w : World) : World :=
  mkWorld (timing w) (currentModel w) (neuron w) (IC w) (noise w) (PD w) (syn1
    w) (syn2 w) (stim w) (Buzzer_enable w) (LED_enable w) x (effects w).
Definition set_effects (x : list Effect) (w : World) : World :=
  mkWorld (timing w) (currentModel w) (neuron w) (IC w) (noise w) (PD w) (syn1
    w) (syn2 w) (stim w) (Buzzer_enable w) (LED_enable w) (pkt w) x.


Definition log (e : Effect) (w : World) : World :=
  set_effects (effects w ++ [e]) w.

(** *** Initial values of the globals *)

Definition defaultModel : IzhikevichModel := TonicSpiking.
Definition defaultParams : IzhikevichParams := getIzhikevichParams defaultModel.

Definition timing0 : Timing := mkTiming 0 0 3000.

Definition neuron0 : NeuronModel :=
  mkNeuronModel (izh_v_rest defaultParams) 0 (1#10)
    (izh_a defaultParams) (izh_b defaultParams) (izh_c defaultParams)
    (izh_d defaultParams) (izh_v_rest defaultParams)
    (-110) 100 (-30) 30 0 0 false.

Definition IC0 : VoltageClamp :=
  mkVoltageClamp 0 (1#10) 0 0 (inject_Z bits12 / 100) 0 true.

Definition noise0 : NoiseGenerator :=
  mkNoiseGenerator 0 (inject_Z bits12 / 25) 0 0 true 0 0 0 0 0 0.

Definition PD_WindowSize : Z := 10.

Definition PD0 : Photodiode :=
  mkPhotodiode 0 (inject_Z bits12 / 50) 0 1
    0 (repeat 0 (Z.to_nat PD_WindowSize)) 0 PD_WindowSize 0 0
    (1 / (45#100)) (1#1000) 0 (25#1000) 1 0 true true true.

Definition syn1_0 : Synapse :=
  mkSynapse 38 0 1 0 0 (inject_Z bits12 / 50) LOW 0 (995#1000) 0 0
    (-10) (-400) true true.

Definition syn2_0 : Synapse :=
  mkSynapse 39 2 3 0 0 (inject_Z bits12 / 50) LOW 0 (990#1000) 0 0
    (-10) (-400) true true.

Definition stim0 : Stimulus :=
  mkStimulus 0 (100 / inject_Z (bits12 / 2)) 0 (200 / inject_Z (bits12 / 2))
    0 5 0 (200 / inject_Z bits12) 0
    0 0 0 (9#10) (512#100) 10
    0 0 500 10 0 0 0 0
    true true true false false.

Definition pkt0 : SamplePacket := mkSamplePacket 0 0 0 0 0 0 0 0.

Definition World0 : World :=
  mkWorld timing0 defaultModel neuron0 IC0 noise0 PD0 syn1_0 syn2_0 stim0
    true true pkt0 [].

(** ** Serial_functions.h *)

(** A handler of the line channel reads its argument with [SCmd.next()] and
    converts the text with [atof] or with [atoi].  The tokenizer and the C
    library are outside the firmware: a token is given here by what the two
    conversions return on its text, the [float] that [atof] yields and the
    [int] that [atoi] yields.  The two need not agree: on the text 1e2,
    [atof] returns 100 and [atoi] returns 1.  An argument is [None] when the
    line has no further token. *)
Record Token : Type := mkToken {
  tok_atof : float;
  tok_atoi : Z
}.

(** The token of a plain decimal text (sign, digits, optional fraction) that
    denotes [v]: [atoi] reads the digits before the point. *)
Definition decimal_token (v : Q) : Token := mkToken v (Qtrunc v).

Definition readNextFloat (arg : option Token) : option float :=
  option_map tok_atof arg.

Definition readNextInt (arg : option Token) : option Z :=
  option_map tok_atoi arg.

Section Params.
Context {S : Type}.
Variable set_enableFlag : bool -> S -> S.

Definition setFloatParam (set_param : float -> S -> S) (scale : float)
    (arg : option Token) (s : S) : S :=
  let s := set_enableFlag false s in
  match readNextFloat arg with
  | Some val => set_param (val * scale)%Q s
  | None => s
  end.

Definition setIntParam (set_param : Z -> S -> S)
    (arg : option Token) (s : S) : S :=
  let s := set_enableFlag false s in
  match readNextInt arg with
  | Some val => set_param val s
  | None => s
  end.

(** The two helpers of WiFi_functions.h that mirror them. *)
Definition applyFloat (set_param : float -> S -> S) (v scale : float)
    (s : S) : S :=
  set_param (v * scale)%Q (set_enableFlag false s).

Definition applyInt (set_param : Z -> S -> S) (v : Z) (s : S) : S :=
  set_param v (set_enableFlag false s).
End Params.

Definition SetRefreshRate (arg : option Token) (w : World) : World :=
  match readNextInt arg with
  | Some val_us => set_timing (set_step_us (to_uint32 val_us) (timing w)) w
  | None => w
  end.

Definition SetNeuronModel (model : IzhikevichModel) (w : World) : World :=
  let w := set_currentModel model w in
  let p := getIzhikevichParams model in
  let n := neuron w in
  let v_rest := izh_v_rest p in
  let v := v_rest in
  set_neuron
    (mkNeuronModel v (izh_b p * v)%Q (neuron_dt_ms n)
       (izh_a p) (izh_b p) (izh_c p) (izh_d p) v_rest
       (neuron_Vm_min n) (neuron_Vm_max n) (neuron_Vm_spike n)
       (neuron_Vm_peak n) (neuron_v_out n) (neuron_total_current n)
       (neuron_spike n)) w.

Definition NeuronOpening (w : World) : World := SetNeuronModel TonicSpiking w.

Definition NeuronMode (arg : option Token) (w : World) : World :=
  match readNextInt arg with
  | Some idx => SetNeuronModel (clampToModel (to_size_t idx)) w
  | None => w
  end.

Definition StimFre_on (arg : option Token) (w : World) : World :=
  set_stim (setIntParam set_stim_frequency_enable set_stim_freq arg (stim w)) w.
Definition StimFre_off (w : World) : World :=
  set_stim (set_stim_frequency_enable true (stim w)) w.

Definition StimStr_on (arg : option Token) (w : World) : World :=
  let s := set_stim_strength_enable false (stim w) in
  match readNextInt arg with
  | Some val => set_stim (set_stim_str_analog val (set_stim_str_digital val s)) w
  | None => set_stim s w
  end.
Definition StimStr_off (w : World) : World :=
  set_stim (set_stim_strength_enable true (stim w)) w.

Definition StimCus_on (arg : option Token) (w : World) : World :=
  set_stim (setIntParam set_stim_custom_enable set_stim_value_custom arg (stim w)) w.
Definition StimCus_off (w : World) : World :=
  set_stim (set_stim_custom_enable true (stim w)) w.

Definition Serial_Trigger (w : World) : World :=
  set_stim (set_stim_serialTrigger_enable true (stim w)) w.

Definition PDGain_on (arg : option Token) (w : World) : World :=
  set_PD (setFloatParam set_PD_gain_enable set_PD_gain (1#10) arg (PD w)) w.
Definition PDGain_off (w : World) : World :=
  set_PD (set_PD_gain_enable true (PD w)) w.

Definition PDDecay_on (arg : option Token) (w : World) : World :=
  set_PD (setFloatParam set_PD_decay_enable set_PD_decay 1 arg (PD w)) w.
Definition PDDecay_off (w : World) : World :=
  set_PD (set_PD_decay_enable true (PD w)) w.

Definition PDRecovery_on (arg : option Token) (w : World) : World :=
  set_PD (setFloatParam set_PD_recovery_enable set_PD_recovery 1 arg (PD w)) w.
Definition PDRecovery_off (w : World) : World :=
  set_PD (set_PD_recovery_enable true (PD w)) w.

Definition IC_on (arg : option Token) (w : World) : World :=
  set_IC (setFloatParam set_IC_enable set_IC_current_clamp 1 arg (IC w)) w.
Definition IC_off (w : World) : World :=
  set_IC (set_IC_enable true (IC w)) w.

Definition Noise_on (arg : option Token) (w : World) : World :=
  set_noise (setFloatParam set_noise_enable set_noise_current 1 arg (noise w)) w.
Definition Noise_off (w : World) : World :=
  set_noise (set_noise_enable true (noise w)) w.

Definition Syn1Gain_on (arg : option Token) (w : World) : World :=
  set_syn1 (setFloatParam set_syn_gain_enable set_syn_gain (25#100) arg (syn1 w)) w.
Definition Syn1Gain_off (w : World) : World :=
  set_syn1 (set_syn_gain_enable true (syn1 w)) w.

Definition Syn1Decay_on (arg : option Token) (w : World) : World :=
  set_syn1 (setFloatParam set_syn_decay_enable set_syn_decay (1 / 1000) arg (syn1 w)) w.
Definition Syn1Decay_off (w : World) : World :=
  set_syn1 (set_syn_decay_enable true (syn1 w)) w.

Definition Syn2Gain_on (arg : option Token) (w : World) : World :=
  set_syn2 (setFloatParam set_syn_gain_enable set_syn_gain (25#100) arg (syn2 w)) w.
Definition Syn2Gain_off (w : World) : World :=
  set_syn2 (set_syn_gain_enable true (syn2 w)) w.

Definition Syn2Decay_on (arg : option Token) (w : World) : World :=
  set_syn2 (setFloatParam set_syn_decay_enable set_syn_decay (1 / 1000) arg (syn2 w)) w.
Definition Syn2Decay_off (w : World) : World :=
  set_syn2 (set_syn_decay_enable true (syn2 w)) w.

Definition Buzzer_on (w : World) : World := set_Buzzer_enable true w.

Definition Buzzer_off (w : World) : World :=
  log (DigitalWrite pins_gpio_spike LOW) (set_Buzzer_enable false w).

Definition LED_on (w : World) : World := set_LED_enable true w.

Definition LED_off (w : World) : World :=
  let w := set_LED_enable false w in
  let w := log (LedcWrite pins_gpio_led_r 0) w in
  let w := log (LedcWrite pins_gpio_led_g 0) w in
  log (LedcWrite pins_gpio_led_b 0) w.

Definition Connected (w : World) : World :=
  fold_left (fun w e => log e w)
    [ DigitalWrite pins_gpio_led_r HIGH; Delay 5;
      DigitalWrite pins_gpio_led_g HIGH; DigitalWrite pins_gpio_led_r LOW; Delay 5;
      DigitalWrite pins_gpio_led_b HIGH; DigitalWrite pins_gpio_led_g LOW; Delay 5;
      DigitalWrite pins_gpio_led_b LOW; Delay 5 ] w.

Definition Unrecognized (cmd : string) (w : World) : World :=
  log (SerialPrint ("Unknown command: " ++ cmd)) w.

(** A registered handler receives the rest of the line. *)
Definition Handler : Type := option Token -> World -> World.

(** The table that [SerialFunctions] registers with [SCmd.addCommand], in
    registration order.  A handler without argument ignores the rest of the
    line. *)
Definition SerialFunctions : list (string * Handler) :=
  [ ("DT", SetRefreshRate);
    ("NEU", NeuronMode);
    ("FR1", StimFre_on);
    ("FR0", fun _ => StimFre_off);
    ("ST1", StimStr_on);
    ("ST0", fun _ => StimStr_off);
    ("SC1", StimCus_on);
    ("SC0", fun _ => StimCus_off);
    ("TR", fun _ => Serial_Trigger);
    ("PG1", PDGain_on);
    ("PG0", fun _ => PDGain_off);
    ("PD1", PDDecay_on);
    ("PD0", fun _ => PDDecay_off);
    ("PR1", PDRecovery_on);
    ("PR0", fun _ => PDRecovery_off);
    ("IC1", IC_on);
    ("IC0", fun _ => IC_off);
    ("NO1", Noise_on);
    ("NO0", fun _ => Noise_off);
    ("SG11", Syn1Gain_on);
    ("SG10", fun _ => Syn1Gain_off);
    ("SD11", Syn1Decay_on);
    ("SD10", fun _ => Syn1Decay_off);
    ("SG21", Syn2Gain_on);
    ("SG20", fun _ => Syn2Gain_off);
    ("SD21", Syn2Decay_on);
    ("SD20", fun _ => Syn2Decay_off);
    ("BZ1", fun _ => Buzzer_on);
    ("BZ0", fun _ => Buzzer_off);
    ("LED1", fun _ => LED_on);
    ("LED0", fun _ => LED_off);
    ("CON", fun _ => Connected) ].

(** The command vocabulary: the registered names. *)
Definition vocabulary : list string := map fst SerialFunctions.

(** What the SerialCommand library does with a complete line: the handler of
    the first registered command whose name is the first token runs, and the
    default handler otherwise. *)
Fixpoint SCmd_lookup (table : list (string * Handler)) (cmd : string)
    : option Handler :=
  match table with
  | [] => None
  | (name, h) :: rest => if String.eqb cmd name then Some h else SCmd_lookup rest cmd
  end.

Definition SCmd_readSerial (cmd : string) (arg : option Token) (w : World)
    : World :=
  match SCmd_lookup SerialFunctions cmd with
  | Some h => h arg w
  | None => Unrecognized cmd w
  end.

(** ** WiFi_functions.h *)

Definition dispatchToken (cmd : string) (hasVal : bool) (v : float) (w : World)
    : World :=
  let cmd_is (name : string) := String.eqb cmd name in
  if cmd_is "DT" && hasVal then
    let val_us := float_to_int v in
    let val_us := if val_us <? 1000 then 1000 else val_us in
    let val_us := if 1000000 <? val_us then 1000000 else val_us in
    set_timing (set_step_us (to_uint32 val_us) (timing w)) w
  else if cmd_is "NEU" && hasVal then
    let idx := float_to_int v in
    SetNeuronModel (clampToModel (to_size_t idx)) w
  else if cmd_is "FR1" && hasVal then
    set_stim (applyInt set_stim_frequency_enable set_stim_freq (float_to_int v) (stim w)) w
  else if cmd_is "FR0" then set_stim (set_stim_frequency_enable true (stim w)) w
  else if cmd_is "ST1" && hasVal then
    let s := set_stim_strength_enable false (stim w) in
    let val := float_to_int v in
    set_stim (set_stim_str_analog val (set_stim_str_digital val s)) w
  else if cmd_is "ST0" then set_stim (set_stim_strength_enable true (stim w)) w
  else if cmd_is "SC1" && hasVal then
    set_stim (applyInt set_stim_custom_enable set_stim_value_custom (float_to_int v) (stim w)) w
  else if cmd_is "SC0" then set_stim (set_stim_custom_enable true (stim w)) w
  else if cmd_is "TR" then set_stim (set_stim_serialTrigger_enable true (stim w)) w
  else if cmd_is "PG1" && hasVal then
    set_PD (applyFloat set_PD_gain_enable set_PD_gain v (1#10) (PD w)) w
  else if cmd_is "PG0" then set_PD (set_PD_gain_enable true (PD w)) w
  else if cmd_is "PD1" && hasVal then
    set_PD (applyFloat set_PD_decay_enable set_PD_decay v 1 (PD w)) w
  else if cmd_is "PD0" then set_PD (set_PD_decay_enable true (PD w)) w
  else if cmd_is "PR1" && hasVal then
    set_PD (applyFloat set_PD_recovery_enable set_PD_recovery v 1 (PD w)) w
  else if cmd_is "PR0" then set_PD (set_PD_recovery_enable true (PD w)) w
  else if cmd_is "IC1" && hasVal then
    set_IC (applyFloat set_IC_enable set_IC_current_clamp v 1 (IC w)) w
  else if cmd_is "IC0" then set_IC (set_IC_enable true (IC w)) w
  else if cmd_is "NO1" && hasVal then
    set_noise (applyFloat set_noise_enable set_noise_current v 1 (noise w)) w
  else if cmd_is "NO0" then set_noise (set_noise_enable true (noise w)) w
  else if cmd_is "SG11" && hasVal then
    set_syn1 (applyFloat set_syn_gain_enable set_syn_gain v (25#100) (syn1 w)) w
  else if cmd_is "SG10" then set_syn1 (set_syn_gain_enable true (syn1 w)) w
  else if cmd_is "SD11" && hasVal then
    set_syn1 (applyFloat set_syn_decay_enable set_syn_decay v (1 / 1000) (syn1 w)) w
  else if cmd_is "SD10" then set_syn1 (set_syn_decay_enable true (syn1 w)) w
  else if cmd_is "SG21" && hasVal then
    set_syn2 (applyFloat set_syn_gain_enable set_syn_gain v (25#100) (syn2 w)) w
  else if cmd_is "SG20" then set_syn2 (set_syn_gain_enable true (syn2 w)) w
  else if cmd_is "SD21" && hasVal then
    set_syn2 (applyFloat set_syn_decay_enable set_syn_decay v (1 / 1000) (syn2 w)) w
  else if cmd_is "SD20" then set_syn2 (set_syn_decay_enable true (syn2 w)) w
  else if cmd_is "BZ1" then Buzzer_on w
  else if cmd_is "BZ0" then Buzzer_off w
  else if cmd_is "LED1" then LED_on w
  else if cmd_is "LED0" then LED_off w
  else if cmd_is "CON" then Connected w
  else w.

(** ** Core_functions.h *)

(** The dead-zone and scale rule shared by the clamp, photodiode and synapse
    potentiometers is written out in each function, as in the source. *)

Definition update_InputCurrent (hw : Board) (w : World) : World :=
  if negb (IC_enable (IC w)) then w else
  let c := IC w in
  let c := set_IC_pot_value
             (inject_Z (ADC1_read hw pins_adc1_current_in_pot - bits12 ÷ 2)) c in
  let c :=
    if Qle_bool (inject_Z pot_offset) (IC_pot_value c) then
      set_IC_current_clamp
        ((IC_pot_value c - inject_Z pot_offset) / IC_pot_scaling c)%Q c
    else if Qle_bool (IC_pot_value c) (inject_Z (- pot_offset)) then
      set_IC_current_clamp
        ((IC_pot_value c + inject_Z pot_offset) / IC_pot_scaling c)%Q c
    else set_IC_current_clamp 0%Q c in
  set_IC c w.

(** Conversion of the result of a comparison to a float, as [fabsf] receives
    it in [update_Noise]. *)
Definition float_of_bool (b : bool) : float := if b then 1%Q else 0%Q.

Definition update_Noise (hw : Board) (w : World) : World :=
  if negb (noise_enable (noise w)) then w else
  let g := noise w in
  let g := set_noise_pot_value (ADC2_read hw pins_adc2_noise_pot) g in
  if noise_pot_value g <=? pot_offset then
    set_noise (set_noise_current 0%Q g) w
  else
  let g := set_noise_amp
             (inject_Z (noise_pot_value g - pot_offset) / noise_pot_scaling g)%Q g in
  let g := set_noise_newSigma ((1#2) * noise_amp g)%Q g in
  let g :=
    if Qltb (1#1000)
         (Qabs (float_of_bool
                  (negb (Qeq_bool (noise_newSigma g) (noise_sigma g))))) then
      let g := set_noise_sigma (noise_newSigma g) g in
      let g := set_noise_var (noise_sigma g * noise_sigma g)%Q g in
      let g := set_noise_dist_variance (noise_var g) g in
      set_noise_dist_mean (noise_mean g) g
    else g in
  let g := set_noise_current
             (Gaussian_random hw (noise_dist_mean g) (noise_dist_variance g)) g in
  set_noise g w.

(** [update_Photodiode], block by block.  An array access outside [values]
    is undefined in C++; here a read gives 0 and a write is dropped. *)

(** Lines 63-73: the new sample enters the ring buffer and the average is
    taken.  [PD.sum / PD.avgWindow] divides two [int]s. *)
Definition PD_store_sample (hw : Board) (p : Photodiode) : Photodiode :=
  let p := set_PD_value (ADC1_read hw pins_adc1_pd) p in
  let i := Z.to_nat (PD_counter p) in
  let p := set_PD_sum (PD_sum p - nth i (PD_values p) 0) p in
  let p := set_PD_values (<[i := PD_value p]> (PD_values p)) p in
  let p := set_PD_sum (PD_sum p + PD_value p) p in
  let p := set_PD_counter (PD_counter p + 1) p in
  let p := if PD_avgWindow p <=? PD_counter p then set_PD_counter 0 p else p in
  set_PD_average (inject_Z (PD_sum p ÷ PD_avgWindow p)) p.

(** Lines 76-88: the gain follows the potentiometer when [gain_enable]. *)
Definition PD_read_gain (hw : Board) (p : Photodiode) : Photodiode :=
  if PD_gain_enable p then
    let p := set_PD_pot_value (ADC1_read hw pins_adc1_pd_pot - bits12 ÷ 2) p in
    if pot_offset <=? PD_pot_value p then
      set_PD_gain (inject_Z (PD_pot_value p - pot_offset) / PD_pot_scaling p)%Q p
    else if PD_pot_value p <=? - pot_offset then
      set_PD_gain (inject_Z (PD_pot_value p + pot_offset) / PD_pot_scaling p)%Q p
    else set_PD_gain 0%Q p
  else p.

(** Lines 90-92: polarity and current. *)
Definition PD_compute_current (p : Photodiode) : Photodiode :=
  let p := set_PD_polarity (if Qle_bool 0 (PD_gain p) then 1 else -1) p in
  set_PD_current
    ((PD_average p * PD_gain p * PD_inv_scaling p) * PD_amp p)%Q p.

(** Lines 94-103: the amplitude adapts to the current, not below [ampMin]. *)
Definition PD_adapt_decay (p : Photodiode) : Photodiode :=
  let p := if PD_decay_enable p then set_PD_decay (1#1000)%Q p else p in
  if Qltb (PD_ampMin p) (PD_amp p) then
    let p := set_PD_amp
               (PD_amp p - inject_Z (PD_polarity p) * PD_decay p * PD_current p)%Q p in
    if Qltb (PD_amp p) (PD_ampMin p) then set_PD_amp (PD_ampMin p) p else p
  else p.

(** Lines 105-111: the amplitude recovers while it is below 1. *)
Definition PD_adapt_recovery (p : Photodiode) : Photodiode :=
  let p := if PD_recovery_enable p then set_PD_recovery (25#1000)%Q p else p in
  if Qltb (PD_amp p) 1 then set_PD_amp (PD_amp p + PD_recovery p)%Q p else p.

Definition update_Photodiode_PD (hw : Board) (p : Photodiode) : Photodiode :=
  let p := PD_store_sample hw p in
  let p := PD_read_gain hw p in
  let p := PD_compute_current p in
  let p := PD_adapt_decay p in
  PD_adapt_recovery p.

Definition update_Photodiode (hw : Board) (w : World) : World :=
  set_PD (update_Photodiode_PD hw (PD w)) w.

Definition mapfloat (x in_min in_max out_min out_max : float) : float :=
  ((x - in_min) * (out_max - out_min) / (in_max - in_min) + out_min)%Q.

(** [update_Synapse(Synapse &syn, float defaultDecay)], block by block. *)

(** Lines 122-136: the digital input is read, and the gain follows the
    potentiometer when [gain_enable]. *)
Definition syn_read_inputs (hw : Board) (s : Synapse) : Synapse :=
  let s := set_syn_spikeState (digitalRead hw (syn_pin_digital s)) s in
  if syn_gain_enable s then
    let s := set_syn_pot_value (ADC1_read hw (syn_pot_pin s) - bits12 ÷ 2) s in
    if pot_offset <=? syn_pot_value s then
      set_syn_gain (inject_Z (syn_pot_value s - pot_offset) / syn_pot_scaling s)%Q s
    else if syn_pot_value s <=? - pot_offset then
      set_syn_gain (inject_Z (syn_pot_value s + pot_offset) / syn_pot_scaling s)%Q s
    else set_syn_gain 0%Q s
  else s.

(** Lines 138-146: the impulse on a high input, then the decay. *)
Definition syn_integrate (defaultDecay : float) (s : Synapse) : Synapse :=
  let s := if syn_spikeState s =? HIGH
           then set_syn_current (syn_current s + syn_gain s)%Q s else s in
  let s := if syn_decay_enable s then set_syn_decay defaultDecay s else s in
  set_syn_current (syn_current s * syn_decay s)%Q s.

(** Lines 148-153: the analog input, mapped to the display range of the
    global [neuron]. *)
Definition syn_read_Vm (hw : Board) (nrn : NeuronModel) (s : Synapse) : Synapse :=
  let s := set_syn_Vm_input (inject_Z (ADC1_read hw (syn_pin_analog s))) s in
  set_syn_Vm
    (mapfloat (syn_Vm_input s) (syn_analogOffsetLow s)
       (inject_Z bits12 - syn_analogOffsetHigh s)
       (neuron_Vm_min nrn) (neuron_Vm_max nrn) + axon_offset)%Q s.

Definition update_Synapse (hw : Board) (nrn : NeuronModel)
    (defaultDecay : float) (s : Synapse) : Synapse :=
  let s := syn_read_inputs hw s in
  let s := syn_integrate defaultDecay s in
  syn_read_Vm hw nrn s.

(** The two calls of the main loop, [update_Synapse(syn1, d)] and
    [update_Synapse(syn2, d)]. *)
Definition update_Synapse1 (hw : Board) (defaultDecay : float) (w : World) : World :=
  set_syn1 (update_Synapse hw (neuron w) defaultDecay (syn1 w)) w.
Definition update_Synapse2 (hw : Board) (defaultDecay : float) (w : World) : World :=
  set_syn2 (update_Synapse hw (neuron w) defaultDecay (syn2 w)) w.

(** [update_StimulusOutput], block by block, on the [stim] structure. *)

(** Lines 179-188: strength and frequency follow their potentiometers when
    their flags and [custom_enable] are set.  In the source the statement that
    sets [str_digital] has an unbalanced parenthesis; it is read as the
    conversion of the mapped value, like the two statements after it. *)
Definition stim_read_strength (hw : Board) (s : Stimulus) : Stimulus :=
  if stim_strength_enable s && stim_custom_enable s then
    let s := set_stim_strPot (ADC2_read hw pins_adc2_stim_str_pot) s in
    let s := set_stim_str_digital
               (float_to_int16
                  (inject_Z (stim_strPot s - bits12 ÷ 2) * stim_str_digitalMap s)) s in
    set_stim_str_analog
      (float_to_int16 (inject_Z (stim_strPot s) * stim_str_analogMap s - 100)) s
  else s.

Definition stim_read_frequency (hw : Board) (s : Stimulus) : Stimulus :=
  if stim_frequency_enable s && stim_custom_enable s then
    let s := set_stim_freqPot (ADC2_read hw pins_adc2_stim_freq_pot) s in
    set_stim_freq
      (float_to_int16 (100 - inject_Z (stim_freqPot s) * stim_freq_map s)) s
  else s.

(** Lines 193-200: the output values of the automatic mode. *)
Definition stim_auto_values (s : Stimulus) : Stimulus :=
  let s :=
    if 0 <=? stim_str_digital s then
      set_stim_value_digital
        (float_to_int (inject_Z (stim_str_digital s) * stim_light_scaling s)) s
    else set_stim_value_digital 0 s in
  set_stim_value_analog
    (float_to_int
       (inject_Z (Z.abs (stim_str_analog s)) * stim_current_scaling s)) s.

(** Lines 202-211: the on and the off phase of the duty cycle. *)
Definition stim_auto_phase (s : Stimulus) : Stimulus :=
  if stim_counter s <? stim_steps s ÷ 2 then
    let s := set_stim_pwm (constrain (stim_value_digital s) 0 ledc_Max) s in
    let s := set_stim_dac (stim_value_analog s) s in
    set_stim_state (stim_str_analog s) s
  else
    set_stim_state 0 (set_stim_dac 0 (set_stim_pwm 0 s)).

(** Lines 217-233: the counter, the trigger and the end of the cycle. *)
Definition stim_auto_count (s : Stimulus) : Stimulus :=
  let s := set_stim_counter (stim_counter s + 1) s in
  let s := if negb (stim_trigger_enable s) then set_stim_trigger 0 s else s in
  let s := if stim_trigger_enable s
           then set_stim_trigger_enable false (set_stim_trigger 1 s) else s in
  if stim_steps s <=? stim_counter s then
    let s := set_stim_counter 0 s in
    let s := set_stim_trigger_enable true s in
    let s_ := (inject_Z (stim_dutyCycle s)
               + inject_Z (stim_freq s * stim_dutyCycle s) / 100
               + inject_Z (stim_dutyCycle_Min s))%Q in
    set_stim_steps (float_to_int (s_ + (1#2))) s
  else s.

(** Lines 239-256: the custom mode. *)
Definition stim_custom (s : Stimulus) : Stimulus :=
  let s := set_stim_trigger 0 s in
  let s := if stim_serialTrigger_enable s
           then set_stim_serialTrigger_enable false (set_stim_trigger 1 s) else s in
  let s :=
    if 0 <? stim_value_custom s then
      set_stim_value_digital
        (float_to_int (inject_Z (stim_value_custom s) * stim_light_scaling s)) s
    else set_stim_value_digital 0 s in
  let s := set_stim_value_analog
             (float_to_int
                (inject_Z (Z.abs (stim_value_custom s)) * stim_current_scaling s)) s in
  set_stim_state (stim_value_custom s) s.

(** The function, with the hardware writes it issues. *)
Definition update_StimulusOutput_stim (hw : Board) (s : Stimulus)
    : Stimulus * list Effect :=
  let s := stim_read_strength hw s in
  let s := stim_read_frequency hw s in
  if stim_custom_enable s then
    let s := stim_auto_values s in
    let s := stim_auto_phase s in
    let out := [ LedcWrite pins_gpio_stim_d (stim_pwm s);
                 DacWrite (stim_dac s) pins_dac_stim_a ] in
    (stim_auto_count s, out)
  else
    let s := stim_custom s in
    let out := [ LedcWrite pins_gpio_stim_d (constrain (stim_value_digital s) 0 ledc_Max);
                 DacWrite (stim_value_analog s) pins_dac_stim_a ] in
    (s, out).

Definition update_StimulusOutput (hw : Board) (w : World) : World :=
  let '(s, out) := update_StimulusOutput_stim hw (stim w) in
  set_effects (effects w ++ out) (set_stim s w).

(** [q_round]: [x + 0.5f] and [x - 0.5f] are sums of floats, and the cast to
    [int16_t] discards the fraction. *)
Definition q_round (x : float) : Z :=
  if Qle_bool 0 x then float_to_int16 (fadd x (1#2))
  else float_to_int16 (fsub x (1#2)).

(** The two bytes of an [int16_t] in memory (two's complement, low byte
    first on the ESP32-S3). *)
Definition int16_bytes (z : Z) : list Z := [z mod 256; (z / 256) mod 256].

(** [reinterpret_cast<uint8_t*>(&pkt)]: the fields in declaration order. *)
Definition SamplePacket_bytes (p : SamplePacket) : list Z :=
  concat (map int16_bytes
    [pkt_v_q p; pkt_stim_state p; pkt_Itot_q p; pkt_syn1_vm_q p;
     pkt_Isyn1_q p; pkt_syn2_vm_q p; pkt_Isyn2_q p; pkt_trigger_q p]).

Definition send_SamplePacket (w : World) : World :=
  let p := mkSamplePacket
             (q_round (fmul (neuron_v_out (neuron w)) V_SCALE))
             (to_int16 (stim_state (stim w)))
             (q_round (fmul (neuron_total_current (neuron w)) I_SCALE))
             (q_round (fmul (syn_Vm (syn1 w)) SYN_V_SCALE))
             (q_round (fmul (syn_current (syn1 w)) I_SCALE))
             (q_round (fmul (syn_Vm (syn2 w)) SYN_V_SCALE))
             (q_round (fmul (syn_current (syn2 w)) I_SCALE))
             (to_int16 (stim_trigger (stim w))) in
  let w := set_pkt p w in
  let header := [170; 85] in
  let w := log (SerialWrite header) w in
  log (SerialWrite (SamplePacket_bytes (pkt w))) w.

(** ** Runs of the firmware *)

(** The per-tick functions of Core_functions.h that are embedded above.  The
    two synapse calls carry the default decay that the caller passes. *)
Inductive UpdateFn : Type :=
  | U_InputCurrent
  | U_Noise
  | U_Photodiode
  | U_Synapse1 (defaultDecay : float)
  | U_Synapse2 (defaultDecay : float)
  | U_StimulusOutput
  | U_SamplePacket.

Definition run_update (u : UpdateFn) (hw : Board) (w : World) : World :=
  match u with
  | U_InputCurrent => update_InputCurrent hw w
  | U_Noise => update_Noise hw w
  | U_Photodiode => update_Photodiode hw w
  | U_Synapse1 d => update_Synapse1 hw d w
  | U_Synapse2 d => update_Synapse2 hw d w
  | U_StimulusOutput => update_StimulusOutput hw w
  | U_SamplePacket => send_SamplePacket w
  end.

(** One thing that happens to the globals: a call of a per-tick function
    with what the hardware returns during it, a line on the serial channel,
    or a token on the network channel. *)
Inductive Event : Type :=
  | Tick (u : UpdateFn) (hw : Board)
  | SerialLine (cmd : string) (arg : option Token)
  | WifiToken (cmd : string) (hasVal : bool) (v : float).

Definition step (w : World) (e : Event) : World :=
  match e with
  | Tick u hw => run_update u hw w
  | SerialLine cmd arg => SCmd_readSerial cmd arg w
  | WifiToken cmd hasVal v => dispatchToken cmd hasVal v w
  end.

Definition run (es : list Event) (w : World) : World := fold_left step es w.

Definition run_ticks (ts : list (UpdateFn * Board)) (w : World) : World :=
  run (map (fun t => Tick (fst t) (snd t)) ts) w.

(** The states that the firmware can be in: those that a sequence of events
    reaches from the initial values of the globals. *)
Definition Reachable (w : World) : Prop := exists es, w = run es World0.

(** ** Conditioning channels *)

(** The parameters that a set command fixes and a clear command releases,
    one per autonomy flag of the conditioning structures. *)
Inductive Channel : Type :=
  | Ch_IC | Ch_Noise | Ch_PDGain | Ch_PDDecay | Ch_PDRecovery
  | Ch_Syn1Gain | Ch_Syn1Decay | Ch_Syn2Gain | Ch_Syn2Decay.

Definition set_command (ch : Channel) : string :=
  match ch with
  | Ch_IC => "IC1" | Ch_Noise => "NO1"
  | Ch_PDGain => "PG1" | Ch_PDDecay => "PD1" | Ch_PDRecovery => "PR1"
  | Ch_Syn1Gain => "SG11" | Ch_Syn1Decay => "SD11"
  | Ch_Syn2Gain => "SG21" | Ch_Syn2Decay => "SD21"
  end.

Definition clear_command (ch : Channel) : string :=
  match ch with
  | Ch_IC => "IC0" | Ch_Noise => "NO0"
  | Ch_PDGain => "PG0" | Ch_PDDecay => "PD0" | Ch_PDRecovery => "PR0"
  | Ch_Syn1Gain => "SG10" | Ch_Syn1Decay => "SD10"
  | Ch_Syn2Gain => "SG20" | Ch_Syn2Decay => "SD20"
  end.

(** The factor that the set command applies to its argument. *)
Definition channel_scale (ch : Channel) : float :=
  match ch with
  | Ch_PDGain => 1#10
  | Ch_Syn1Gain | Ch_Syn2Gain => 25#100
  | Ch_Syn1Decay | Ch_Syn2Decay => 1 / 1000
  | Ch_IC | Ch_Noise | Ch_PDDecay | Ch_PDRecovery => 1
  end.

Definition channel_enable (ch : Channel) (w : World) : bool :=
  match ch with
  | Ch_IC => IC_enable (IC w)
  | Ch_Noise => noise_enable (noise w)
  | Ch_PDGain => PD_gain_enable (PD w)
  | Ch_PDDecay => PD_decay_enable (PD w)
  | Ch_PDRecovery => PD_recovery_enable (PD w)
  | Ch_Syn1Gain => syn_gain_enable (syn1 w)
  | Ch_Syn1Decay => syn_decay_enable (syn1 w)
  | Ch_Syn2Gain => syn_gain_enable (syn2 w)
  | Ch_Syn2Decay => syn_decay_enable (syn2 w)
  end.

Definition channel_value (ch : Channel) (w : World) : float :=
  match ch with
  | Ch_IC => IC_current_clamp (IC w)
  | Ch_Noise => noise_current (noise w)
  | Ch_PDGain => PD_gain (PD w)
  | Ch_PDDecay => PD_decay (PD w)
  | Ch_PDRecovery => PD_recovery (PD w)
  | Ch_Syn1Gain => syn_gain (syn1 w)
  | Ch_Syn1Decay => syn_decay (syn1 w)
  | Ch_Syn2Gain => syn_gain (syn2 w)
  | Ch_Syn2Decay => syn_decay (syn2 w)
  end.

(** ** Telemetry: the reading of the frame *)

(** Rounding to the nearest integer with ties away from zero, as the
    specification words it: the sign of [x] times the floor of [|x| + 1/2]. *)
Definition round_half_away (x : Q) : Z :=
  Z.sgn (Qnum x) * Qfloor (Qabs x + (1#2)).

Definition in_int16 (x : Q) : Prop := (-32768 <= x)%Q /\ (x <= 32767)%Q.

(** The tolerance of the encoder at a scaled value [x]: what the two
    single-precision roundings, of the product and of the sum with 0.5, can
    move (a bound, not the exact amount). *)
Definition q_tol (x : Q) : Q := ((Qabs x + 1) * (1 # 4194304))%Q.

(** [x] is clear of the ties: its magnitude is not within [q_tol x] of a
    half-integer k + 1/2. *)
Definition clear_of_ties (x : Q) : Prop :=
  let a := Qabs x in
  let N := Qfloor (a + (1#2)) in
  (inject_Z N - (1#2) + q_tol x <= a)%Q
  /\ (a + q_tol x <= inject_Z N + (1#2))%Q.

(** The signed 16-bit value that two bytes hold, low byte first. *)
Definition int16_of_bytes (lo hi : Z) : Z := to_int16 (lo + 256 * hi).

Fixpoint decode_int16s (bytes : list Z) : list Z :=
  match bytes with
  | lo :: hi :: rest => int16_of_bytes lo hi :: decode_int16s rest
  | _ => []
  end.

(** What [send_SamplePacket] wrote to the serial port, call by call. *)
Definition serial_writes (w : World) : list (list Z) :=
  omap (fun e => match e with SerialWrite b => Some b | _ => None end)
       (effects w).

(** ** Stimulus generator: the states after each call *)

Fixpoint StimulusOutput_trace (hws : list Board) (w : World) : list World :=
  match hws with
  | [] => []
  | hw :: rest =>
      let w' := update_StimulusOutput hw w in
      w' :: StimulusOutput_trace rest w'
  end.

(** ** Synapse and photodiode: repeated calls *)

Definition update_Synapse_run (hws : list Board) (nrn : NeuronModel)
    (defaultDecay : float) (s : Synapse) : Synapse :=
  fold_left (fun s hw => update_Synapse hw nrn defaultDecay s) hws s.

Fixpoint update_Photodiode_run (p : Photodiode) (hws : list Board)
    : Photodiode :=
  match hws with
  | [] => p
  | hw :: rest => update_Photodiode_run (update_Photodiode_PD hw p) rest
  end.

Definition Zsum (l : list Z) : Z := fold_right Z.add 0 l.

(** The invariant of the photodiode ring buffer. *)
Definition PD_ring_invariant (p : Photodiode) : Prop :=
  0 <= PD_counter p < PD_avgWindow p
  /\ Z.of_nat (length (PD_values p)) = PD_avgWindow p
  /\ PD_sum p = Zsum (PD_values p).

(** The raw photodiode samples that a sequence of calls reads. *)
Definition PD_samples (hws : list Board) : list Z :=
  map (fun hw => ADC1_read hw pins_adc1_pd) hws.

(** ** Noise generator: the test that the comment of the source describes *)

(** "Update Gaussian parameters if sigma has changed significantly": the
    distance between the new and the stored standard deviation exceeds
    1e-3. *)
Definition sigma_changed_significantly (newSigma sigma : float) : bool :=
  Qltb (1#1000) (Qabs (newSigma - sigma)).

(** A board that returns the same value on every channel and pin. *)
Definition constant_board (adc1 adc2 digital : Z) : Board :=
  mkBoard (fun _ => adc1) (fun _ => adc2) (fun _ => digital) (fun _ _ => 0%Q).

(** ** Sample states *)

(** A state with values in every telemetry field; each float is a
    single-precision number. *)
Definition World_sample : World :=
  let n := neuron World0 in
  let n := mkNeuronModel (neuron_v n) (neuron_u n) (neuron_dt_ms n)
             (neuron_a n) (neuron_b n) (neuron_c n) (neuron_d n)
             (neuron_v_rest n) (neuron_Vm_min n) (neuron_Vm_max n)
             (neuron_Vm_spike n) (neuron_Vm_peak n)
             (-70125#1000) (12375#1000) (neuron_spike n) in
  let s1 := set_syn_Vm (-655#10) (set_syn_current (25#10) (syn1 World0)) in
  let s2 := set_syn_Vm (205#10) (set_syn_current (-1#128) (syn2 World0)) in
  let st := set_stim_state (-40) (set_stim_trigger 1 (stim World0)) in
  set_stim st (set_syn2 s2 (set_syn1 s1 (set_neuron n World0))).

(** The single-precision number nearest to -0.005. *)
Definition float_minus_0_005 : float := -5368709 # 1073741824.

(** The initial state with a current of -0.005f in synapse 2. *)
Definition World_tie : World :=
  set_syn2 (set_syn_current float_minus_0_005 (syn2 World0)) World0.

(** The noise generator with a stored standard deviation of 0.5 (variance
    0.25), still autonomous. *)
Definition World_sigma_half : World :=
  let g := noise World0 in
  let g := set_noise_sigma (1#2) g in
  let g := set_noise_var (1#4) g in
  let g := set_noise_dist_variance (1#4) g in
  set_noise g World0.

(** Synapse 1 with gain and decay set by hand ([gain_enable] and
    [decay_enable] cleared) and no current. *)
Definition syn_manual (g d : float) : Synapse :=
  set_syn_decay d
    (set_syn_gain g
       (set_syn_decay_enable false (set_syn_gain_enable false syn1_0))).

(** The ring buffer read from its oldest entry: the entries from [counter]
    to the end, then those before [counter]. *)
Definition ring_view (values : list Z) (counter : nat) : list Z :=
  drop counter values ++ take counter values.

(** A board whose photodiode channel reads [pd] and whose other channels and
    pins read [other]. *)
Definition PD_board (pd other : Z) : Board :=
  mkBoard (fun ch => if ch =? pins_adc1_pd then pd else other)
          (fun _ => other) (fun _ => other) (fun _ _ => 0%Q).

(** What a cycle of the stimulus generator starts from: the counter is not
    negative, and when it is 0 with [steps] at least 1 (a cycle is about to
    start) the trigger flag is set. *)
Definition stim_armed (s : Stimulus) : Prop :=
  0 <= stim_counter s
  /\ (stim_counter s = 0 -> 1 <= stim_steps s -> stim_trigger_enable s = true).

(** The state after the first call of [update_StimulusOutput] from the
    initial state, with the frequency potentiometer at full scale: the
    counter has wrapped and [steps] is 10. *)
Definition World_cycle_start : World :=
  run [Tick U_StimulusOutput (constant_board 0 4095 0)] World0.

(** The standard deviation that [update_Noise] derives from a potentiometer
    reading above the offset, with the scaling of [noise0]. *)
Definition noise_sigma_of_pot (p : Z) : float :=
  ((1#2) * (inject_Z (p - pot_offset) / (inject_Z bits12 / 25)))%Q.

(** ** Further functions of Core_functions.h *)

Definition set_IC_value_currentIn (x : float) (c : VoltageClamp) : VoltageClamp :=
  mkVoltageClamp x (IC_currentIn_scaling c) (IC_current c) (IC_pot_value c)
    (IC_pot_scaling c) (IC_current_clamp c) (IC_enable c).
Definition set_IC_current (x : float) (c : VoltageClamp) : VoltageClamp :=
  mkVoltageClamp (IC_value_currentIn c) (IC_currentIn_scaling c) x
    (IC_pot_value c) (IC_pot_scaling c) (IC_current_clamp c) (IC_enable c).

Definition set_neuron_total_current (x : float) (n : NeuronModel) : NeuronModel :=
  mkNeuronModel (neuron_v n) (neuron_u n) (neuron_dt_ms n) (neuron_a n)
    (neuron_b n) (neuron_c n) (neuron_d n) (neuron_v_rest n) (neuron_Vm_min n)
    (neuron_Vm_max n) (neuron_Vm_spike n) (neuron_Vm_peak n) (neuron_v_out n)
    x (neuron_spike n).

Definition pins_adc1_current_in : Z := 4.

(** [compute_AllCurrent]: the six currents, added from left to right. *)
Definition compute_AllCurrent (w : World) : World :=
  set_neuron
    (set_neuron_total_current
       (IC_current_clamp (IC w) + IC_current (IC w) + PD_current (PD w)
        + syn_current (syn1 w) + syn_current (syn2 w)
        + noise_current (noise w))%Q
       (neuron w)) w.

(** [update_StimulusCurrentIn] on the [IC] structure; it reads [stim]. *)

(** Lines 271-287: the automatic mode. *)
Definition IC_currentIn_auto (hw : Board) (st : Stimulus) (c : VoltageClamp)
    : VoltageClamp :=
  let c := set_IC_value_currentIn
             (inject_Z (ADC1_read hw pins_adc1_current_in)) c in
  let c :=
    if stim_str_analog_min st <? stim_str_analog st then
      set_IC_current (IC_value_currentIn c * IC_currentIn_scaling c)%Q c
    else if stim_str_analog st <? - stim_str_analog_min st then
      set_IC_current (- IC_value_currentIn c * IC_currentIn_scaling c)%Q c
    else set_IC_current 0%Q c in
  if stim_state st =? 0 then set_IC_current 0%Q c else c.

(** Lines 291-304: the custom mode. *)
Definition IC_currentIn_custom (hw : Board) (st : Stimulus) (c : VoltageClamp)
    : VoltageClamp :=
  let c := set_IC_value_currentIn
             (inject_Z (ADC1_read hw pins_adc1_current_in)) c in
  let c :=
    if 0 <=? stim_value_custom st then
      set_IC_current (IC_value_currentIn c * IC_currentIn_scaling c)%Q c
    else if stim_value_custom st <? 0 then
      set_IC_current (- IC_value_currentIn c * IC_currentIn_scaling c)%Q c
    else c in
  if stim_value_custom st =? 0 then set_IC_current 0%Q c else c.

Definition update_StimulusCurrentIn (hw : Board) (w : World) : World :=
  if stim_custom_enable (stim w)
  then set_IC (IC_currentIn_auto hw (stim w) (IC w)) w
  else set_IC (IC_currentIn_custom hw (stim w) (IC w)) w.

(** ** Further functions of WiFi_functions.h *)

Definition WS_PORT : Z := 81.
Definition WIFI_SEND_SERIAL_HEADER : bool := false.

(** [struct WifiStreamCtrl]; [decim] and [cnt] are [uint16_t]. *)
Record WifiStreamCtrl : Type := mkWifiStreamCtrl {
  wifi_enabled : bool;
  wifi_decim : Z;
  wifi_cnt : Z
}.

Definition wifiStream0 : WifiStreamCtrl := mkWifiStreamCtrl false 5 0.

Definition to_uint16 (z : Z) : Z := z mod 2 ^ 16.

(** [wifiSendSamplePacket]: the control block after the call, and the binary
    frame that is broadcast, if any. *)
Definition wifiSendSamplePacket (p : SamplePacket) (c : WifiStreamCtrl)
    : WifiStreamCtrl * option (list Z) :=
  if negb (wifi_enabled c) then (c, None) else
  let c := mkWifiStreamCtrl (wifi_enabled c) (wifi_decim c)
             (to_uint16 (wifi_cnt c + 1)) in
  if wifi_cnt c <? wifi_decim c then (c, None) else
  let c := mkWifiStreamCtrl (wifi_enabled c) (wifi_decim c) 0 in
  if negb WIFI_SEND_SERIAL_HEADER
  then (c, Some (SamplePacket_bytes p))
  else (c, Some ([170; 85] ++ SamplePacket_bytes p)%list).

(** What [handleCommandJson] asks of the parsed document.  The JSON parser is
    outside the firmware: a document is given by the answers to the queries
    that the function makes, [doc["type"] | ""], [containsKey] with the
    converted value for "enable", "decim" and "v", and the string under
    "cmd" (absent when the key is missing). *)
Record JsonDoc : Type := mkJsonDoc {
  doc_type : string;
  doc_enable : option bool;
  doc_decim : option Z;
  doc_cmd : option string;
  doc_v : option float
}.

(** What the function sends back on the socket. *)
Inductive WsOut : Type :=
  | BroadcastPong (ws : Z).

(** [handleCommandJson]; the argument is [None] when [deserializeJson]
    reports an error. *)
Definition handleCommandJson (parsed : option JsonDoc)
    (st : WifiStreamCtrl * World) : WifiStreamCtrl * World * list WsOut :=
  let '(c, w) := st in
  match parsed with
  | None => (c, w, [])
  | Some doc =>
      if String.eqb (doc_type doc) "stream" then
        let c := match doc_enable doc with
                 | Some b => mkWifiStreamCtrl b (wifi_decim c) (wifi_cnt c)
                 | None => c
                 end in
        let c := match doc_decim doc with
                 | Some d =>
                     let d := if d <? 1 then 1 else d in
                     let d := if 500 <? d then 500 else d in
                     mkWifiStreamCtrl (wifi_enabled c) (to_uint16 d) (wifi_cnt c)
                 | None => c
                 end in
        (c, w, [])
      else if String.eqb (doc_type doc) "scmd" then
        match doc_cmd doc with
        | None => (c, w, [])
        | Some cmd =>
            let hasVal := match doc_v doc with Some _ => true | None => false end in
            let v := match doc_v doc with Some v => v | None => 0%Q end in
            (c, dispatchToken cmd hasVal v w, [])
        end
      else if String.eqb (doc_type doc) "ping" then
        (c, w, [BroadcastPong WS_PORT])
      else (c, w, [])
  end.

(** Repeated calls of [wifiSendSamplePacket] with the packets of successive
    ticks: the control block at the end and what each call broadcast. *)
Fixpoint wifiSend_run (c : WifiStreamCtrl) (ps : list SamplePacket)
    : WifiStreamCtrl * list (option (list Z)) :=
  match ps with
  | [] => (c, [])
  | p :: rest =>
      let '(c1, out) := wifiSendSamplePacket p c in
      let '(c2, outs) := wifiSend_run c1 rest in
      (c2, out :: outs)
  end.

(** Successive envelopes handled from a state. *)
Fixpoint handleCommandJson_run (st : WifiStreamCtrl * World)
    (docs : list (option JsonDoc)) : WifiStreamCtrl * World :=
  match docs with
  | [] => st
  | d :: rest => handleCommandJson_run (fst (handleCommandJson d st)) rest
  end.

(** ** Notions used by the further properties *)

(** The stimulus parameters that a set command fixes. *)
Inductive StimChannel : Type := Ch_StimFre | Ch_StimStr | Ch_StimCus.

Definition stim_set_command (ch : StimChannel) : string :=
  match ch with
  | Ch_StimFre => "FR1" | Ch_StimStr => "ST1" | Ch_StimCus => "SC1"
  end.

Definition stim_channel_enable (ch : StimChannel) (s : Stimulus) : bool :=
  match ch with
  | Ch_StimFre => stim_frequency_enable s
  | Ch_StimStr => stim_strength_enable s
  | Ch_StimCus => stim_custom_enable s
  end.

(** The values that the command stores: [ST1] stores its argument twice. *)
Definition stim_channel_values (ch : StimChannel) (s : Stimulus) : Z * Z :=
  match ch with
  | Ch_StimFre => (stim_freq s, stim_freq s)
  | Ch_StimStr => (stim_str_digital s, stim_str_analog s)
  | Ch_StimCus => (stim_value_custom s, stim_value_custom s)
  end.

(** The states after each of a sequence of events. *)
Fixpoint run_trace (w : World) (es : list Event) : list World :=
  match es with
  | [] => []
  | e :: rest => step w e :: run_trace (step w e) rest
  end.

(** What holds between the fields of the noise generator. *)
Definition noise_consistent (g : NoiseGenerator) : Prop :=
  noise_var g = (noise_sigma g * noise_sigma g)%Q
  /\ noise_dist_variance g = noise_var g
  /\ noise_dist_mean g = noise_mean g.

(** The counter of the stimulus generator is inside the cycle. *)
Definition stim_counter_in_cycle (s : Stimulus) : Prop :=
  0 <= stim_counter s
  /\ (stim_counter s = 0 \/ stim_counter s < stim_steps s).

(** The sum g*d + g*d^2 + ... + g*d^n, by the recurrence of the synapse. *)
Fixpoint syn_train (g d : Q) (n : nat) : Q :=
  match n with
  | O => 0%Q
  | S n => ((syn_train g d n + g) * d)%Q
  end.

(** The per-tick function that derives the parameter of a channel when it is
    autonomous; [d] is the default decay passed to the synapse calls. *)
Definition channel_update (ch : Channel) (d : float) : UpdateFn :=
  match ch with
  | Ch_IC => U_InputCurrent
  | Ch_Noise => U_Noise
  | Ch_PDGain | Ch_PDDecay | Ch_PDRecovery => U_Photodiode
  | Ch_Syn1Gain | Ch_Syn1Decay => U_Synapse1 d
  | Ch_Syn2Gain | Ch_Syn2Decay => U_Synapse2 d
  end.

(** * Properties *)

(** ** Preset selection *)

Lemma index_of_model_range (m : IzhikevichModel) :
  0 <= index_of_model m < IzhikevichModelCount.
Proof. unfold IzhikevichModelCount. destruct m; cbn; lia. Qed.

Lemma clampToModel_ge (i : Z) :
  IzhikevichModelCount <= i -> clampToModel i = TonicSpiking.
Proof.
  intros Hi. unfold clampToModel.
  destruct (Z.leb_spec IzhikevichModelCount i); [reflexivity | lia].
Qed.

(** The table has one entry per enumerator (the [static_assert] of the
    source). *)
Lemma izhikevich_length :
  Z.of_nat (length izhikevich) = IzhikevichModelCount.
Proof. reflexivity. Qed.

Lemma getIzhikevichParams_lookup (m : IzhikevichModel) :
  nth_error izhikevich (Z.to_nat (index_of_model m))
  = Some (getIzhikevichParams m).
Proof. destruct m; reflexivity. Qed.

(** What [SetNeuronModel] leaves in the neuron, for any model. *)
Lemma SetNeuronModel_neuron (m : IzhikevichModel) (w : World) :
  let p := getIzhikevichParams m in
  let n := neuron (SetNeuronModel m w) in
  currentModel (SetNeuronModel m w) = m
  /\ neuron_a n = izh_a p /\ neuron_b n = izh_b p /\ neuron_c n = izh_c p
  /\ neuron_d n = izh_d p /\ neuron_v_rest n = izh_v_rest p
  /\ neuron_v n = izh_v_rest p
  /\ neuron_u n = (izh_b p * izh_v_rest p)%Q.
Proof. cbn. repeat split. Qed.

(** C7. Selecting a preset with an index at or above the table size does what
    selecting preset 0 does: [clampToModel] brings the index into
    [0, IzhikevichModelCount), [SetNeuronModel] copies the a, b, c, d and
    v_rest of that table entry into the neuron, sets v to v_rest and u to
    b * v_rest. *)
Theorem select_preset_out_of_range (i : Z) (w : World) :
  IzhikevichModelCount <= i ->
  let m := clampToModel i in
  let n := neuron (SetNeuronModel m w) in
  SetNeuronModel m w = SetNeuronModel (clampToModel 0) w
  /\ 0 <= index_of_model m < IzhikevichModelCount
  /\ exists p,
       nth_error izhikevich (Z.to_nat (index_of_model m)) = Some p
       /\ nth_error izhikevich 0%nat = Some p
       /\ neuron_a n = izh_a p /\ neuron_b n = izh_b p
       /\ neuron_c n = izh_c p /\ neuron_d n = izh_d p
       /\ neuron_v_rest n = izh_v_rest p
       /\ neuron_v n = izh_v_rest p
       /\ neuron_u n = (izh_b p * izh_v_rest p)%Q.
Proof.
  intros Hi m n. subst m n. rewrite (clampToModel_ge i Hi).
  split; [reflexivity |]. split; [apply index_of_model_range |].
  exists (getIzhikevichParams TonicSpiking). repeat split.
Qed.

Lemma select_preset_out_of_range_witness :
  IzhikevichModelCount <= 250
  /\ SetNeuronModel (clampToModel 250) World0
     = SetNeuronModel (clampToModel 0) World0.
Proof.
  split; [unfold IzhikevichModelCount; lia |].
  apply (select_preset_out_of_range 250 World0).
  unfold IzhikevichModelCount; lia.
Defined.

(** ** Frame properties of the per-tick functions *)

Ltac split_ifs :=
  repeat (match goal with
          | |- context [if ?b then _ else _] => destruct b eqn:?
          end; cbn in *).

(** Each per-tick function writes one structure (and the effects log). *)
Lemma update_InputCurrent_frame (hw : Board) (w : World) :
  let w' := update_InputCurrent hw w in
  noise w' = noise w /\ PD w' = PD w /\ syn1 w' = syn1 w /\ syn2 w' = syn2 w
  /\ stim w' = stim w.
Proof. unfold update_InputCurrent. cbv zeta. split_ifs; repeat split. Qed.

Lemma update_Noise_frame (hw : Board) (w : World) :
  let w' := update_Noise hw w in
  IC w' = IC w /\ PD w' = PD w /\ syn1 w' = syn1 w /\ syn2 w' = syn2 w
  /\ stim w' = stim w.
Proof.
  unfold update_Noise. cbv zeta.
  destruct (negb (noise_enable (noise w))); [repeat split |].
  match goal with |- context [if ?b then _ else _] => destruct b end;
    repeat split.
Qed.

Lemma update_StimulusOutput_frame (hw : Board) (w : World) :
  let w' := update_StimulusOutput hw w in
  IC w' = IC w /\ noise w' = noise w /\ PD w' = PD w /\ syn1 w' = syn1 w
  /\ syn2 w' = syn2 w
  /\ stim w' = fst (update_StimulusOutput_stim hw (stim w)).
Proof.
  unfold update_StimulusOutput.
  destruct (update_StimulusOutput_stim hw (stim w)) as [s out].
  repeat split.
Qed.

Lemma send_SamplePacket_frame (w : World) :
  let w' := send_SamplePacket w in
  IC w' = IC w /\ noise w' = noise w /\ PD w' = PD w /\ syn1 w' = syn1 w
  /\ syn2 w' = syn2 w /\ stim w' = stim w.
Proof. repeat split. Qed.

(** *** Manual parameters survive the per-tick functions *)

Lemma update_InputCurrent_manual (hw : Board) (w : World) :
  IC_enable (IC w) = false -> update_InputCurrent hw w = w.
Proof. intros H. unfold update_InputCurrent. rewrite H. reflexivity. Qed.

Lemma update_Noise_manual (hw : Board) (w : World) :
  noise_enable (noise w) = false -> update_Noise hw w = w.
Proof. intros H. unfold update_Noise. rewrite H. reflexivity. Qed.

Lemma PD_store_sample_frame (hw : Board) (p : Photodiode) :
  let p' := PD_store_sample hw p in
  PD_gain_enable p' = PD_gain_enable p
  /\ PD_decay_enable p' = PD_decay_enable p
  /\ PD_recovery_enable p' = PD_recovery_enable p
  /\ PD_gain p' = PD_gain p /\ PD_decay p' = PD_decay p
  /\ PD_recovery p' = PD_recovery p
  /\ PD_amp p' = PD_amp p /\ PD_ampMin p' = PD_ampMin p.
Proof. unfold PD_store_sample. destruct p. cbn. split_ifs; repeat split. Qed.

Lemma PD_read_gain_frame (hw : Board) (p : Photodiode) :
  let p' := PD_read_gain hw p in
  PD_gain_enable p' = PD_gain_enable p
  /\ PD_decay_enable p' = PD_decay_enable p
  /\ PD_recovery_enable p' = PD_recovery_enable p
  /\ (PD_gain_enable p = false -> PD_gain p' = PD_gain p)
  /\ PD_decay p' = PD_decay p /\ PD_recovery p' = PD_recovery p
  /\ PD_amp p' = PD_amp p /\ PD_ampMin p' = PD_ampMin p
  /\ PD_values p' = PD_values p /\ PD_counter p' = PD_counter p
  /\ PD_sum p' = PD_sum p /\ PD_avgWindow p' = PD_avgWindow p
  /\ PD_average p' = PD_average p.
Proof.
  unfold PD_read_gain. destruct p. cbn.
  split_ifs; repeat split; congruence.
Qed.

Lemma PD_compute_current_frame (p : Photodiode) :
  let p' := PD_compute_current p in
  PD_gain_enable p' = PD_gain_enable p
  /\ PD_decay_enable p' = PD_decay_enable p
  /\ PD_recovery_enable p' = PD_recovery_enable p
  /\ PD_gain p' = PD_gain p /\ PD_decay p' = PD_decay p
  /\ PD_recovery p' = PD_recovery p
  /\ PD_amp p' = PD_amp p /\ PD_ampMin p' = PD_ampMin p
  /\ PD_values p' = PD_values p /\ PD_counter p' = PD_counter p
  /\ PD_sum p' = PD_sum p /\ PD_avgWindow p' = PD_avgWindow p
  /\ PD_average p' = PD_average p.
Proof. unfold PD_compute_current. destruct p. cbn. repeat split. Qed.

Lemma PD_adapt_decay_frame (p : Photodiode) :
  let p' := PD_adapt_decay p in
  PD_gain_enable p' = PD_gain_enable p
  /\ PD_decay_enable p' = PD_decay_enable p
  /\ PD_recovery_enable p' = PD_recovery_enable p
  /\ PD_gain p' = PD_gain p
  /\ (PD_decay_enable p = false -> PD_decay p' = PD_decay p)
  /\ PD_recovery p' = PD_recovery p /\ PD_ampMin p' = PD_ampMin p
  /\ PD_values p' = PD_values p /\ PD_counter p' = PD_counter p
  /\ PD_sum p' = PD_sum p /\ PD_avgWindow p' = PD_avgWindow p
  /\ PD_average p' = PD_average p.
Proof.
  unfold PD_adapt_decay. destruct p. cbn.
  split_ifs; repeat split; congruence.
Qed.

Lemma PD_adapt_recovery_frame (p : Photodiode) :
  let p' := PD_adapt_recovery p in
  PD_gain_enable p' = PD_gain_enable p
  /\ PD_decay_enable p' = PD_decay_enable p
  /\ PD_recovery_enable p' = PD_recovery_enable p
  /\ PD_gain p' = PD_gain p /\ PD_decay p' = PD_decay p
  /\ (PD_recovery_enable p = false -> PD_recovery p' = PD_recovery p)
  /\ PD_ampMin p' = PD_ampMin p
  /\ PD_values p' = PD_values p /\ PD_counter p' = PD_counter p
  /\ PD_sum p' = PD_sum p /\ PD_avgWindow p' = PD_avgWindow p
  /\ PD_average p' = PD_average p.
Proof.
  unfold PD_adapt_recovery. destruct p. cbn.
  split_ifs; repeat split; congruence.
Qed.

(** The three flags of the photodiode are not written by its update, and a
    parameter whose flag is cleared is not written either. *)
Lemma update_Photodiode_PD_manual (hw : Board) (p : Photodiode) :
  let p' := update_Photodiode_PD hw p in
  PD_gain_enable p' = PD_gain_enable p
  /\ PD_decay_enable p' = PD_decay_enable p
  /\ PD_recovery_enable p' = PD_recovery_enable p
  /\ (PD_gain_enable p = false -> PD_gain p' = PD_gain p)
  /\ (PD_decay_enable p = false -> PD_decay p' = PD_decay p)
  /\ (PD_recovery_enable p = false -> PD_recovery p' = PD_recovery p).
Proof.
  unfold update_Photodiode_PD. cbv zeta.
  pose proof (PD_store_sample_frame hw p) as A. cbv zeta in A.
  set (p1 := PD_store_sample hw p) in *.
  pose proof (PD_read_gain_frame hw p1) as B. cbv zeta in B.
  set (p2 := PD_read_gain hw p1) in *.
  pose proof (PD_compute_current_frame p2) as C. cbv zeta in C.
  set (p3 := PD_compute_current p2) in *.
  pose proof (PD_adapt_decay_frame p3) as D. cbv zeta in D.
  set (p4 := PD_adapt_decay p3) in *.
  pose proof (PD_adapt_recovery_frame p4) as E. cbv zeta in E.
  set (p5 := PD_adapt_recovery p4) in *.
  destruct A as (A1 & A2 & A3 & A4 & A5 & A6 & _).
  destruct B as (B1 & B2 & B3 & B4 & B5 & B6 & _).
  destruct C as (C1 & C2 & C3 & C4 & C5 & C6 & _).
  destruct D as (D1 & D2 & D3 & D4 & D5 & D6 & _).
  destruct E as (E1 & E2 & E3 & E4 & E5 & E6 & _).
  repeat split; intros; try congruence.
  - rewrite E4, D4, C4, B4, A4; congruence.
  - rewrite E5, D5, C5, B5, A5; congruence.
  - rewrite E6, D6, C6, B6, A6; congruence.
Qed.

Lemma syn_read_inputs_frame (hw : Board) (s : Synapse) :
  let s' := syn_read_inputs hw s in
  syn_gain_enable s' = syn_gain_enable s
  /\ syn_decay_enable s' = syn_decay_enable s
  /\ (syn_gain_enable s = false -> syn_gain s' = syn_gain s)
  /\ syn_decay s' = syn_decay s
  /\ syn_current s' = syn_current s
  /\ syn_spikeState s' = digitalRead hw (syn_pin_digital s)
  /\ syn_pin_digital s' = syn_pin_digital s.
Proof.
  unfold syn_read_inputs. destruct s. cbn.
  split_ifs; repeat split; congruence.
Qed.

Lemma syn_integrate_frame (defaultDecay : float) (s : Synapse) :
  let s' := syn_integrate defaultDecay s in
  syn_gain_enable s' = syn_gain_enable s
  /\ syn_decay_enable s' = syn_decay_enable s
  /\ syn_gain s' = syn_gain s
  /\ (syn_decay_enable s = false -> syn_decay s' = syn_decay s)
  /\ syn_pin_digital s' = syn_pin_digital s.
Proof.
  unfold syn_integrate. destruct s. cbn.
  split_ifs; repeat split; congruence.
Qed.

Lemma syn_read_Vm_frame (hw : Board) (nrn : NeuronModel) (s : Synapse) :
  let s' := syn_read_Vm hw nrn s in
  syn_gain_enable s' = syn_gain_enable s
  /\ syn_decay_enable s' = syn_decay_enable s
  /\ syn_gain s' = syn_gain s /\ syn_decay s' = syn_decay s
  /\ syn_current s' = syn_current s
  /\ syn_pin_digital s' = syn_pin_digital s.
Proof. unfold syn_read_Vm. destruct s. cbn. repeat split. Qed.

Lemma update_Synapse_manual (hw : Board) (nrn : NeuronModel)
    (defaultDecay : float) (s : Synapse) :
  let s' := update_Synapse hw nrn defaultDecay s in
  syn_gain_enable s' = syn_gain_enable s
  /\ syn_decay_enable s' = syn_decay_enable s
  /\ (syn_gain_enable s = false -> syn_gain s' = syn_gain s)
  /\ (syn_decay_enable s = false -> syn_decay s' = syn_decay s)
  /\ syn_pin_digital s' = syn_pin_digital s.
Proof.
  unfold update_Synapse. cbv zeta.
  pose proof (syn_read_inputs_frame hw s) as A. cbv zeta in A.
  set (s1 := syn_read_inputs hw s) in *.
  pose proof (syn_integrate_frame defaultDecay s1) as B. cbv zeta in B.
  set (s2 := syn_integrate defaultDecay s1) in *.
  pose proof (syn_read_Vm_frame hw nrn s2) as C. cbv zeta in C.
  set (s3 := syn_read_Vm hw nrn s2) in *.
  destruct A as (A1 & A2 & A3 & A4 & _ & _ & A5).
  destruct B as (B1 & B2 & B3 & B4 & B5).
  destruct C as (C1 & C2 & C3 & C4 & _ & C5).
  repeat split; intros; try congruence.
  - rewrite C3, B3, A3; congruence.
  - rewrite C4, B4, A4; congruence.
Qed.

(** One call of any per-tick function leaves a channel in manual mode, with
    its parameter as it was. *)
Lemma run_update_manual (ch : Channel) (u : UpdateFn) (hw : Board) (w : World) :
  channel_enable ch w = false ->
  channel_enable ch (run_update u hw w) = false
  /\ channel_value ch (run_update u hw w) = channel_value ch w.
Proof.
  intros H.
  destruct (update_InputCurrent_frame hw w) as (I1 & I2 & I3 & I4 & I5).
  destruct (update_Noise_frame hw w) as (N1 & N2 & N3 & N4 & N5).
  destruct (update_StimulusOutput_frame hw w) as (S1 & S2 & S3 & S4 & S5 & _).
  destruct (update_Photodiode_PD_manual hw (PD w)) as (P1 & P2 & P3 & P4 & P5 & P6).
  destruct u as [ | | | d | d | | ]; cbn [run_update].
  - destruct ch; cbn [channel_enable channel_value] in *;
      rewrite ?(update_InputCurrent_manual hw w H), ?I1, ?I2, ?I3, ?I4; auto.
  - destruct ch; cbn [channel_enable channel_value] in *;
      rewrite ?(update_Noise_manual hw w H), ?N1, ?N2, ?N3, ?N4; auto.
  - destruct ch; cbn in *; auto; split; congruence || auto.
  - destruct (update_Synapse_manual hw (neuron w) d (syn1 w)) as (Y1 & Y2 & Y3 & Y4 & _).
    destruct ch; cbn in *; auto; split; congruence || auto.
  - destruct (update_Synapse_manual hw (neuron w) d (syn2 w)) as (Y1 & Y2 & Y3 & Y4 & _).
    destruct ch; cbn in *; auto; split; congruence || auto.
  - destruct ch; cbn [channel_enable channel_value] in *;
      rewrite ?S1, ?S2, ?S3, ?S4, ?S5; auto.
  - destruct ch; cbn in *; auto.
Qed.

Lemma run_ticks_manual (ch : Channel) (ts : list (UpdateFn * Board)) (w : World) :
  channel_enable ch w = false ->
  channel_enable ch (run_ticks ts w) = false
  /\ channel_value ch (run_ticks ts w) = channel_value ch w.
Proof.
  revert w. induction ts as [| [u hw] ts IH]; intros w H; [auto |].
  unfold run_ticks, run in *. cbn [map fold_left step fst snd].
  destruct (run_update_manual ch u hw w H) as [H1 H2].
  destruct (IH _ H1) as [H3 H4]. split; congruence.
Qed.

(** The set command of a channel, on either transport, clears the flag and
    stores the scaled argument; the clear command sets the flag. *)
Lemma set_command_serial (ch : Channel) (v : float) (n : Z) (w : World) :
  let w' := SCmd_readSerial (set_command ch) (Some (mkToken v n)) w in
  channel_enable ch w' = false
  /\ channel_value ch w' = (v * channel_scale ch)%Q.
Proof. destruct ch; split; reflexivity. Qed.

Lemma set_command_wifi (ch : Channel) (v : float) (w : World) :
  let w' := dispatchToken (set_command ch) true v w in
  channel_enable ch w' = false
  /\ channel_value ch w' = (v * channel_scale ch)%Q.
Proof. destruct ch; split; reflexivity. Qed.

Lemma clear_command_serial (ch : Channel) (arg : option Token) (w : World) :
  channel_enable ch (SCmd_readSerial (clear_command ch) arg w) = true.
Proof. destruct ch; reflexivity. Qed.

Lemma clear_command_wifi (ch : Channel) (hasVal : bool) (v : float) (w : World) :
  channel_enable ch (dispatchToken (clear_command ch) hasVal v w) = true.
Proof. destruct ch; destruct hasVal; reflexivity. Qed.

(** C1. After the set command of a conditioning channel (on the serial or on
    the network transport) the autonomy flag is cleared and the parameter
    holds the scaled argument; whatever per-tick functions then run, and
    whatever the hardware returns to them, the flag stays cleared and the
    parameter keeps that value; the paired clear command sets the flag
    again.  On the serial transport the argument is any token that [atof]
    reads as [v], whatever [atoi] makes of it. *)
Theorem manual_value_survives_ticks (ch : Channel) (v : float) (n : Z)
    (w : World) (ts : list (UpdateFn * Board)) :
  let holds (w1 : World) :=
    channel_enable ch w1 = false
    /\ channel_value ch w1 = (v * channel_scale ch)%Q
    /\ channel_enable ch (run_ticks ts w1) = false
    /\ channel_value ch (run_ticks ts w1) = (v * channel_scale ch)%Q
    /\ channel_enable ch
         (SCmd_readSerial (clear_command ch) None (run_ticks ts w1)) = true
    /\ channel_enable ch
         (dispatchToken (clear_command ch) false 0 (run_ticks ts w1)) = true in
  holds (SCmd_readSerial (set_command ch) (Some (mkToken v n)) w)
  /\ holds (dispatchToken (set_command ch) true v w).
Proof.
  cbv zeta. split.
  - destruct (set_command_serial ch v n w) as [E V].
    destruct (run_ticks_manual ch ts _ E) as [E' V'].
    repeat split; auto; try congruence.
    + apply clear_command_serial.
    + apply clear_command_wifi.
  - destruct (set_command_wifi ch v w) as [E V].
    destruct (run_ticks_manual ch ts _ E) as [E' V'].
    repeat split; auto; try congruence.
    + apply clear_command_serial.
    + apply clear_command_wifi.
Qed.

(** The instance of the specification: [IC1 120.0], then a call of
    [update_InputCurrent] with any hardware reading. *)
Example IC1_120_then_tick (hw : Board) :
  let w := update_InputCurrent hw
             (SCmd_readSerial "IC1" (Some (decimal_token 120)) World0) in
  IC_current_clamp (IC w) = 120%Q /\ IC_enable (IC w) = false.
Proof. split; reflexivity. Qed.

(** ** Set commands without an argument *)

(** On the serial transport [setFloatParam] clears the flag before it looks
    for the argument: without an argument the flag is cleared and the
    parameter is left as it was. *)
Lemma set_command_serial_no_argument (ch : Channel) (w : World) :
  let w' := SCmd_readSerial (set_command ch) None w in
  channel_enable ch w' = false /\ channel_value ch w' = channel_value ch w.
Proof. destruct ch; split; reflexivity. Qed.

(** On the network transport every set command is guarded by [hasVal]:
    without a value nothing is written. *)
Lemma set_command_wifi_no_argument (ch : Channel) (v : float) (w : World) :
  dispatchToken (set_command ch) false v w = w.
Proof. destruct ch; reflexivity. Qed.

(** C2 (the code on the failing input). The line [IC1] without an argument,
    received on the serial transport in the initial state: the clamp was
    autonomous, the value is left as it was, and the autonomy flag is cleared
    all the same.  The same token on the network transport changes nothing.
    [ST1], whose handler is written out in the source, does the same to
    [strength_enable]. *)
Theorem serial_set_without_argument_clears_flag :
  IC_enable (IC World0) = true
  /\ IC_enable (IC (SCmd_readSerial "IC1" None World0)) = false
  /\ IC_current_clamp (IC (SCmd_readSerial "IC1" None World0))
     = IC_current_clamp (IC World0)
  /\ SCmd_readSerial "IC1" None World0 <> World0
  /\ dispatchToken "IC1" false 0 World0 = World0
  /\ stim_strength_enable (stim World0) = true
  /\ stim_strength_enable (stim (SCmd_readSerial "ST1" None World0)) = false
  /\ dispatchToken "ST1" false 0 World0 = World0.
Proof.
  repeat split; try reflexivity.
  intros H. apply (f_equal (fun w => IC_enable (IC w))) in H.
  cbn in H. discriminate.
Qed.

(** ** The two transports *)

Lemma float_to_int_defined (v : float) :
  int_defined v -> float_to_int v = Qtrunc v.
Proof.
  unfold int_defined, float_to_int, to_int, wrap_signed. intros H.
  change (32 - 1) with 31. rewrite Z.mod_small; lia.
Qed.

(** C4 (counterexample). [DT 500]: the serial handler stores 500, the network
    dispatcher raises the period to its floor of 1000 microseconds. *)
Lemma DT_500_serial_and_network_differ :
  step_us (timing (SCmd_readSerial "DT" (Some (decimal_token 500)) World0))
  = 500
  /\ step_us (timing (dispatchToken "DT" true 500%Q World0)) = 1000
  /\ dispatchToken "DT" true 500%Q World0
     <> SCmd_readSerial "DT" (Some (decimal_token 500)) World0.
Proof.
  split; [reflexivity |]. split; [reflexivity |].
  intros H. apply (f_equal (fun w => step_us (timing w))) in H.
  vm_compute in H. discriminate.
Qed.

(** Every command but [DT] does the same on the two transports, when the
    integer that the serial handler reads is the one that the network
    dispatcher converts. *)
Lemma network_matches_serial_but_DT (cmd : string) (v : float) (w : World) :
  In cmd vocabulary -> cmd <> "DT" ->
  dispatchToken cmd true v w
  = SCmd_readSerial cmd (Some (mkToken v (float_to_int v))) w.
Proof.
  intros Hin Hne. cbn in Hin.
  destruct Hin as [<- | Hin]; [congruence |].
  repeat (destruct Hin as [<- | Hin]; [reflexivity |]).
  destruct Hin.
Qed.

(** The period that [DT] leaves on each transport. *)
Lemma DT_on_both_transports (v : float) (n : Z) (w : World) :
  step_us (timing (SCmd_readSerial "DT" (Some (mkToken v n)) w)) = to_uint32 n
  /\ step_us (timing (dispatchToken "DT" true v w))
     = to_uint32 (let val_us := float_to_int v in
                  let val_us := if val_us <? 1000 then 1000 else val_us in
                  if 1000000 <? val_us then 1000000 else val_us)
  /\ (1000 <= n <= 1000000 -> float_to_int v = n ->
      dispatchToken "DT" true v w = SCmd_readSerial "DT" (Some (mkToken v n)) w).
Proof.
  split; [reflexivity |]. split; [reflexivity |].
  intros Hr E. unfold dispatchToken, SCmd_readSerial. cbn. rewrite E.
  destruct (Z.ltb_spec n 1000); [lia |].
  destruct (Z.ltb_spec 1000000 n); [lia |].
  reflexivity.
Qed.

(** C4 (amended). The same argument reaches the two transports when the
    float that the network token carries is the one that [atof] reads from
    the serial token, its integer part is an [int], and [atoi] reads that
    integer part from the serial token (a plain decimal text).  Then, for
    every command of the vocabulary, the network dispatcher and the serial
    handler leave the same state, except that for [DT] the network
    dispatcher first brings the period into 1000..1000000: the two agree on
    [DT] exactly when the integer part of the argument is in that range. *)
Theorem network_matches_serial (cmd : string) (t : Token) (v : float)
    (w : World) :
  In cmd vocabulary ->
  tok_atof t = v -> int_defined v -> tok_atoi t = Qtrunc v ->
  (dispatchToken cmd true v w = SCmd_readSerial cmd (Some t) w
   <-> (cmd = "DT" -> 1000 <= Qtrunc v <= 1000000)).
Proof.
  intros Hin Hf Hd Hi. destruct t as [x n]. cbn in Hf, Hi. subst x.
  pose proof (float_to_int_defined v Hd) as E.
  destruct (DT_on_both_transports v n w) as (S1 & S2 & S3).
  destruct (String.eqb_spec cmd "DT") as [-> | Hne].
  - split.
    + intros Heq _.
      apply (f_equal (fun w => step_us (timing w))) in Heq.
      rewrite S1, S2, E in Heq. cbv zeta in Heq. unfold to_uint32 in Heq.
      unfold int_defined in Hd. rewrite <- Hi in *.
      change (2 ^ 32) with 4294967296 in Heq.
      change (2 ^ 31) with 2147483648 in Hd.
      destruct (Z.ltb_spec n 1000) as [L | L].
      * change (1000000 <? 1000) with false in Heq. cbv iota in Heq.
        rewrite (Z.mod_small 1000) in Heq by lia.
        exfalso. revert Heq. Z.div_mod_to_equations. lia.
      * destruct (Z.ltb_spec 1000000 n) as [G | G]; [| lia].
        rewrite (Z.mod_small 1000000), (Z.mod_small n) in Heq by lia. lia.
    + intros Hr. apply S3; [rewrite Hi; auto | congruence].
  - split; [intros _ C; contradiction |]. intros _.
    rewrite Hi, <- E. apply network_matches_serial_but_DT; assumption.
Qed.

Lemma network_matches_serial_witness :
  dispatchToken "DT" true 5000%Q World0
  = SCmd_readSerial "DT" (Some (decimal_token 5000)) World0.
Proof.
  apply (network_matches_serial "DT" (decimal_token 5000) 5000%Q World0).
  - cbn; auto.
  - reflexivity.
  - vm_compute. split; congruence.
  - reflexivity.
  - intros _. vm_compute. split; congruence.
Defined.

(** ** Telemetry *)

Lemma to_int16_small (z : Z) : -32768 <= z <= 32767 -> to_int16 z = z.
Proof.
  intros H. unfold to_int16, wrap_signed.
  change (2 ^ (16 - 1)) with 32768. change (2 ^ 16) with 65536.
  rewrite Z.mod_small; lia.
Qed.

Lemma int16_bytes_range (z : Z) :
  Forall (fun b => 0 <= b < 256) (int16_bytes z).
Proof.
  unfold int16_bytes.
  repeat constructor; apply Z.mod_pos_bound; lia.
Qed.

Lemma int16_of_bytes_int16_bytes (z : Z) :
  -32768 <= z <= 32767 ->
  int16_of_bytes (z mod 256) ((z / 256) mod 256) = z.
Proof.
  intros H. unfold int16_of_bytes, to_int16, wrap_signed.
  change (2 ^ (16 - 1)) with 32768. change (2 ^ 16) with 65536.
  Z.div_mod_to_equations. lia.
Qed.

(** *** Single precision: the error of a rounding *)

Lemma Qround_even_error (y : Q) :
  (Qabs (inject_Z (Qround_even y) - y) <= 1#2)%Q.
Proof.
  unfold Qround_even. cbv zeta.
  pose proof (Qfloor_le y) as F1. pose proof (Qlt_floor y) as F2.
  rewrite inject_Z_plus in F2. change (inject_Z 1) with 1%Q in F2.
  apply Qabs_Qle_condition.
  destruct (Qcompare_spec (y - inject_Z (Qfloor y)) (1#2)) as [E | L | G].
  - destruct (Z.even (Qfloor y)).
    + split; lra.
    + rewrite inject_Z_plus. change (inject_Z 1) with 1%Q. split; lra.
  - split; lra.
  - rewrite inject_Z_plus. change (inject_Z 1) with 1%Q. split; lra.
Qed.

Lemma Qpower_2_pos (k : Z) : (0 < 2 ^ k)%Q.
Proof. apply Qpower_0_lt. reflexivity. Qed.

Lemma Qpower_2_nonneg_exp (a : Z) : 0 <= a -> (2 ^ a == inject_Z (2 ^ a))%Q.
Proof.
  intros H. change 2%Q with (inject_Z 2). symmetry. apply Zpower_Qpower. exact H.
Qed.

Lemma Qlog2_le (x : Q) : (0 < x)%Q -> (2 ^ Qlog2 x <= x)%Q.
Proof.
  intros Hx. unfold Qlog2. cbv zeta.
  destruct (Qle_bool _ x) eqn:E; [apply Qle_bool_iff; exact E |].
  destruct x as [n d]. cbn [Qnum Qden].
  assert (0 < n) as Hn by (unfold Qlt in Hx; cbn in Hx; lia).
  set (a := Z.log2 n). set (b := Z.log2 (Z.pos d)).
  assert (0 <= a) as Ha by apply Z.log2_nonneg.
  assert (0 <= b) as Hb by apply Z.log2_nonneg.
  pose proof (Z.log2_spec n Hn) as [Sn _]. fold a in Sn.
  pose proof (Z.log2_spec (Z.pos d) ltac:(lia)) as [_ Sd]. fold b in Sd.
  replace (a - b - 1) with (a - Z.succ b) by lia.
  rewrite Qpower_minus by discriminate.
  rewrite (Qpower_2_nonneg_exp a Ha), (Qpower_2_nonneg_exp (Z.succ b)) by lia.
  rewrite (Qmake_Qdiv n d).
  apply Qle_shift_div_l.
  - change 0%Q with (inject_Z 0). rewrite <- Zlt_Qlt. lia.
  - unfold Qdiv. rewrite <- Qmult_assoc, (Qmult_comm (/ _)), Qmult_assoc.
    apply Qle_shift_div_r.
    + change 0%Q with (inject_Z 0). rewrite <- Zlt_Qlt. lia.
    + rewrite <- !inject_Z_mult, <- Zle_Qle.
      apply Z.le_trans with (n * Z.pos d); [nia | nia].
Qed.

Lemma b32_eta_pos : (0 < b32_eta)%Q.
Proof. apply Qpower_2_pos. Qed.

Lemma b32_eta_small : (b32_eta <= 1 # 16777216000)%Q.
Proof. vm_compute. congruence. Qed.

Lemma b32_exp_bound (x : Q) :
  ~ (x == 0)%Q ->
  (2 ^ b32_exp x * (1#2) <= Qabs x * b32_eps + b32_eta)%Q.
Proof.
  intros Hx. unfold b32_exp.
  assert (0 < Qabs x)%Q as Ha.
  { destruct (Qlt_le_dec 0 (Qabs x)) as [H | H]; [exact H |].
    exfalso. apply Hx.
    destruct (Qlt_le_dec x 0) as [N | N].
    - rewrite Qabs_neg in H by lra. lra.
    - rewrite Qabs_pos in H by lra. lra. }
  pose proof (Qlog2_le (Qabs x) Ha) as L.
  pose proof b32_eta_pos as Heta.
  destruct (Z.max_spec (Qlog2 (Qabs x)) (-126)) as [[H ->] | [H ->]].
  - change (-126 - 23) with (-149).
    assert (2 ^ (-149) * (1 # 2) == b32_eta)%Q as -> by reflexivity.
    assert (0 <= Qabs x * b32_eps)%Q
      by (apply Qmult_le_0_compat; [lra | discriminate]).
    lra.
  - rewrite Qpower_minus by discriminate.
    assert (2 ^ 23 == 8388608)%Q as -> by reflexivity.
    unfold b32_eps.
    set (t := (2 ^ Qlog2 (Qabs x))%Q) in *.
    assert (t / 8388608 * (1#2) == t * (1 # 16777216))%Q as -> by field.
    lra.
Qed.

Lemma fl32_error (x : Q) :
  (Qabs (fl32 x - x) <= Qabs x * b32_eps + b32_eta)%Q.
Proof.
  unfold fl32. destruct (Qeq_bool x 0) eqn:E.
  - apply Qeq_bool_iff in E. rewrite E.
    pose proof b32_eta_pos. vm_compute. congruence.
  - assert (~ (x == 0)%Q) as Hx.
    { intros C. apply Qeq_bool_iff in C. congruence. }
    pose proof (b32_exp_bound x Hx) as B.
    set (e := b32_exp x) in *.
    pose proof (Qpower_2_pos e) as Pe.
    pose proof (Qround_even_error (x / 2 ^ e)) as R.
    set (r := inject_Z (Qround_even (x / 2 ^ e))) in *.
    assert (r * 2 ^ e - x == (r - x / 2 ^ e) * 2 ^ e)%Q as ->
      by (field; lra).
    rewrite Qabs_Qmult, (Qabs_pos (2 ^ e)) by lra.
    apply Qle_trans with ((1#2) * 2 ^ e)%Q; [| lra].
    apply Qmult_le_compat_r; lra.
Qed.

Lemma q_round_near (p : Q) :
  (-32768 - (1#4) <= p)%Q -> (p <= 32767 + (1#4))%Q ->
  let U := ((Qabs p + (1#2)) * b32_eps + b32_eta)%Q in
  -32768 <= q_round p <= 32767
  /\ (p - (1#2) - U <= inject_Z (q_round p))%Q
  /\ (inject_Z (q_round p) <= p + (1#2) + U)%Q.
Proof.
  intros Hlo Hhi. cbv zeta.
  pose proof b32_eta_pos as E0. pose proof b32_eta_small as E1.
  unfold q_round, float_to_int16, fadd, fsub, Qtrunc.
  destruct (Qle_bool 0 p) eqn:E.
  - apply Qle_bool_iff in E. rewrite (Qabs_pos p E).
    pose proof (fl32_error (p + (1#2))) as R.
    rewrite (Qabs_pos (p + (1#2))) in R by lra.
    apply Qabs_Qle_condition in R. destruct R as [R1 R2].
    unfold b32_eps in *.
    set (z := fl32 (p + (1#2))) in *.
    assert (Qle_bool 0 z = true) as -> by (apply Qle_bool_iff; lra).
    pose proof (Qfloor_le z) as F1. pose proof (Qlt_floor z) as F2.
    rewrite inject_Z_plus in F2. change (inject_Z 1) with 1%Q in F2.
    assert (-32768 <= Qfloor z <= 32767) as Hr.
    { assert (inject_Z (-1) < inject_Z (Qfloor z))%Q as G1
        by (change (inject_Z (-1)) with (-1)%Q; lra).
      assert (inject_Z (Qfloor z) < inject_Z 32768)%Q as G2
        by (change (inject_Z 32768) with 32768%Q; lra).
      rewrite <- Zlt_Qlt in G1, G2. lia. }
    rewrite (to_int16_small _ Hr). split; [exact Hr |]. split; lra.
  - assert (p < 0)%Q as N.
    { apply Qnot_le_lt. intros C. apply Qle_bool_iff in C. congruence. }
    rewrite (Qabs_neg p) by lra.
    pose proof (fl32_error (p - (1#2))) as R.
    rewrite (Qabs_neg (p - (1#2))) in R by lra.
    apply Qabs_Qle_condition in R. destruct R as [R1 R2].
    unfold b32_eps in *.
    set (z := fl32 (p - (1#2))) in *.
    assert (Qle_bool 0 z = false) as ->.
    { destruct (Qle_bool 0 z) eqn:C; [| reflexivity].
      apply Qle_bool_iff in C. lra. }
    pose proof (Qle_ceiling z) as F1. pose proof (Qceiling_lt z) as F2.
    unfold Z.sub in F2. rewrite inject_Z_plus, inject_Z_opp in F2.
    change (inject_Z 1) with 1%Q in F2.
    assert (-32768 <= Qceiling z <= 32767) as Hr.
    { assert (inject_Z (-32769) < inject_Z (Qceiling z))%Q as G1
        by (change (inject_Z (-32769)) with (-32769)%Q; lra).
      assert (inject_Z (Qceiling z) < inject_Z 1)%Q as G2
        by (change (inject_Z 1) with 1%Q; lra).
      rewrite <- Zlt_Qlt in G1, G2. lia. }
    rewrite (to_int16_small _ Hr). split; [exact Hr |]. split; lra.
Qed.

Lemma q_tol_covers (x : Q) :
  let a := Qabs x in
  let d := (a * b32_eps + b32_eta)%Q in
  (d + ((a + d) + (1#2)) * b32_eps + b32_eta < q_tol x)%Q.
Proof.
  cbv zeta. unfold q_tol, b32_eps.
  pose proof b32_eta_pos as E0. pose proof b32_eta_small as E1.
  pose proof (Qabs_nonneg x) as A. set (a := Qabs x) in *.
  lra.
Qed.

(** An integer within 1/2 + q_tol of a value that is clear of the ties is
    the nearest integer. *)
Lemma near_clear_of_ties (x : Q) (f : Z) :
  (Qabs (inject_Z f - x) < (1#2) + q_tol x)%Q ->
  clear_of_ties x -> f = round_half_away x.
Proof.
  intros Hnear [C1 C2]. cbv zeta in C1, C2.
  apply Qabs_Qlt_condition in Hnear. destruct Hnear as [N1 N2].
  unfold round_half_away.
  set (a := Qabs x) in *. set (N := Qfloor (a + (1#2))) in *.
  destruct (Qlt_le_dec x 0) as [Neg | Pos].
  - assert (a == - x)%Q as Ea by (subst a; apply Qabs_neg; lra).
    assert (Z.sgn (Qnum x) = -1) as ->.
    { apply Z.sgn_neg. destruct x as [n d]. unfold Qlt in Neg. cbn in *. lia. }
    assert (inject_Z (- N - 1) < inject_Z f)%Q as G1.
    { unfold Z.sub. rewrite !inject_Z_plus, !inject_Z_opp.
      change (inject_Z 1) with 1%Q. lra. }
    assert (inject_Z f < inject_Z (- N + 1))%Q as G2.
    { rewrite !inject_Z_plus, !inject_Z_opp.
      change (inject_Z 1) with 1%Q. lra. }
    rewrite <- Zlt_Qlt in G1, G2. lia.
  - assert (a == x)%Q as Ea by (subst a; apply Qabs_pos; lra).
    assert (inject_Z (N - 1) < inject_Z f)%Q as G1.
    { unfold Z.sub. rewrite !inject_Z_plus, !inject_Z_opp.
      change (inject_Z 1) with 1%Q. lra. }
    assert (inject_Z f < inject_Z (N + 1))%Q as G2.
    { rewrite !inject_Z_plus. change (inject_Z 1) with 1%Q. lra. }
    rewrite <- Zlt_Qlt in G1, G2.
    assert (f = N) as -> by lia.
    destruct (Z.eq_dec N 0) as [-> | NZ]; [lia |].
    assert (0 < Qnum x) as Hpos.
    { assert (0 <= Qnum x) as H0
        by (destruct x as [n d]; unfold Qle in Pos; cbn in *; lia).
      destruct (Z.eq_dec (Qnum x) 0) as [Z0 | ?]; [| lia].
      exfalso. apply NZ.
      assert (x == 0)%Q as X0
        by (destruct x as [n d]; unfold Qeq; cbn in *; lia).
      unfold N. rewrite (Qfloor_comp _ (1#2)); [reflexivity |].
      rewrite Ea, X0. reflexivity. }
    rewrite (Z.sgn_pos _ Hpos). lia.
Qed.

(** [q_round] alone, on a float in the range of an [int16_t]. *)
Lemma q_round_within_tolerance (p : Q) :
  in_int16 p ->
  -32768 <= q_round p <= 32767
  /\ (Qabs (inject_Z (q_round p) - p) < (1#2) + q_tol p)%Q.
Proof.
  intros [Hlo Hhi].
  destruct (q_round_near p) as (Hr & B1 & B2); [lra | lra |].
  split; [exact Hr |].
  pose proof b32_eta_pos as E0. pose proof b32_eta_small as E1.
  pose proof (Qabs_nonneg p) as A. unfold q_tol, b32_eps in *.
  set (a := Qabs p) in *.
  apply Qabs_Qlt_condition. split; lra.
Qed.

(** The field that the encoder computes from a value and its scale: the
    product as a float, then [q_round]. *)
Lemma quantize_near (x : Q) :
  in_int16 x ->
  let f := q_round (fl32 x) in
  -32768 <= f <= 32767
  /\ (Qabs (inject_Z f - x) < (1#2) + q_tol x)%Q
  /\ (clear_of_ties x -> f = round_half_away x).
Proof.
  intros [Hlo Hhi]. cbv zeta.
  pose proof b32_eta_pos as E0. pose proof b32_eta_small as E1.
  pose proof (fl32_error x) as Rx.
  pose proof (q_tol_covers x) as T. cbv zeta in T.
  pose proof (Qabs_nonneg x) as A.
  assert (Qabs x <= 32768)%Q as A'
    by (apply Qabs_Qle_condition; split; lra).
  set (a := Qabs x) in *.
  set (p := fl32 x) in *.
  apply Qabs_Qle_condition in Rx. destruct Rx as [Rx1 Rx2].
  assert (Qabs p <= a + (a * b32_eps + b32_eta))%Q as Ap.
  { apply Qabs_Qle_condition. subst a.
    destruct (Qlt_le_dec x 0) as [N | N].
    - rewrite (Qabs_neg x) in * by lra. unfold b32_eps in *. split; lra.
    - rewrite (Qabs_pos x) in * by lra. unfold b32_eps in *. split; lra. }
  pose proof (Qabs_nonneg p) as Ap0.
  assert (-32768 - (1#4) <= p)%Q as P1 by (unfold b32_eps in *; lra).
  assert (p <= 32767 + (1#4))%Q as P2 by (unfold b32_eps in *; lra).
  destruct (q_round_near p P1 P2) as (Hr & B1 & B2).
  set (f := q_round p) in *. set (ap := Qabs p) in *.
  assert (Qabs (inject_Z f - x) < (1#2) + q_tol x)%Q as Hnear.
  { apply Qabs_Qlt_condition. unfold b32_eps in *. split; lra. }
  split; [exact Hr |]. split; [exact Hnear |].
  apply near_clear_of_ties. exact Hnear.
Qed.

Lemma in_int16_inject_Z (z : Z) :
  in_int16 (inject_Z z) -> -32768 <= z <= 32767.
Proof.
  intros [A B]. unfold Qle in *. cbn in *. lia.
Qed.

Lemma serial_writes_log_write (b : list Z) (w : World) :
  serial_writes (log (SerialWrite b) w) = (serial_writes w ++ [b])%list.
Proof. unfold serial_writes, log. cbn. rewrite omap_app. reflexivity. Qed.

Lemma decode_int16s_fields (fs : list Z) :
  Forall (fun z => -32768 <= z <= 32767) fs ->
  decode_int16s (concat (map int16_bytes fs)) = fs.
Proof.
  induction 1 as [| z fs Hz _ IH]; [reflexivity |].
  cbn [map concat int16_bytes app decode_int16s].
  rewrite IH, int16_of_bytes_int16_bytes by assumption. reflexivity.
Qed.




(** The tie of the encoder itself: 0.5 - 2^-25 is a float below 1/2, and
    [q_round] sends it to 1, because the sum with 0.5 is rounded to 1. *)
Example q_round_below_one_half :
  let p := (16777215 # 33554432)%Q in
  (fl32 p == p)%Q /\ (p < 1#2)%Q /\ round_half_away p = 0 /\ q_round p = 1.
Proof.
  cbv zeta. split; [vm_compute; reflexivity |]. split; [reflexivity |].
  split; vm_compute; reflexivity.
Qed.

(** ** Noise generator *)

(** The test of [update_Noise] as it is written: the comparison
    [newSigma != sigma] is converted to 0 or 1 before [fabsf] and the
    threshold see it, so the test holds exactly when the two differ. *)
Lemma update_Noise_test (newSigma sigma : float) :
  Qltb (1#1000) (Qabs (float_of_bool (negb (Qeq_bool newSigma sigma))))
  = negb (Qeq_bool newSigma sigma).
Proof. destruct (Qeq_bool newSigma sigma); reflexivity. Qed.

(** The test as written and the test of the comment part on a state whose
    stored standard deviation is not one that [update_Noise] derives: with
    0.5 stored (a state that no run reaches, see below) and the
    potentiometer at 437, the new standard deviation 410/819 is within 1e-3
    of 0.5 and is stored all the same. *)
Remark update_Noise_on_hand_set_sigma :
  let hw := constant_board 0 437 0 in
  let g := noise World_sigma_half in
  let g' := noise (update_Noise hw World_sigma_half) in
  noise_sigma g = (1#2)%Q
  /\ (noise_newSigma g' == 410#819)%Q
  /\ sigma_changed_significantly (noise_newSigma g') (noise_sigma g) = false
  /\ (noise_sigma g' == 410#819)%Q.
Proof.
  cbv zeta. repeat split; try (vm_compute; congruence).
Qed.

(** What the autonomous update stores, for a reading above the offset. *)
Lemma update_Noise_sigma (hw : Board) (w : World) :
  noise_enable (noise w) = true ->
  noise_pot_scaling (noise w) = (inject_Z bits12 / 25)%Q ->
  pot_offset < ADC2_read hw pins_adc2_noise_pot ->
  let g' := noise (update_Noise hw w) in
  let newSigma := noise_sigma_of_pot (ADC2_read hw pins_adc2_noise_pot) in
  noise_newSigma g' = newSigma
  /\ noise_sigma g'
     = (if negb (Qeq_bool newSigma (noise_sigma (noise w)))
        then newSigma else noise_sigma (noise w))
  /\ noise_dist_variance g'
     = (if negb (Qeq_bool newSigma (noise_sigma (noise w)))
        then (newSigma * newSigma)%Q else noise_dist_variance (noise w)).
Proof.
  intros He Hs Hp. cbv zeta. unfold update_Noise, noise_sigma_of_pot.
  rewrite He. cbn [negb]. cbv zeta.
  destruct (noise w) as [pv ps am cu en me si ns va dm dv] eqn:Hg.
  cbn in Hs. subst ps. cbn -[Z.leb pot_offset Qltb Qabs Qeq_bool Qmult Qdiv inject_Z].
  destruct (Z.leb_spec (ADC2_read hw pins_adc2_noise_pot) pot_offset); [lia |].
  rewrite update_Noise_test.
  cbn -[pot_offset Qeq_bool Qmult Qdiv inject_Z].
  destruct (Qeq_bool _ si); cbn -[pot_offset Qmult Qdiv inject_Z];
    repeat split.
Qed.

(** With the scaling of [noise0], two different readings give standard
    deviations more than 1e-3 apart (one step of the potentiometer is
    1/327.6): between values that [update_Noise] derived itself, the test as
    written and the test of the comment agree.  They part when the stored
    value is not such a value, as above. *)
Lemma noise_sigma_of_pot_diff (p q : Z) :
  (noise_sigma_of_pot p - noise_sigma_of_pot q
   == (inject_Z p - inject_Z q) * (25 # 8190))%Q.
Proof.
  unfold noise_sigma_of_pot, pot_offset, bits12.
  change (4095 / 15) with 273. unfold Z.sub.
  rewrite !inject_Z_plus.
  change (inject_Z (- 273)) with (-273)%Q.
  change (inject_Z 4095 / 25)%Q with (4095 # 25)%Q.
  field.
Qed.

Lemma update_Noise_test_on_grid (p q : Z) :
  negb (Qeq_bool (noise_sigma_of_pot p) (noise_sigma_of_pot q))
  = sigma_changed_significantly (noise_sigma_of_pot p) (noise_sigma_of_pot q).
Proof.
  unfold sigma_changed_significantly, Qltb.
  pose proof (noise_sigma_of_pot_diff p q) as D.
  set (a := noise_sigma_of_pot p) in *. set (b := noise_sigma_of_pot q) in *.
  destruct (Z.eq_dec p q) as [-> | Hne].
  - assert (Qeq_bool a b = true) as -> by (apply Qeq_eq_bool; reflexivity).
    assert (Qle_bool (Qabs (a - b)) (1 # 1000) = true) as ->; [| reflexivity].
    apply Qle_bool_iff, Qabs_Qle_condition. rewrite D. lra.
  - assert (~ (Qabs (a - b) <= 1 # 1000)%Q) as Hfar.
    { intros C. apply Qabs_Qle_condition in C. rewrite D in C.
      destruct (Z.lt_total p q) as [L | [E | L]]; [| contradiction |].
      - assert (inject_Z p + 1 <= inject_Z q)%Q
          by (change 1%Q with (inject_Z 1); rewrite <- inject_Z_plus,
                <- Zle_Qle; lia).
        lra.
      - assert (inject_Z q + 1 <= inject_Z p)%Q
          by (change 1%Q with (inject_Z 1); rewrite <- inject_Z_plus,
                <- Zle_Qle; lia).
        lra. }
    assert (Qle_bool (Qabs (a - b)) (1 # 1000) = false) as ->.
    { destruct (Qle_bool (Qabs (a - b)) (1 # 1000)) eqn:E; [| reflexivity].
      apply Qle_bool_iff in E. contradiction. }
    assert (Qeq_bool a b = false) as ->; [| reflexivity].
    destruct (Qeq_bool a b) eqn:E; [| reflexivity].
    apply Qeq_bool_iff in E. exfalso. apply Hfar.
    apply Qabs_Qle_condition. rewrite E. lra.
Qed.

(** ** Synapse *)

(** The current after one call, when gain and decay are manual: the impulse
    is added on a high input, and the decay is applied in the same call. *)
Lemma update_Synapse_current (hw : Board) (nrn : NeuronModel)
    (defaultDecay : float) (s : Synapse) :
  syn_gain_enable s = false -> syn_decay_enable s = false ->
  syn_current (update_Synapse hw nrn defaultDecay s)
  = ((if digitalRead hw (syn_pin_digital s) =? HIGH
      then syn_current s + syn_gain s else syn_current s) * syn_decay s)%Q.
Proof.
  unfold update_Synapse, syn_read_Vm, syn_integrate, syn_read_inputs.
  destruct s. cbn. intros -> ->. cbn.
  destruct (_ =? HIGH); reflexivity.
Qed.

Lemma Qpower_S (d : Q) (n : nat) :
  (d ^ Z.of_nat (S n) == d ^ Z.of_nat n * d)%Q.
Proof.
  rewrite Nat2Z.inj_succ. unfold Z.succ.
  rewrite Qpower_plus' by lia. rewrite Qpower_1_r. reflexivity.
Qed.

(** Calls without a high input only apply the decay. *)
Lemma update_Synapse_run_decay (hws : list Board) (nrn : NeuronModel)
    (defaultDecay : float) (s : Synapse) (c : Q) :
  syn_gain_enable s = false -> syn_decay_enable s = false ->
  Forall (fun hw => digitalRead hw (syn_pin_digital s) <> HIGH) hws ->
  (syn_current s == c)%Q ->
  (syn_current (update_Synapse_run hws nrn defaultDecay s)
   == c * syn_decay s ^ Z.of_nat (length hws))%Q.
Proof.
  revert s c. induction hws as [| hw hws IH]; intros s c Hg Hd Hlow Hc.
  - unfold update_Synapse_run. cbn [fold_left length Z.of_nat].
    rewrite Hc. change (Z.of_nat 0%nat) with 0.
    change (syn_decay s ^ 0)%Q with 1%Q. ring.
  - inversion Hlow as [| ? ? Hhw Hrest]; subst.
    unfold update_Synapse_run in *. cbn [fold_left].
    destruct (update_Synapse_manual hw nrn defaultDecay s)
      as (E1 & E2 & E3 & E4 & E5).
    set (s1 := update_Synapse hw nrn defaultDecay s) in *.
    rewrite (IH s1 (c * syn_decay s)%Q).
    + rewrite E4 by assumption. cbn [length]. rewrite Qpower_S. ring.
    + congruence.
    + congruence.
    + rewrite E5. exact Hrest.
    + subst s1. rewrite update_Synapse_current by assumption.
      destruct (Z.eqb_spec (digitalRead hw (syn_pin_digital s)) HIGH);
        [contradiction |].
      rewrite Hc. reflexivity.
Qed.

(** C6 (counterexample). Gain 1, decay 1/2, no current: one call with a high
    input and two calls without leave a current of 1/8, not the 1/4 that
    g * d^2 gives. *)
Lemma synapse_decay_counterexample :
  let hi := constant_board 0 0 HIGH in
  let lo := constant_board 0 0 LOW in
  let s := update_Synapse_run [hi; lo; lo] neuron0 (995#1000)
             (syn_manual 1 (1#2)) in
  (syn_current s == 1#8)%Q
  /\ ~ (syn_current s == 1 * (1#2) ^ 2)%Q
  /\ (Qabs (syn_current s - 1 * (1#2) ^ 2) == 1#8)%Q.
Proof. cbv zeta. repeat split; vm_compute; congruence. Qed.

(** C6 (amended). With manual gain g and manual decay d, from a current of
    zero: after one call with a high input and n further calls without, the
    current is g * d^(n+1); the decay is applied in the call that adds the
    impulse too. *)
Theorem synapse_impulse_then_decay (hw_edge : Board) (hws : list Board)
    (nrn : NeuronModel) (defaultDecay : float) (s : Synapse) (g d : float) :
  syn_gain_enable s = false -> syn_decay_enable s = false ->
  syn_gain s = g -> syn_decay s = d -> (syn_current s == 0)%Q ->
  digitalRead hw_edge (syn_pin_digital s) = HIGH ->
  Forall (fun hw => digitalRead hw (syn_pin_digital s) <> HIGH) hws ->
  (syn_current (update_Synapse_run (hw_edge :: hws) nrn defaultDecay s)
   == g * d ^ Z.of_nat (S (length hws)))%Q.
Proof.
  intros Hg Hd Eg Ed Hc Hhigh Hlow.
  unfold update_Synapse_run. cbn [fold_left].
  destruct (update_Synapse_manual hw_edge nrn defaultDecay s)
    as (E1 & E2 & E3 & E4 & E5).
  pose proof (update_Synapse_current hw_edge nrn defaultDecay s Hg Hd) as Hcur.
  set (s1 := update_Synapse hw_edge nrn defaultDecay s) in *.
  rewrite Hhigh, Z.eqb_refl in Hcur.
  fold (update_Synapse_run hws nrn defaultDecay s1).
  rewrite (update_Synapse_run_decay hws nrn defaultDecay s1 (g * d)%Q).
  - rewrite E4, Ed by assumption. rewrite Qpower_S. ring.
  - congruence.
  - congruence.
  - rewrite E5. exact Hlow.
  - rewrite Hcur, Hc, Eg, Ed. ring.
Qed.

Lemma synapse_impulse_then_decay_witness :
  let hi := constant_board 0 0 HIGH in
  let lo := constant_board 0 0 LOW in
  (syn_current (update_Synapse_run [hi; lo; lo] neuron0 (995#1000)
                  (syn_manual 3 (1#2)))
   == 3 * (1#2) ^ 3)%Q.
Proof.
  cbv zeta.
  apply (synapse_impulse_then_decay (constant_board 0 0 HIGH)
           [constant_board 0 0 LOW; constant_board 0 0 LOW]
           neuron0 (995#1000) (syn_manual 3 (1#2)) 3 (1#2));
    try reflexivity.
  repeat constructor; vm_compute; discriminate.
Defined.

(** ** Photodiode: the ring buffer *)

Lemma Zsum_app (l k : list Z) : Zsum (l ++ k) = Zsum l + Zsum k.
Proof.
  unfold Zsum. induction l as [| x l IH]; cbn; [reflexivity | rewrite IH; lia].
Qed.

Lemma Zsum_insert (l : list Z) (i : nat) (x : Z) :
  (i < length l)%nat -> Zsum (<[i := x]> l) = Zsum l - nth i l 0 + x.
Proof.
  unfold Zsum. revert i.
  induction l as [| y l IH]; intros i Hi; cbn in Hi; [lia |].
  destruct i as [| i]; cbn; [lia |]. rewrite IH by lia. lia.
Qed.

Lemma Zsum_ring_view (l : list Z) (c : nat) : Zsum (ring_view l c) = Zsum l.
Proof.
  unfold ring_view. rewrite Zsum_app, Z.add_comm, <- Zsum_app.
  rewrite take_drop. reflexivity.
Qed.

(** Writing at [c] and moving to the next slot drops the oldest entry and
    appends the new one. *)
Lemma ring_view_push (l : list Z) (c : nat) (x : Z) :
  (c < length l)%nat ->
  ring_view (<[c := x]> l) (if Nat.eqb (S c) (length l) then 0 else S c)
  = (tail (ring_view l c) ++ [x])%list.
Proof.
  intros Hc. destruct (lookup_lt_is_Some_2 l c Hc) as [y Hy].
  pose proof (take_drop_middle l c y Hy) as Hl.
  assert (length (take c l) = c) as Hlen by (rewrite length_take; lia).
  set (a := take c l) in *. set (b := drop (S c) l) in *.
  assert (<[c := x]> l = a ++ x :: b)%list as ->.
  { rewrite <- Hl at 1. rewrite <- Hlen at 1.
    replace (length a) with (length a + 0)%nat by lia.
    rewrite insert_app_r. reflexivity. }
  assert (ring_view l c = y :: b ++ a)%list as ->.
  { unfold ring_view. fold a. rewrite <- Hl at 1.
    rewrite drop_app_length' by lia. reflexivity. }
  cbn [tail]. unfold ring_view.
  destruct (Nat.eqb_spec (S c) (length l)) as [E | NE].
  - assert (b = []) as ->.
    { apply length_zero_iff_nil. subst b. rewrite length_drop. lia. }
    cbn. rewrite take_0, app_nil_r. reflexivity.
  - replace (S c) with (length (a ++ [x])) by (rewrite length_app; cbn; lia).
    change (a ++ x :: b)%list with (a ++ [x] ++ b)%list.
    rewrite app_assoc, drop_app_length, take_app_length.
    rewrite app_assoc. reflexivity.
Qed.

(** A queue of fixed length that receives as many entries as it holds ends
    up holding exactly them. *)
Lemma fifo_push_all (xs q : list Z) :
  q <> [] ->
  fold_left (fun q x => tail q ++ [x])%list xs q = drop (length xs) (q ++ xs).
Proof.
  revert q. induction xs as [| x xs IH]; intros q Hq.
  - cbn. rewrite app_nil_r. reflexivity.
  - cbn [fold_left length]. rewrite IH.
    + destruct q as [| y q]; [congruence |]. cbn.
      rewrite <- app_assoc. reflexivity.
    + destruct (tail q); discriminate.
Qed.

Lemma PD_store_sample_ring (hw : Board) (p : Photodiode) :
  PD_ring_invariant p ->
  let p' := PD_store_sample hw p in
  PD_ring_invariant p'
  /\ PD_avgWindow p' = PD_avgWindow p
  /\ ring_view (PD_values p') (Z.to_nat (PD_counter p'))
     = (tail (ring_view (PD_values p) (Z.to_nat (PD_counter p)))
        ++ [ADC1_read hw pins_adc1_pd])%list
  /\ PD_average p' = inject_Z (PD_sum p' ÷ PD_avgWindow p').
Proof.
  intros (Hc & Hlen & Hsum). unfold PD_ring_invariant, PD_store_sample in *.
  destruct p. cbn in *.
  set (x := ADC1_read hw pins_adc1_pd).
  assert (Z.to_nat PD_counter0 < length PD_values0)%nat as Hi by lia.
  pose proof (ring_view_push PD_values0 (Z.to_nat PD_counter0) x Hi) as Hview.
  pose proof (Zsum_insert PD_values0 (Z.to_nat PD_counter0) x Hi) as Hins.
  pose proof (length_insert PD_values0 (Z.to_nat PD_counter0) x) as Hli.
  unfold Zsum in Hins.
  destruct (Z.leb_spec PD_avgWindow0 (PD_counter0 + 1)) as [W | W]; cbn.
  - destruct (Nat.eqb_spec (S (Z.to_nat PD_counter0)) (length PD_values0));
      [| lia].
    split; [| split; [reflexivity | split; [exact Hview | reflexivity]]].
    rewrite Hli, Hins. lia.
  - destruct (Nat.eqb_spec (S (Z.to_nat PD_counter0)) (length PD_values0));
      [lia |].
    split; [| split; [reflexivity | split; [| reflexivity]]].
    + rewrite Hli, Hins. lia.
    + replace (Z.to_nat (PD_counter0 + 1)) with (S (Z.to_nat PD_counter0))
        by lia.
      exact Hview.
Qed.

(** The blocks after [PD_store_sample] leave the buffer alone. *)
Lemma update_Photodiode_PD_buffer (hw : Board) (p : Photodiode) :
  let p1 := PD_store_sample hw p in
  let p' := update_Photodiode_PD hw p in
  PD_values p' = PD_values p1 /\ PD_counter p' = PD_counter p1
  /\ PD_sum p' = PD_sum p1 /\ PD_avgWindow p' = PD_avgWindow p1
  /\ PD_average p' = PD_average p1.
Proof.
  unfold update_Photodiode_PD. cbv zeta.
  set (p1 := PD_store_sample hw p).
  pose proof (PD_read_gain_frame hw p1) as B. cbv zeta in B.
  set (p2 := PD_read_gain hw p1) in *.
  pose proof (PD_compute_current_frame p2) as C. cbv zeta in C.
  set (p3 := PD_compute_current p2) in *.
  pose proof (PD_adapt_decay_frame p3) as D. cbv zeta in D.
  set (p4 := PD_adapt_decay p3) in *.
  pose proof (PD_adapt_recovery_frame p4) as E. cbv zeta in E.
  set (p5 := PD_adapt_recovery p4) in *.
  destruct B as (_ & _ & _ & _ & _ & _ & _ & _ & B1 & B2 & B3 & B4 & B5).
  destruct C as (_ & _ & _ & _ & _ & _ & _ & _ & C1 & C2 & C3 & C4 & C5).
  destruct D as (_ & _ & _ & _ & _ & _ & _ & D1 & D2 & D3 & D4 & D5).
  destruct E as (_ & _ & _ & _ & _ & _ & _ & E1 & E2 & E3 & E4 & E5).
  repeat split; congruence.
Qed.

Lemma update_Photodiode_PD_ring (hw : Board) (p : Photodiode) :
  PD_ring_invariant p ->
  let p' := update_Photodiode_PD hw p in
  PD_ring_invariant p'
  /\ PD_avgWindow p' = PD_avgWindow p
  /\ ring_view (PD_values p') (Z.to_nat (PD_counter p'))
     = (tail (ring_view (PD_values p) (Z.to_nat (PD_counter p)))
        ++ [ADC1_read hw pins_adc1_pd])%list
  /\ PD_average p' = inject_Z (PD_sum p' ÷ PD_avgWindow p').
Proof.
  intros Hinv. cbv zeta.
  destruct (PD_store_sample_ring hw p Hinv) as (I & W & V & A).
  destruct (update_Photodiode_PD_buffer hw p) as (E1 & E2 & E3 & E4 & E5).
  unfold PD_ring_invariant in *.
  rewrite E1, E2, E3, E4, E5. auto.
Qed.

Lemma update_Photodiode_run_cons (hw : Board) (hws : list Board)
    (p : Photodiode) :
  update_Photodiode_run p (hw :: hws)
  = update_Photodiode_run (update_Photodiode_PD hw p) hws.
Proof. reflexivity. Qed.

Lemma PD_samples_cons (hw : Board) (hws : list Board) :
  PD_samples (hw :: hws) = ADC1_read hw pins_adc1_pd :: PD_samples hws.
Proof. reflexivity. Qed.

Lemma update_Photodiode_run_ring (hws : list Board) (p : Photodiode) :
  PD_ring_invariant p ->
  PD_ring_invariant (update_Photodiode_run p hws)
  /\ PD_avgWindow (update_Photodiode_run p hws) = PD_avgWindow p
  /\ ring_view (PD_values (update_Photodiode_run p hws))
       (Z.to_nat (PD_counter (update_Photodiode_run p hws)))
     = fold_left (fun q x => tail q ++ [x])%list (PD_samples hws)
         (ring_view (PD_values p) (Z.to_nat (PD_counter p)))
  /\ (hws <> [] ->
      PD_average (update_Photodiode_run p hws)
      = inject_Z (PD_sum (update_Photodiode_run p hws)
                  ÷ PD_avgWindow (update_Photodiode_run p hws))).
Proof.
  revert p. induction hws as [| hw hws IH]; intros p Hinv.
  - split; [exact Hinv |]. split; [reflexivity |]. split; [reflexivity |].
    intros C. contradiction.
  - destruct (update_Photodiode_PD_ring hw p Hinv) as (I & W & V & A).
    destruct (IH _ I) as (I' & W' & V' & A').
    rewrite update_Photodiode_run_cons, PD_samples_cons.
    split; [exact I' |]. split; [congruence |]. split.
    + rewrite V', V. reflexivity.
    + intros _. destruct hws as [| hw' hws]; [exact A |].
      apply A'. discriminate.
Qed.

Lemma PD0_ring_invariant : PD_ring_invariant PD0.
Proof.
  split; [split; vm_compute; congruence | split; reflexivity].
Qed.

(** After as many calls as the window is long, the buffer holds the samples
    of these calls, oldest first from [counter] on. *)
Lemma update_Photodiode_run_window (hws : list Board) (p : Photodiode) :
  PD_ring_invariant p ->
  Z.of_nat (length hws) = PD_avgWindow p ->
  PD_ring_invariant (update_Photodiode_run p hws)
  /\ ring_view (PD_values (update_Photodiode_run p hws))
       (Z.to_nat (PD_counter (update_Photodiode_run p hws)))
     = PD_samples hws
  /\ PD_sum (update_Photodiode_run p hws) = Zsum (PD_samples hws)
  /\ PD_average (update_Photodiode_run p hws)
     = inject_Z (Zsum (PD_samples hws) ÷ Z.of_nat (length hws)).
Proof.
  intros Hinv Hlen.
  destruct (update_Photodiode_run_ring hws p Hinv) as (I & W & V & A).
  assert (ring_view (PD_values (update_Photodiode_run p hws))
            (Z.to_nat (PD_counter (update_Photodiode_run p hws)))
          = PD_samples hws) as Hview.
  { rewrite V, fifo_push_all.
    - apply drop_app_length'. unfold ring_view, PD_samples.
      rewrite length_map, length_app, length_take, length_drop.
      destruct Hinv as (? & ? & _). lia.
    - destruct Hinv as (Hc & Hl & _). intros C.
      apply (f_equal length) in C. unfold ring_view in C.
      rewrite length_app, length_take, length_drop in C. cbn in C. lia. }
  assert (PD_sum (update_Photodiode_run p hws) = Zsum (PD_samples hws))
    as Hsum.
  { destruct I as (_ & _ & ->). rewrite <- Hview. symmetry.
    apply Zsum_ring_view. }
  split; [exact I |]. split; [exact Hview |]. split; [exact Hsum |].
  rewrite A, Hsum, W, Hlen; [reflexivity |].
  destruct Hinv as (? & ? & _). destruct hws; cbn in *; [lia | discriminate].
Qed.

(** C10 (the code on the failing input). From the initial state the
    photodiode reads 1 five times and 2 five times.  The invariant of the
    ring buffer holds: the buffer has these ten samples and their sum is 15.
    The average that the call stores is 1, not their arithmetic mean 15/10:
    [PD.sum / PD.avgWindow] divides two integers before the result is stored
    in the [float], where the comment of the line announces the average of
    the ten latest samples. *)
Theorem PD_average_counterexample :
  let samples := [1; 1; 1; 1; 1; 2; 2; 2; 2; 2] in
  let hws := map (fun x => PD_board x 2047) samples in
  let p := update_Photodiode_run PD0 hws in
  PD_samples hws = samples
  /\ ring_view (PD_values p) (Z.to_nat (PD_counter p)) = samples
  /\ PD_sum p = 15
  /\ PD_average p = 1%Q
  /\ ~ (PD_average p == 15 # 10)%Q.
Proof.
  cbv zeta.
  set (hws := map (fun x => PD_board x 2047) [1; 1; 1; 1; 1; 2; 2; 2; 2; 2]).
  destruct (update_Photodiode_run_window hws PD0 PD0_ring_invariant eq_refl)
    as (_ & Hview & Hsum & Havg).
  assert (PD_samples hws = [1; 1; 1; 1; 1; 2; 2; 2; 2; 2]) as Hs
    by reflexivity.
  rewrite Hs in Hview, Hsum, Havg.
  split; [exact Hs |]. split; [exact Hview |]. split; [exact Hsum |].
  rewrite Havg. split; [reflexivity |]. vm_compute. congruence.
Qed.

(** The ring buffer over the calls, as the code has it: every call of
    [update_Photodiode] keeps the counter in [0, avgWindow) and the sum equal
    to the sum of the avgWindow entries of [values]; after avgWindow calls the
    buffer holds, from its oldest entry on, the raw samples of these calls.
    What the call stores as average is the quotient of the sum by avgWindow
    as integers. *)
Lemma photodiode_ring_buffer (hw : Board) (hws : list Board)
    (p : Photodiode) :
  PD_ring_invariant p ->
  (PD_ring_invariant (update_Photodiode_PD hw p)
   /\ PD_average (update_Photodiode_PD hw p)
      = inject_Z (Zsum (PD_values (update_Photodiode_PD hw p))
                  ÷ PD_avgWindow p))
  /\ (Z.of_nat (length hws) = PD_avgWindow p ->
      PD_ring_invariant (update_Photodiode_run p hws)
      /\ ring_view (PD_values (update_Photodiode_run p hws))
           (Z.to_nat (PD_counter (update_Photodiode_run p hws)))
         = PD_samples hws
      /\ PD_sum (update_Photodiode_run p hws) = Zsum (PD_samples hws)
      /\ PD_average (update_Photodiode_run p hws)
         = inject_Z (Zsum (PD_samples hws) ÷ Z.of_nat (length hws))).
Proof.
  intros Hinv. split.
  - destruct (update_Photodiode_PD_ring hw p Hinv) as (I & W & _ & A).
    split; [exact I |]. rewrite A, W.
    destruct I as (_ & _ & ->). reflexivity.
  - intros Hlen. apply update_Photodiode_run_window; assumption.
Qed.

Lemma photodiode_ring_buffer_witness :
  let hws := map (fun x => PD_board x 2047) [7; 1; 1; 1; 1; 2; 2; 2; 2; 3] in
  PD_ring_invariant PD0
  /\ Z.of_nat (length hws) = PD_avgWindow PD0
  /\ PD_sum (update_Photodiode_run PD0 hws) = 22
  /\ PD_average (update_Photodiode_run PD0 hws) = 2%Q.
Proof.
  cbv zeta.
  set (hws := map (fun x => PD_board x 2047) [7; 1; 1; 1; 1; 2; 2; 2; 2; 3]).
  pose proof (photodiode_ring_buffer (PD_board 0 2047) hws PD0
                PD0_ring_invariant) as [_ H].
  destruct (H eq_refl) as (_ & _ & Hsum & Havg).
  assert (PD_samples hws = [7; 1; 1; 1; 1; 2; 2; 2; 2; 3]) as Hs
    by reflexivity.
  rewrite Hs in Hsum, Havg.
  split; [exact PD0_ring_invariant |]. split; [reflexivity |].
  split; [exact Hsum | exact Havg].
Defined.

(** ** Photodiode: the adaptive amplitude *)

Lemma Qltb_true (x y : Q) : Qltb x y = true -> (x < y)%Q.
Proof.
  unfold Qltb. intros H. apply negb_true_iff in H.
  apply Qnot_le_lt. intros C. apply Qle_bool_iff in C. congruence.
Qed.

Lemma Qltb_false (x y : Q) : Qltb x y = false -> (y <= x)%Q.
Proof.
  unfold Qltb. intros H. apply negb_false_iff in H.
  apply Qle_bool_iff. exact H.
Qed.

(** The amplitude, the floor and the sample-independent fields before the
    two adaptation blocks are those of the start of the call. *)
Lemma PD_before_adapt (hw : Board) (p : Photodiode) :
  let p3 := PD_compute_current (PD_read_gain hw (PD_store_sample hw p)) in
  PD_amp p3 = PD_amp p /\ PD_ampMin p3 = PD_ampMin p.
Proof.
  cbv zeta.
  destruct (PD_store_sample_frame hw p) as (_ & _ & _ & _ & _ & _ & A1 & A2).
  destruct (PD_read_gain_frame hw (PD_store_sample hw p))
    as (_ & _ & _ & _ & _ & _ & B1 & B2 & _).
  destruct (PD_compute_current_frame (PD_read_gain hw (PD_store_sample hw p)))
    as (_ & _ & _ & _ & _ & _ & C1 & C2 & _).
  split; congruence.
Qed.

Lemma PD_adapt_decay_amp (p : Photodiode) :
  let p' := PD_adapt_decay p in
  let dec := (inject_Z (PD_polarity p') * PD_decay p' * PD_current p')%Q in
  PD_current p' = PD_current p /\ PD_polarity p' = PD_polarity p
  /\ PD_amp p'
     = (if Qltb (PD_ampMin p) (PD_amp p)
        then if Qltb (PD_amp p - dec) (PD_ampMin p)
             then PD_ampMin p else PD_amp p - dec
        else PD_amp p)%Q.
Proof.
  unfold PD_adapt_decay. destruct p. cbn.
  split_ifs; repeat split; congruence.
Qed.

Lemma PD_adapt_recovery_amp (p : Photodiode) :
  let p' := PD_adapt_recovery p in
  PD_current p' = PD_current p /\ PD_polarity p' = PD_polarity p
  /\ PD_amp p'
     = (if Qltb (PD_amp p) 1 then PD_amp p + PD_recovery p' else PD_amp p)%Q.
Proof.
  unfold PD_adapt_recovery. destruct p. cbn.
  split_ifs; repeat split; congruence.
Qed.

(** The amplitude after one call: the decay of lines 98-103, then the
    recovery of lines 109-111, with the current, polarity, decay and recovery
    that the call leaves in the structure. *)
Lemma update_Photodiode_PD_amp (hw : Board) (p : Photodiode) :
  let p' := update_Photodiode_PD hw p in
  let dec := (inject_Z (PD_polarity p') * PD_decay p' * PD_current p')%Q in
  let decayed :=
    (if Qltb (PD_ampMin p) (PD_amp p)
     then if Qltb (PD_amp p - dec) (PD_ampMin p)
          then PD_ampMin p else PD_amp p - dec
     else PD_amp p)%Q in
  PD_amp p' = (if Qltb decayed 1 then decayed + PD_recovery p' else decayed)%Q.
Proof.
  cbv zeta. unfold update_Photodiode_PD. cbv zeta.
  destruct (PD_before_adapt hw p) as (A1 & A2). cbv zeta in A1, A2.
  set (p3 := PD_compute_current (PD_read_gain hw (PD_store_sample hw p))) in *.
  destruct (PD_adapt_decay_amp p3) as (D1 & D2 & D3).
  destruct (PD_adapt_decay_frame p3) as (_ & _ & _ & _ & _ & _ & _ & _).
  set (p4 := PD_adapt_decay p3) in *.
  destruct (PD_adapt_recovery_amp p4) as (R1 & R2 & R3).
  destruct (PD_adapt_recovery_frame p4) as (_ & _ & _ & _ & R4 & _).
  set (p5 := PD_adapt_recovery p4) in *.
  rewrite R3, D3, R1, R2, R4, A1, A2. reflexivity.
Qed.




(** ** Stimulus generator *)

Lemma stim_read_strength_frame (hw : Board) (s : Stimulus) :
  let s' := stim_read_strength hw s in
  stim_counter s' = stim_counter s /\ stim_steps s' = stim_steps s
  /\ stim_trigger_enable s' = stim_trigger_enable s
  /\ stim_custom_enable s' = stim_custom_enable s
  /\ stim_frequency_enable s' = stim_frequency_enable s.
Proof.
  unfold stim_read_strength. destruct s. cbn. split_ifs; repeat split.
Qed.

Lemma stim_read_frequency_frame (hw : Board) (s : Stimulus) :
  let s' := stim_read_frequency hw s in
  stim_counter s' = stim_counter s /\ stim_steps s' = stim_steps s
  /\ stim_trigger_enable s' = stim_trigger_enable s
  /\ stim_custom_enable s' = stim_custom_enable s.
Proof.
  unfold stim_read_frequency. destruct s. cbn. split_ifs; repeat split.
Qed.

Lemma stim_auto_values_frame (s : Stimulus) :
  let s' := stim_auto_values s in
  stim_counter s' = stim_counter s /\ stim_steps s' = stim_steps s
  /\ stim_trigger_enable s' = stim_trigger_enable s
  /\ stim_custom_enable s' = stim_custom_enable s.
Proof.
  unfold stim_auto_values. destruct s. cbn. split_ifs; repeat split.
Qed.

Lemma stim_auto_phase_frame (s : Stimulus) :
  let s' := stim_auto_phase s in
  stim_counter s' = stim_counter s /\ stim_steps s' = stim_steps s
  /\ stim_trigger_enable s' = stim_trigger_enable s
  /\ stim_custom_enable s' = stim_custom_enable s.
Proof.
  unfold stim_auto_phase. destruct s. cbn. split_ifs; repeat split.
Qed.

(** Lines 217-233: the counter advances and wraps at [steps]; the trigger is
    the flag that the previous wrap left; the flag is set by a wrap and
    cleared otherwise. *)
Lemma stim_auto_count_spec (s : Stimulus) :
  let s' := stim_auto_count s in
  let wrap := stim_steps s <=? stim_counter s + 1 in
  stim_counter s' = (if wrap then 0 else stim_counter s + 1)
  /\ stim_trigger s' = (if stim_trigger_enable s then 1 else 0)
  /\ stim_trigger_enable s' = wrap
  /\ (wrap = false -> stim_steps s' = stim_steps s)
  /\ stim_custom_enable s' = stim_custom_enable s.
Proof.
  unfold stim_auto_count. destruct s. cbn.
  destruct stim_trigger_enable0; cbn;
    destruct (stim_steps0 <=? stim_counter0 + 1); cbn;
    repeat split; congruence.
Qed.

Lemma stim_custom_frame (s : Stimulus) :
  let s' := stim_custom s in
  stim_counter s' = stim_counter s /\ stim_steps s' = stim_steps s
  /\ stim_trigger_enable s' = stim_trigger_enable s
  /\ stim_custom_enable s' = stim_custom_enable s.
Proof.
  unfold stim_custom. destruct s. cbn. split_ifs; repeat split.
Qed.

(** One call in the automatic mode. *)
Lemma update_StimulusOutput_stim_auto (hw : Board) (s : Stimulus) :
  stim_custom_enable s = true ->
  let s' := fst (update_StimulusOutput_stim hw s) in
  let wrap := stim_steps s <=? stim_counter s + 1 in
  stim_counter s' = (if wrap then 0 else stim_counter s + 1)
  /\ stim_trigger s' = (if stim_trigger_enable s then 1 else 0)
  /\ stim_trigger_enable s' = wrap
  /\ (wrap = false -> stim_steps s' = stim_steps s)
  /\ stim_custom_enable s' = true.
Proof.
  intros Hc. cbv zeta. unfold update_StimulusOutput_stim. cbv zeta.
  destruct (stim_read_strength_frame hw s) as (A1 & A2 & A3 & A4 & _).
  set (s1 := stim_read_strength hw s) in *.
  destruct (stim_read_frequency_frame hw s1) as (B1 & B2 & B3 & B4).
  set (s2 := stim_read_frequency hw s1) in *.
  assert (stim_custom_enable s2 = true) as -> by congruence.
  destruct (stim_auto_values_frame s2) as (C1 & C2 & C3 & C4).
  set (s3 := stim_auto_values s2) in *.
  destruct (stim_auto_phase_frame s3) as (D1 & D2 & D3 & D4).
  set (s4 := stim_auto_phase s3) in *.
  destruct (stim_auto_count_spec s4) as (E1 & E2 & E3 & E4 & E5).
  cbn [fst].
  assert (stim_counter s4 = stim_counter s) as Hcnt by congruence.
  assert (stim_steps s4 = stim_steps s) as Hst by congruence.
  assert (stim_trigger_enable s4 = stim_trigger_enable s) as Hte by congruence.
  rewrite Hcnt, Hst, Hte in *.
  repeat split; try assumption. congruence.
Qed.

(** One call in either mode keeps what the cycle needs: the counter is not
    negative, and when it is 0 with [steps] at least 1, the trigger flag is
    set. *)
Lemma update_StimulusOutput_stim_armed (hw : Board) (s : Stimulus) :
  stim_armed s -> stim_armed (fst (update_StimulusOutput_stim hw s)).
Proof.
  unfold stim_armed. intros [H0 H1].
  destruct (stim_custom_enable s) eqn:Hc.
  - destruct (update_StimulusOutput_stim_auto hw s Hc) as (E1 & E2 & E3 & E4 & E5).
    rewrite E1, E3.
    destruct (stim_steps s <=? stim_counter s + 1); split; auto; lia.
  - unfold update_StimulusOutput_stim. cbv zeta.
    destruct (stim_read_strength_frame hw s) as (A1 & A2 & A3 & A4 & _).
    set (s1 := stim_read_strength hw s) in *.
    destruct (stim_read_frequency_frame hw s1) as (B1 & B2 & B3 & B4).
    set (s2 := stim_read_frequency hw s1) in *.
    assert (stim_custom_enable s2 = false) as -> by congruence.
    destruct (stim_custom_frame s2) as (C1 & C2 & C3 & C4).
    cbn [fst]. rewrite C1, C2, C3, B1, B2, B3, A1, A2, A3. auto.
Qed.

(** Commands do not write the counter, [steps] or the trigger flag. *)
Lemma dispatchToken_stim_cycle (cmd : string) (hasVal : bool) (v : float)
    (w : World) :
  let w' := dispatchToken cmd hasVal v w in
  stim_counter (stim w') = stim_counter (stim w)
  /\ stim_steps (stim w') = stim_steps (stim w)
  /\ stim_trigger_enable (stim w') = stim_trigger_enable (stim w).
Proof.
  unfold dispatchToken.
  destruct hasVal; cbv beta zeta;
    rewrite ?andb_true_r, ?andb_false_r; cbv iota;
    repeat (match goal with
            | |- context [String.eqb cmd ?n] => destruct (String.eqb cmd n)
            end; cbv iota;
            [split; [reflexivity | split; reflexivity] |]);
    (split; [reflexivity | split; reflexivity]).
Qed.

Lemma SCmd_readSerial_stim_cycle (cmd : string) (arg : option Token)
    (w : World) :
  let w' := SCmd_readSerial cmd arg w in
  stim_counter (stim w') = stim_counter (stim w)
  /\ stim_steps (stim w') = stim_steps (stim w)
  /\ stim_trigger_enable (stim w') = stim_trigger_enable (stim w).
Proof.
  unfold SCmd_readSerial, SerialFunctions. cbn [SCmd_lookup].
  destruct arg;
    repeat (match goal with
            | |- context [String.eqb cmd ?n] => destruct (String.eqb cmd n)
            end; cbv iota;
            [split; [reflexivity | split; reflexivity] |]);
    (split; [reflexivity | split; reflexivity]).
Qed.

Lemma run_update_stim (u : UpdateFn) (hw : Board) (w : World) :
  stim (run_update u hw w)
  = match u with
    | U_StimulusOutput => fst (update_StimulusOutput_stim hw (stim w))
    | _ => stim w
    end.
Proof.
  destruct (update_InputCurrent_frame hw w) as (_ & _ & _ & _ & I5).
  destruct (update_Noise_frame hw w) as (_ & _ & _ & _ & N5).
  destruct (update_StimulusOutput_frame hw w) as (_ & _ & _ & _ & _ & S6).
  destruct u; cbn [run_update]; auto.
Qed.

Lemma step_stim_armed (e : Event) (w : World) :
  stim_armed (stim w) -> stim_armed (stim (step w e)).
Proof.
  intros H. destruct e as [u hw | cmd arg | cmd hasVal v]; cbn [step].
  - rewrite run_update_stim.
    destruct u; auto using update_StimulusOutput_stim_armed.
  - destruct (SCmd_readSerial_stim_cycle cmd arg w) as (E1 & E2 & E3).
    unfold stim_armed in *. rewrite E1, E2, E3. exact H.
  - destruct (dispatchToken_stim_cycle cmd hasVal v w) as (E1 & E2 & E3).
    unfold stim_armed in *. rewrite E1, E2, E3. exact H.
Qed.

Lemma run_stim_armed (es : list Event) (w : World) :
  stim_armed (stim w) -> stim_armed (stim (run es w)).
Proof.
  revert w. induction es as [| e es IH]; intros w H; [exact H |].
  unfold run in *. cbn [fold_left]. apply IH, step_stim_armed, H.
Qed.

(** In every state that the firmware reaches, a cycle that is about to start
    has its trigger flag set. *)
Lemma Reachable_stim_armed (w : World) : Reachable w -> stim_armed (stim w).
Proof.
  intros [es ->]. apply run_stim_armed.
  split; [vm_compute; congruence | intros _ H; vm_compute in H; congruence].
Qed.

Lemma StimulusOutput_trace_cons (hw : Board) (hws : list Board) (w : World) :
  StimulusOutput_trace (hw :: hws) w
  = update_StimulusOutput hw w
    :: StimulusOutput_trace hws (update_StimulusOutput hw w).
Proof. reflexivity. Qed.

Lemma update_StimulusOutput_auto (hw : Board) (w : World) :
  stim_custom_enable (stim w) = true ->
  let s := stim w in
  let s' := stim (update_StimulusOutput hw w) in
  let wrap := stim_steps s <=? stim_counter s + 1 in
  stim_counter s' = (if wrap then 0 else stim_counter s + 1)
  /\ stim_trigger s' = (if stim_trigger_enable s then 1 else 0)
  /\ stim_trigger_enable s' = wrap
  /\ (wrap = false -> stim_steps s' = stim_steps s)
  /\ stim_custom_enable s' = true.
Proof.
  intros Hc. cbv zeta.
  destruct (update_StimulusOutput_frame hw w) as (_ & _ & _ & _ & _ & ->).
  apply (update_StimulusOutput_stim_auto hw (stim w) Hc).
Qed.

(** The part of a cycle that is left when the counter is at [c]: the trigger
    of the first call is the flag, the trigger of the others is 0, and the
    counter runs up to [steps], where it wraps. *)
Lemma StimulusOutput_trace_cycle (hws : list Board) (w : World) (c : Z)
    (b : bool) :
  stim_custom_enable (stim w) = true ->
  stim_counter (stim w) = c ->
  stim_trigger_enable (stim w) = b ->
  hws <> [] ->
  Z.of_nat (length hws) = stim_steps (stim w) - c ->
  map (fun x => stim_trigger (stim x)) (StimulusOutput_trace hws w)
  = (if b then 1 else 0) :: repeat 0 (length hws - 1)
  /\ map (fun x => stim_counter (stim x)) (StimulusOutput_trace hws w)
     = (map (fun k => c + Z.of_nat k) (seq 1 (length hws - 1)) ++ [0])%list.
Proof.
  revert w c b. induction hws as [| hw hws IH]; intros w c b Hcu Hc Hb Hne Hlen;
    [congruence |].
  rewrite StimulusOutput_trace_cons. cbn [map].
  destruct (update_StimulusOutput_auto hw w Hcu) as (E1 & E2 & E3 & E4 & E5).
  cbv zeta in E1, E2, E3, E4.
  set (w' := update_StimulusOutput hw w) in *.
  rewrite Hc, Hb in *.
  destruct hws as [| hw2 rest].
  - cbn [length] in Hlen.
    destruct (Z.leb_spec (stim_steps (stim w)) (c + 1)); [| lia].
    cbn. rewrite E1, E2. split; reflexivity.
  - cbn [length] in Hlen.
    destruct (Z.leb_spec (stim_steps (stim w)) (c + 1)); [lia |].
    specialize (E4 eq_refl).
    destruct (IH w' (c + 1) false E5 E1 E3) as [T C];
      [discriminate | cbn [length]; lia |].
    rewrite T, C, E1, E2. cbn [length Nat.sub].
    rewrite !Nat.sub_0_r. split; [reflexivity |].
    assert (map (fun k => c + Z.of_nat k) (seq 1 (S (length rest)))
            = (c + 1) :: map (fun k => c + 1 + Z.of_nat k)
                           (seq 1 (length rest))) as ->.
    { cbn [seq map]. change (c + Z.of_nat 1) with (c + 1). f_equal.
      rewrite <- (seq_shift (length rest) 1), map_map.
      apply map_ext. intros k. lia. }
    reflexivity.
Qed.

Lemma count_occ_one_then_zeros (n : nat) :
  count_occ Z.eq_dec (1 :: repeat 0 n) 1 = 1%nat.
Proof.
  cbn. f_equal. induction n as [| n IH]; [reflexivity |].
  cbn. exact IH.
Qed.

(** C8. In the automatic mode, in a state that the firmware reaches with the
    counter at 0 and [steps] at least 1, the [steps] calls of
    [update_StimulusOutput] that make the cycle give a trigger of 1 on the
    first call and of 0 on every other call: the trigger is 1 on exactly one
    tick of the cycle.  The counter goes 1, 2, ..., steps - 1 and is back at 0
    after the last call. *)
Theorem trigger_once_per_cycle (w : World) (hws : list Board) :
  Reachable w ->
  stim_custom_enable (stim w) = true ->
  stim_counter (stim w) = 0 ->
  1 <= stim_steps (stim w) ->
  Z.of_nat (length hws) = stim_steps (stim w) ->
  let triggers :=
    map (fun x => stim_trigger (stim x)) (StimulusOutput_trace hws w) in
  let counters :=
    map (fun x => stim_counter (stim x)) (StimulusOutput_trace hws w) in
  triggers = 1 :: repeat 0 (length hws - 1)
  /\ count_occ Z.eq_dec triggers 1 = 1%nat
  /\ counters = (map Z.of_nat (seq 1 (length hws - 1)) ++ [0])%list.
Proof.
  intros Hr Hcu Hc Hst Hlen. cbv zeta.
  destruct (Reachable_stim_armed w Hr) as [_ Harm].
  specialize (Harm Hc Hst).
  assert (hws <> []) as Hne
    by (destruct hws; [cbn in Hlen; lia | discriminate]).
  assert (Z.of_nat (length hws) = stim_steps (stim w) - 0) as Hlen' by lia.
  destruct (StimulusOutput_trace_cycle hws w 0 true Hcu Hc Harm Hne Hlen')
    as [T C].
  rewrite T, C. split; [reflexivity |].
  split; [apply count_occ_one_then_zeros | reflexivity].
Qed.

Lemma World_cycle_start_Reachable : Reachable World_cycle_start.
Proof. exists [Tick U_StimulusOutput (constant_board 0 4095 0)]. reflexivity. Qed.

Lemma trigger_once_per_cycle_witness :
  let hws := repeat (constant_board 0 4095 0) 10 in
  stim_steps (stim World_cycle_start) = 10
  /\ map (fun x => stim_trigger (stim x))
       (StimulusOutput_trace hws World_cycle_start)
     = [1; 0; 0; 0; 0; 0; 0; 0; 0; 0].
Proof.
  cbv zeta.
  assert (stim_steps (stim World_cycle_start) = 10) as Hs
    by (vm_compute; reflexivity).
  split; [exact Hs |].
  apply (trigger_once_per_cycle World_cycle_start
           (repeat (constant_board 0 4095 0) 10)).
  - exact World_cycle_start_Reachable.
  - vm_compute. reflexivity.
  - vm_compute. reflexivity.
  - rewrite Hs. lia.
  - rewrite Hs. reflexivity.
Defined.

(** * Further properties *)

(** Case analysis on the name of a command: [tac] closes the goal of each
    command as its branch appears, and the goal of an unknown name. *)
Ltac dispatch_cases cmd hasVal tac :=
  unfold dispatchToken;
  destruct hasVal; cbv beta zeta;
  rewrite ?andb_true_r, ?andb_false_r; cbv iota;
  repeat (match goal with
          | |- context [String.eqb cmd ?n] => destruct (String.eqb cmd n)
          end; cbv iota; [tac |]);
  tac.

Ltac serial_cases cmd arg tac :=
  unfold SCmd_readSerial, SerialFunctions; cbn [SCmd_lookup];
  destruct arg;
  repeat (match goal with
          | |- context [String.eqb cmd ?n] => destruct (String.eqb cmd n)
          end; cbv iota; [tac |]);
  tac.

(** ** Presets *)

Lemma to_int_range (z : Z) : - 2 ^ 31 <= to_int z < 2 ^ 31.
Proof.
  unfold to_int, wrap_signed. change (32 - 1) with 31.
  pose proof (Z.mod_pos_bound (z + 2 ^ 31) (2 ^ 32) ltac:(lia)). lia.
Qed.

(** X1. The clamp is the identity on the valid indices: the index of a model
    is clamped to that model, and a valid index is clamped to the model with
    that index, whose table entry [getIzhikevichParams] returns. *)
Theorem preset_index_round_trip (i : Z) (m : IzhikevichModel) :
  0 <= i < IzhikevichModelCount ->
  clampToModel (index_of_model m) = m
  /\ index_of_model (clampToModel i) = i
  /\ nth_error izhikevich (Z.to_nat i)
     = Some (getIzhikevichParams (clampToModel i)).
Proof.
  intros Hi. split; [destruct m; reflexivity |].
  unfold IzhikevichModelCount in Hi.
  assert (i = 0 \/ i = 1 \/ i = 2 \/ i = 3 \/ i = 4 \/ i = 5 \/ i = 6 \/ i = 7
          \/ i = 8 \/ i = 9 \/ i = 10 \/ i = 11 \/ i = 12 \/ i = 13 \/ i = 14
          \/ i = 15 \/ i = 16 \/ i = 17 \/ i = 18 \/ i = 19) as H by lia.
  repeat (destruct H as [-> | H]; [split; reflexivity |]).
  subst i. split; reflexivity.
Qed.

Lemma preset_index_round_trip_witness :
  0 <= 7 < IzhikevichModelCount
  /\ index_of_model (clampToModel 7) = 7
  /\ nth_error izhikevich 7%nat = Some (getIzhikevichParams Class2).
Proof.
  assert (0 <= 7 < IzhikevichModelCount) as H
    by (unfold IzhikevichModelCount; lia).
  split; [exact H |].
  destruct (preset_index_round_trip 7 Class2 H) as (_ & E1 & E2).
  split; [exact E1 | exact E2].
Defined.

(** X2. A preset command whose index is negative or at least the table size
    selects the first preset, on both transports: the conversion to
    [std::size_t] turns a negative index into a large one, which the clamp
    sends to 0.  On the serial transport the token is any text from which
    [atoi] reads that index. *)
Theorem NEU_out_of_range_selects_first (v x : float) (w : World) :
  float_to_int v < 0 \/ IzhikevichModelCount <= float_to_int v ->
  let t := mkToken x (float_to_int v) in
  NeuronMode (Some t) w = SetNeuronModel TonicSpiking w
  /\ SCmd_readSerial "NEU" (Some t) w = SetNeuronModel TonicSpiking w
  /\ dispatchToken "NEU" true v w = SetNeuronModel TonicSpiking w.
Proof.
  intros H. cbv zeta.
  assert (clampToModel (to_size_t (float_to_int v)) = TonicSpiking) as E.
  { apply clampToModel_ge. unfold to_size_t, IzhikevichModelCount in *.
    pose proof (to_int_range (Qtrunc v)) as R. fold (float_to_int v) in R.
    change (2 ^ 31) with 2147483648 in R.
    change (2 ^ 32) with 4294967296.
    Z.div_mod_to_equations. lia. }
  repeat split.
  - unfold NeuronMode, readNextInt. cbn [option_map tok_atoi].
    rewrite E. reflexivity.
  - change (SCmd_readSerial "NEU" (Some (mkToken x (float_to_int v))) w)
      with (NeuronMode (Some (mkToken x (float_to_int v))) w).
    unfold NeuronMode, readNextInt. cbn [option_map tok_atoi].
    rewrite E. reflexivity.
  - change (dispatchToken "NEU" true v w)
      with (SetNeuronModel (clampToModel (to_size_t (float_to_int v))) w).
    rewrite E. reflexivity.
Qed.

Lemma NEU_out_of_range_selects_first_witness :
  (float_to_int (-3) < 0 \/ IzhikevichModelCount <= float_to_int (-3))
  /\ neuron_c (neuron (dispatchToken "NEU" true (-3) World0)) = (-65)%Q.
Proof.
  assert (float_to_int (-3) < 0 \/ IzhikevichModelCount <= float_to_int (-3))
    as H by (left; vm_compute; reflexivity).
  split; [exact H |].
  destruct (NEU_out_of_range_selects_first (-3) (-3) World0 H) as (_ & _ & ->).
  reflexivity.
Defined.

(** X3. The last preset selected wins, whatever was selected before, and a
    selection writes the neuron and the current model only: the conditioning
    structures, the stimulus and the timing, with the values that commands
    gave them, are left as they are. *)
Theorem SetNeuronModel_last_selection_wins (m m' : IzhikevichModel) (w : World) :
  SetNeuronModel m (SetNeuronModel m' w) = SetNeuronModel m w
  /\ IC (SetNeuronModel m w) = IC w
  /\ noise (SetNeuronModel m w) = noise w
  /\ PD (SetNeuronModel m w) = PD w
  /\ syn1 (SetNeuronModel m w) = syn1 w
  /\ syn2 (SetNeuronModel m w) = syn2 w
  /\ stim (SetNeuronModel m w) = stim w
  /\ timing (SetNeuronModel m w) = timing w.
Proof. repeat split. Qed.

(** ** Commands *)

(** X4. The set and the clear command of a channel leave the flag and the
    parameter of every other channel as they are, on both transports, with or
    without an argument. *)
Theorem channel_commands_independent (ch ch' : Channel) (v : float)
    (arg : option Token) (hasVal : bool) (w : World) :
  ch <> ch' ->
  let same (w' : World) :=
    channel_enable ch' w' = channel_enable ch' w
    /\ channel_value ch' w' = channel_value ch' w in
  same (SCmd_readSerial (set_command ch) arg w)
  /\ same (dispatchToken (set_command ch) hasVal v w)
  /\ same (SCmd_readSerial (clear_command ch) arg w)
  /\ same (dispatchToken (clear_command ch) hasVal v w).
Proof.
  intros Hne. cbv zeta.
  destruct ch, ch'; try congruence; destruct arg, hasVal;
    (split; [split; reflexivity | split; [split; reflexivity |
      split; split; reflexivity]]).
Qed.

Lemma channel_commands_independent_witness :
  Ch_IC <> Ch_Noise
  /\ channel_value Ch_Noise (dispatchToken "IC1" true 120 World0)
     = channel_value Ch_Noise World0.
Proof.
  assert (Ch_IC <> Ch_Noise) as H by discriminate.
  split; [exact H |].
  destruct (channel_commands_independent Ch_IC Ch_Noise 120 None true World0 H)
    as (_ & (_ & E) & _).
  exact E.
Defined.

(** X5. A name that is not in the vocabulary changes nothing on the network
    transport; on the serial transport it is reported with the text
    "Unknown command: " followed by the name, and nothing else changes. *)
Theorem unknown_command_is_reported (cmd : string) (hasVal : bool)
    (v : float) (arg : option Token) (w : World) :
  ~ In cmd vocabulary ->
  dispatchToken cmd hasVal v w = w
  /\ SCmd_readSerial cmd arg w
     = set_effects (effects w ++ [SerialPrint ("Unknown command: " ++ cmd)]) w.
Proof.
  intros H. split.
  - unfold dispatchToken. cbv beta zeta.
    repeat (match goal with
            | |- context [String.eqb cmd ?n] =>
                destruct (String.eqb_spec cmd n) as [-> | _]
            end;
            [exfalso; apply H; cbn;
             repeat first [left; reflexivity | right]
            | cbn [andb]; cbv iota]).
    reflexivity.
  - unfold SCmd_readSerial, SerialFunctions. cbn [SCmd_lookup].
    repeat (match goal with
            | |- context [String.eqb cmd ?n] =>
                destruct (String.eqb_spec cmd n) as [-> | _]
            end;
            [exfalso; apply H; cbn;
             repeat first [left; reflexivity | right]
            | cbv iota]).
    reflexivity.
Qed.

Lemma unknown_command_is_reported_witness :
  ~ In "XYZ" vocabulary
  /\ dispatchToken "XYZ" true 1 World0 = World0
  /\ effects (SCmd_readSerial "XYZ" None World0)
     = [SerialPrint "Unknown command: XYZ"].
Proof.
  assert (~ In "XYZ" vocabulary) as H.
  { cbn. intros C. repeat (destruct C as [C | C]; [discriminate |]). exact C. }
  split; [exact H |].
  destruct (unknown_command_is_reported "XYZ" true 1 None World0 H) as [E1 E2].
  split; [exact E1 |]. rewrite E2. reflexivity.
Defined.

(** X6. Set commands compose: of two set commands of a channel the last one
    wins, and the state is the one that the last command alone leaves.  The
    clear command gives no value: it sets the flag and the parameter keeps
    the commanded value until the channel is updated. *)
Theorem set_commands_compose (ch : Channel) (v1 v2 : float) (n1 n2 : Z)
    (w : World) :
  dispatchToken (set_command ch) true v2
    (dispatchToken (set_command ch) true v1 w)
  = dispatchToken (set_command ch) true v2 w
  /\ SCmd_readSerial (set_command ch) (Some (mkToken v2 n2))
       (SCmd_readSerial (set_command ch) (Some (mkToken v1 n1)) w)
     = SCmd_readSerial (set_command ch) (Some (mkToken v2 n2)) w
  /\ channel_value ch
       (dispatchToken (clear_command ch) false 0
          (dispatchToken (set_command ch) true v1 w))
     = (v1 * channel_scale ch)%Q
  /\ channel_value ch
       (SCmd_readSerial (clear_command ch) None
          (SCmd_readSerial (set_command ch) (Some (mkToken v1 n1)) w))
     = (v1 * channel_scale ch)%Q.
Proof.
  destruct ch; (split; [reflexivity | split; [reflexivity |
    split; reflexivity]]).
Qed.

(** ** Released channels *)

Lemma PD_store_sample_flags (hw : Board) (p : Photodiode) :
  let p' := PD_store_sample hw p in
  PD_pot_scaling p' = PD_pot_scaling p
  /\ PD_inv_scaling p' = PD_inv_scaling p.
Proof. unfold PD_store_sample. destruct p. cbn. split_ifs; repeat split. Qed.

Lemma PD_read_gain_auto (hw : Board) (p : Photodiode) :
  PD_gain_enable p = true ->
  PD_gain (PD_read_gain hw p)
  = (let x := ADC1_read hw pins_adc1_pd_pot - bits12 ÷ 2 in
     if pot_offset <=? x then (inject_Z (x - pot_offset) / PD_pot_scaling p)%Q
     else if x <=? - pot_offset
          then (inject_Z (x + pot_offset) / PD_pot_scaling p)%Q
          else 0%Q).
Proof.
  unfold PD_read_gain. destruct p. cbn. intros ->. cbn.
  split_ifs; reflexivity || congruence.
Qed.

Lemma PD_adapt_decay_auto (p : Photodiode) :
  PD_decay_enable p = true -> PD_decay (PD_adapt_decay p) = (1#1000)%Q.
Proof.
  unfold PD_adapt_decay. destruct p. cbn. intros ->. cbn.
  split_ifs; reflexivity || congruence.
Qed.

Lemma PD_adapt_recovery_auto (p : Photodiode) :
  PD_recovery_enable p = true -> PD_recovery (PD_adapt_recovery p) = (25#1000)%Q.
Proof.
  unfold PD_adapt_recovery. destruct p. cbn. intros ->. cbn.
  split_ifs; reflexivity || congruence.
Qed.

(** The parameters of the photodiode after a call, when they are
    autonomous. *)
Lemma update_Photodiode_PD_auto (hw : Board) (p : Photodiode) :
  let p' := update_Photodiode_PD hw p in
  (PD_gain_enable p = true ->
   PD_gain p'
   = (let x := ADC1_read hw pins_adc1_pd_pot - bits12 ÷ 2 in
      if pot_offset <=? x then (inject_Z (x - pot_offset) / PD_pot_scaling p)%Q
      else if x <=? - pot_offset
           then (inject_Z (x + pot_offset) / PD_pot_scaling p)%Q
           else 0%Q))
  /\ (PD_decay_enable p = true -> PD_decay p' = (1#1000)%Q)
  /\ (PD_recovery_enable p = true -> PD_recovery p' = (25#1000)%Q).
Proof.
  cbv zeta. unfold update_Photodiode_PD. cbv zeta.
  destruct (PD_store_sample_frame hw p) as (A1 & A2 & A3 & _).
  destruct (PD_store_sample_flags hw p) as (A4 & _).
  set (p1 := PD_store_sample hw p) in *.
  destruct (PD_read_gain_frame hw p1) as (B1 & B2 & B3 & _).
  pose proof (PD_read_gain_auto hw p1) as B4.
  set (p2 := PD_read_gain hw p1) in *.
  destruct (PD_compute_current_frame p2) as (C1 & C2 & C3 & C4 & _).
  set (p3 := PD_compute_current p2) in *.
  destruct (PD_adapt_decay_frame p3) as (D1 & D2 & D3 & D4 & _).
  pose proof (PD_adapt_decay_auto p3) as D5.
  set (p4 := PD_adapt_decay p3) in *.
  destruct (PD_adapt_recovery_frame p4) as (E1 & E2 & E3 & E4 & E5 & _).
  pose proof (PD_adapt_recovery_auto p4) as E6.
  set (p5 := PD_adapt_recovery p4) in *.
  split; [| split].
  - intros H. rewrite E4, D4, C4, B4 by congruence. rewrite A4. reflexivity.
  - intros H. rewrite E5. apply D5. congruence.
  - intros H. apply E6. congruence.
Qed.

Lemma syn_read_inputs_auto (hw : Board) (s : Synapse) :
  syn_gain_enable s = true ->
  syn_gain (syn_read_inputs hw s)
  = (let x := ADC1_read hw (syn_pot_pin s) - bits12 ÷ 2 in
     if pot_offset <=? x then (inject_Z (x - pot_offset) / syn_pot_scaling s)%Q
     else if x <=? - pot_offset
          then (inject_Z (x + pot_offset) / syn_pot_scaling s)%Q
          else 0%Q).
Proof.
  unfold syn_read_inputs. destruct s. cbn. intros ->. cbn.
  split_ifs; reflexivity || congruence.
Qed.

Lemma syn_integrate_auto (defaultDecay : float) (s : Synapse) :
  syn_decay_enable s = true ->
  syn_decay (syn_integrate defaultDecay s) = defaultDecay.
Proof.
  unfold syn_integrate. destruct s. cbn. intros ->. cbn.
  split_ifs; reflexivity || congruence.
Qed.

(** The parameters of a synapse after a call, when they are autonomous. *)
Lemma update_Synapse_auto (hw : Board) (nrn : NeuronModel)
    (defaultDecay : float) (s : Synapse) :
  let s' := update_Synapse hw nrn defaultDecay s in
  (syn_gain_enable s = true ->
   syn_gain s'
   = (let x := ADC1_read hw (syn_pot_pin s) - bits12 ÷ 2 in
      if pot_offset <=? x then (inject_Z (x - pot_offset) / syn_pot_scaling s)%Q
      else if x <=? - pot_offset
           then (inject_Z (x + pot_offset) / syn_pot_scaling s)%Q
           else 0%Q))
  /\ (syn_decay_enable s = true -> syn_decay s' = defaultDecay).
Proof.
  cbv zeta. unfold update_Synapse. cbv zeta.
  destruct (syn_read_inputs_frame hw s) as (A1 & A2 & _).
  pose proof (syn_read_inputs_auto hw s) as A3.
  set (s1 := syn_read_inputs hw s) in *.
  destruct (syn_integrate_frame defaultDecay s1) as (B1 & B2 & B3 & _).
  pose proof (syn_integrate_auto defaultDecay s1) as B4.
  set (s2 := syn_integrate defaultDecay s1) in *.
  destruct (syn_read_Vm_frame hw nrn s2) as (C1 & C2 & C3 & C4 & _).
  split.
  - intros H. rewrite C3, B3. apply A3. exact H.
  - intros H. rewrite C4. apply B4. congruence.
Qed.

Lemma update_Noise_keeps_enable (hw : Board) (w : World) :
  noise_enable (noise w) = true ->
  noise_enable (noise (update_Noise hw w)) = true.
Proof.
  intros H. unfold update_Noise. rewrite H. cbn [negb]. cbv zeta.
  destruct (noise w) as [pv ps am cu en me si ns va dm dv] eqn:Hg.
  cbn in H. subst en. cbn -[Z.leb pot_offset Qltb Qabs Qeq_bool Qmult Qdiv inject_Z].
  split_ifs; reflexivity.
Qed.

(** The noise current that the autonomous update leaves does not depend on
    the one it finds. *)
Lemma update_Noise_forgets_current (hw : Board) (g : NoiseGenerator)
    (w : World) (c1 c2 : float) :
  noise_enable g = true ->
  noise_current (noise (update_Noise hw (set_noise (set_noise_current c1 g) w)))
  = noise_current (noise (update_Noise hw (set_noise (set_noise_current c2 g) w))).
Proof.
  destruct g as [pv ps am cu en me si ns va dm dv]. cbn. intros ->.
  unfold update_Noise.
  cbn -[Z.leb pot_offset Qltb Qabs Qeq_bool Qmult Qdiv inject_Z].
  split_ifs; reflexivity.
Qed.

(** X7. A released channel forgets the commanded value: after the set
    command with any value and then the clear command, the next call of the
    per-tick function of the channel leaves the parameter at a value that does
    not depend on the commanded one, and the flag set.  For the decays and
    the recovery that value is the default: 0.001 and 0.025 for the
    photodiode, the default decay of the call for a synapse. *)
Theorem released_channel_forgets_value (ch : Channel) (d : float)
    (v1 v2 : float) (hw : Board) (w : World) :
  let released (v : float) :=
    run_update (channel_update ch d) hw
      (dispatchToken (clear_command ch) false 0
         (dispatchToken (set_command ch) true v w)) in
  channel_enable ch (released v1) = true
  /\ channel_value ch (released v1) = channel_value ch (released v2)
  /\ match ch with
     | Ch_PDDecay => channel_value ch (released v1) = (1#1000)%Q
     | Ch_PDRecovery => channel_value ch (released v1) = (25#1000)%Q
     | Ch_Syn1Decay | Ch_Syn2Decay => channel_value ch (released v1) = d
     | _ => True
     end.
Proof.
  cbv zeta. destruct ch; cbn [channel_update run_update set_command clear_command].
  - (* IC *)
    unfold update_InputCurrent. cbn. split; [| split; [| exact I]].
    + split_ifs; reflexivity.
    + reflexivity.
  - (* noise *)
    set (g := set_noise_enable true (noise w)).
    change (dispatchToken "NO0" false 0 (dispatchToken "NO1" true v1 w))
      with (set_noise (set_noise_current (v1 * 1) g) w).
    change (dispatchToken "NO0" false 0 (dispatchToken "NO1" true v2 w))
      with (set_noise (set_noise_current (v2 * 1) g) w).
    cbn [channel_enable channel_value].
    split; [apply update_Noise_keeps_enable; reflexivity |].
    split; [apply update_Noise_forgets_current; reflexivity | exact I].
  - (* photodiode gain *)
    unfold update_Photodiode. cbn [channel_enable channel_value PD set_PD].
    set (W := fun v => dispatchToken "PG0" false 0 (dispatchToken "PG1" true v w)).
    change (dispatchToken "PG0" false 0 (dispatchToken "PG1" true v1 w))
      with (W v1).
    change (dispatchToken "PG0" false 0 (dispatchToken "PG1" true v2 w))
      with (W v2).
    destruct (update_Photodiode_PD_manual hw (PD (W v1))) as (F1 & _).
    destruct (update_Photodiode_PD_auto hw (PD (W v1))) as (G1 & _).
    destruct (update_Photodiode_PD_auto hw (PD (W v2))) as (G2 & _).
    split; [rewrite F1; reflexivity |]. split; [| exact I].
    rewrite G1, G2 by reflexivity. reflexivity.
  - (* photodiode decay *)
    unfold update_Photodiode. cbn [channel_enable channel_value PD set_PD].
    set (W := fun v => dispatchToken "PD0" false 0 (dispatchToken "PD1" true v w)).
    change (dispatchToken "PD0" false 0 (dispatchToken "PD1" true v1 w))
      with (W v1).
    change (dispatchToken "PD0" false 0 (dispatchToken "PD1" true v2 w))
      with (W v2).
    destruct (update_Photodiode_PD_manual hw (PD (W v1))) as (_ & F1 & _).
    destruct (update_Photodiode_PD_auto hw (PD (W v1))) as (_ & G1 & _).
    destruct (update_Photodiode_PD_auto hw (PD (W v2))) as (_ & G2 & _).
    split; [rewrite F1; reflexivity |].
    rewrite G1, G2 by reflexivity. split; reflexivity.
  - (* photodiode recovery *)
    unfold update_Photodiode. cbn [channel_enable channel_value PD set_PD].
    set (W := fun v => dispatchToken "PR0" false 0 (dispatchToken "PR1" true v w)).
    change (dispatchToken "PR0" false 0 (dispatchToken "PR1" true v1 w))
      with (W v1).
    change (dispatchToken "PR0" false 0 (dispatchToken "PR1" true v2 w))
      with (W v2).
    destruct (update_Photodiode_PD_manual hw (PD (W v1))) as (_ & _ & F1 & _).
    destruct (update_Photodiode_PD_auto hw (PD (W v1))) as (_ & _ & G1).
    destruct (update_Photodiode_PD_auto hw (PD (W v2))) as (_ & _ & G2).
    split; [rewrite F1; reflexivity |].
    rewrite G1, G2 by reflexivity. split; reflexivity.
  - (* synapse 1 gain *)
    unfold update_Synapse1. cbn [channel_enable channel_value syn1 set_syn1].
    set (W := fun v => dispatchToken "SG10" false 0 (dispatchToken "SG11" true v w)).
    change (dispatchToken "SG10" false 0 (dispatchToken "SG11" true v1 w))
      with (W v1).
    change (dispatchToken "SG10" false 0 (dispatchToken "SG11" true v2 w))
      with (W v2).
    destruct (update_Synapse_manual hw (neuron (W v1)) d (syn1 (W v1))) as (F1 & _).
    destruct (update_Synapse_auto hw (neuron (W v1)) d (syn1 (W v1))) as (G1 & _).
    destruct (update_Synapse_auto hw (neuron (W v2)) d (syn1 (W v2))) as (G2 & _).
    split; [rewrite F1; reflexivity |]. split; [| exact I].
    rewrite G1, G2 by reflexivity. reflexivity.
  - (* synapse 1 decay *)
    unfold update_Synapse1. cbn [channel_enable channel_value syn1 set_syn1].
    set (W := fun v => dispatchToken "SD10" false 0 (dispatchToken "SD11" true v w)).
    change (dispatchToken "SD10" false 0 (dispatchToken "SD11" true v1 w))
      with (W v1).
    change (dispatchToken "SD10" false 0 (dispatchToken "SD11" true v2 w))
      with (W v2).
    destruct (update_Synapse_manual hw (neuron (W v1)) d (syn1 (W v1))) as (_ & F1 & _).
    destruct (update_Synapse_auto hw (neuron (W v1)) d (syn1 (W v1))) as (_ & G1).
    destruct (update_Synapse_auto hw (neuron (W v2)) d (syn1 (W v2))) as (_ & G2).
    split; [rewrite F1; reflexivity |].
    rewrite G1, G2 by reflexivity. split; reflexivity.
  - (* synapse 2 gain *)
    unfold update_Synapse2. cbn [channel_enable channel_value syn2 set_syn2].
    set (W := fun v => dispatchToken "SG20" false 0 (dispatchToken "SG21" true v w)).
    change (dispatchToken "SG20" false 0 (dispatchToken "SG21" true v1 w))
      with (W v1).
    change (dispatchToken "SG20" false 0 (dispatchToken "SG21" true v2 w))
      with (W v2).
    destruct (update_Synapse_manual hw (neuron (W v1)) d (syn2 (W v1))) as (F1 & _).
    destruct (update_Synapse_auto hw (neuron (W v1)) d (syn2 (W v1))) as (G1 & _).
    destruct (update_Synapse_auto hw (neuron (W v2)) d (syn2 (W v2))) as (G2 & _).
    split; [rewrite F1; reflexivity |]. split; [| exact I].
    rewrite G1, G2 by reflexivity. reflexivity.
  - (* synapse 2 decay *)
    unfold update_Synapse2. cbn [channel_enable channel_value syn2 set_syn2].
    set (W := fun v => dispatchToken "SD20" false 0 (dispatchToken "SD21" true v w)).
    change (dispatchToken "SD20" false 0 (dispatchToken "SD21" true v1 w))
      with (W v1).
    change (dispatchToken "SD20" false 0 (dispatchToken "SD21" true v2 w))
      with (W v2).
    destruct (update_Synapse_manual hw (neuron (W v1)) d (syn2 (W v1))) as (_ & F1 & _).
    destruct (update_Synapse_auto hw (neuron (W v1)) d (syn2 (W v1))) as (_ & G1).
    destruct (update_Synapse_auto hw (neuron (W v2)) d (syn2 (W v2))) as (_ & G2).
    split; [rewrite F1; reflexivity |].
    rewrite G1, G2 by reflexivity. split; reflexivity.
Qed.

(** ** Current clamp *)

(** The clamp current of an autonomous call, from the reading. *)
Lemma update_InputCurrent_auto (hw : Board) (w : World) :
  IC_enable (IC w) = true ->
  IC_current_clamp (IC (update_InputCurrent hw w))
  = (let x := ADC1_read hw pins_adc1_current_in_pot - bits12 ÷ 2 in
     if pot_offset <=? x
     then ((inject_Z x - inject_Z pot_offset) / IC_pot_scaling (IC w))%Q
     else if x <=? - pot_offset
          then ((inject_Z x + inject_Z pot_offset) / IC_pot_scaling (IC w))%Q
          else 0%Q).
Proof.
  intros H. unfold update_InputCurrent. rewrite H. cbn [negb]. cbv zeta.
  set (x := ADC1_read hw pins_adc1_current_in_pot - bits12 ÷ 2).
  cbn [IC_pot_value set_IC_pot_value IC_pot_scaling].
  assert (Qle_bool (inject_Z pot_offset) (inject_Z x) = (pot_offset <=? x)) as ->.
  { destruct (Z.leb_spec pot_offset x) as [L | L].
    - apply Qle_bool_iff. rewrite <- Zle_Qle. exact L.
    - destruct (Qle_bool (inject_Z pot_offset) (inject_Z x)) eqn:E; [| reflexivity].
      apply Qle_bool_iff in E. rewrite <- Zle_Qle in E. lia. }
  assert (Qle_bool (inject_Z x) (inject_Z (- pot_offset)) = (x <=? - pot_offset))
    as ->.
  { destruct (Z.leb_spec x (- pot_offset)) as [L | L].
    - apply Qle_bool_iff. rewrite <- Zle_Qle. exact L.
    - destruct (Qle_bool (inject_Z x) (inject_Z (- pot_offset))) eqn:E;
        [| reflexivity].
      apply Qle_bool_iff in E. rewrite <- Zle_Qle in E. lia. }
  destruct (pot_offset <=? x); [reflexivity |].
  destruct (x <=? - pot_offset); reflexivity.
Qed.

(** X8. The autonomous clamp, for a positive scaling: the clamp current is
    exactly 0 while the centred reading is strictly inside the dead zone
    (-offset, offset), it has the sign of the reading outside of it, and it
    does not decrease when the reading increases. *)
Theorem clamp_dead_zone_and_monotone (hw1 hw2 : Board) (w : World) :
  IC_enable (IC w) = true ->
  (0 < IC_pot_scaling (IC w))%Q ->
  let reading (hw : Board) := ADC1_read hw pins_adc1_current_in_pot in
  let clamp (hw : Board) := IC_current_clamp (IC (update_InputCurrent hw w)) in
  (- pot_offset < reading hw1 - bits12 ÷ 2 < pot_offset -> clamp hw1 = 0%Q)
  /\ (pot_offset <= reading hw1 - bits12 ÷ 2 -> (0 <= clamp hw1)%Q)
  /\ (reading hw1 - bits12 ÷ 2 <= - pot_offset -> (clamp hw1 <= 0)%Q)
  /\ (reading hw1 <= reading hw2 -> (clamp hw1 <= clamp hw2)%Q).
Proof.
  intros He Hs. cbv beta zeta.
  rewrite !(update_InputCurrent_auto _ w He). cbv beta zeta.
  set (x1 := ADC1_read hw1 pins_adc1_current_in_pot - bits12 ÷ 2).
  set (x2 := ADC1_read hw2 pins_adc1_current_in_pot - bits12 ÷ 2).
  set (o := pot_offset). assert (0 <= o) as Ho by (subst o; vm_compute; congruence).
  assert (ADC1_read hw1 pins_adc1_current_in_pot
          <= ADC1_read hw2 pins_adc1_current_in_pot -> x1 <= x2) as Hx
    by (subst x1 x2; lia).
  set (k := IC_pot_scaling (IC w)) in *.
  clearbody x1 x2 o k.
  assert (0 < / k)%Q as Hk by (apply Qinv_lt_0_compat; exact Hs).
  unfold Qdiv. set (ik := (/ k)%Q) in *. clearbody ik. clear Hs.
  assert (forall a b : Q, (a <= b)%Q -> (a * ik <= b * ik)%Q) as Hm
    by (intros a b L; apply Qmult_le_compat_r; [exact L | apply Qlt_le_weak, Hk]).
  assert (forall z1 z2 : Z, z1 <= z2 -> (inject_Z z1 <= inject_Z z2)%Q) as Hz
    by (intros z1 z2 L; rewrite <- Zle_Qle; exact L).
  assert (forall a : Q, (0 <= a)%Q -> (0 <= a * ik)%Q) as Hp
    by (intros a L; apply Qmult_le_0_compat; [exact L | apply Qlt_le_weak, Hk]).
  assert (forall a : Q, (a <= 0)%Q -> (a * ik <= 0)%Q) as Hn.
  { intros a L. apply Qle_trans with (0 * ik)%Q; [apply Hm, L |].
    rewrite Qmult_0_l. apply Qle_refl. }
  split; [| split; [| split]].
  - intros [L1 L2].
    destruct (Z.leb_spec o x1); [lia |]. destruct (Z.leb_spec x1 (- o)); [lia |].
    reflexivity.
  - intros L. destruct (Z.leb_spec o x1); [| lia].
    apply Hp. pose proof (Hz _ _ L) as HQ1. lra.
  - intros L. destruct (Z.leb_spec o x1).
    + assert (x1 = o) by lia. assert (o = 0) by lia.
      apply Hn. pose proof (Hz x1 0 ltac:(lia)) as HQa.
      pose proof (Hz o 0 ltac:(lia)) as HQb. pose proof (Hz 0 o ltac:(lia)) as HQc.
      change (inject_Z 0) with 0%Q in *. lra.
    + destruct (Z.leb_spec x1 (- o)); [| lia].
      apply Hn. pose proof (Hz _ _ L) as HQ2. rewrite inject_Z_opp in *. lra.
  - intros L. pose proof (Hx L) as Lx.
    pose proof (Hz _ _ Lx) as Q12.
    destruct (Z.leb_spec o x1) as [A1 | A1];
      destruct (Z.leb_spec o x2) as [A2 | A2]; try lia.
    + apply Hm. lra.
    + destruct (Z.leb_spec x1 (- o)) as [B1 | B1].
      * apply Qle_trans with 0%Q.
        -- apply Hn. pose proof (Hz _ _ B1) as HQ3. rewrite inject_Z_opp in *. lra.
        -- apply Hp. pose proof (Hz _ _ A2) as HQ4. lra.
      * apply Hp. pose proof (Hz _ _ A2) as HQ5. lra.
    + destruct (Z.leb_spec x1 (- o)) as [B1 | B1];
        destruct (Z.leb_spec x2 (- o)) as [B2 | B2]; try lia.
      * apply Hm. lra.
      * apply Hn. pose proof (Hz _ _ B1) as HQ6. rewrite inject_Z_opp in *. lra.
      * apply Qle_refl.
Qed.

Lemma clamp_dead_zone_and_monotone_witness :
  let clamp (r : Z) :=
    IC_current_clamp (IC (update_InputCurrent (constant_board r 0 0) World0)) in
  clamp 2100 = 0%Q /\ (clamp 1000%Z <= clamp 3000%Z)%Q.
Proof.
  cbv beta zeta.
  assert (IC_enable (IC World0) = true) as He by reflexivity.
  assert (0 < IC_pot_scaling (IC World0))%Q as Hs by (vm_compute; reflexivity).
  split.
  - destruct (clamp_dead_zone_and_monotone (constant_board 2100 0 0)
                (constant_board 2100 0 0) World0 He Hs) as (H & _).
    apply H. vm_compute. split; reflexivity.
  - destruct (clamp_dead_zone_and_monotone (constant_board 1000 0 0)
                (constant_board 3000 0 0) World0 He Hs) as (_ & _ & _ & H).
    apply H. vm_compute. congruence.
Defined.

(** ** Invariants of the reachable states *)

Ltac all_refl := repeat (split; [reflexivity |]); reflexivity.

(** What no command writes. *)
Lemma dispatchToken_frame (cmd : string) (hasVal : bool) (v : float)
    (w : World) :
  let w' := dispatchToken cmd hasVal v w in
  noise_sigma (noise w') = noise_sigma (noise w)
  /\ noise_var (noise w') = noise_var (noise w)
  /\ noise_dist_variance (noise w') = noise_dist_variance (noise w)
  /\ noise_dist_mean (noise w') = noise_dist_mean (noise w)
  /\ noise_mean (noise w') = noise_mean (noise w)
  /\ PD_values (PD w') = PD_values (PD w)
  /\ PD_counter (PD w') = PD_counter (PD w)
  /\ PD_avgWindow (PD w') = PD_avgWindow (PD w)
  /\ PD_sum (PD w') = PD_sum (PD w).
Proof. cbv zeta. dispatch_cases cmd hasVal all_refl. Qed.

Lemma SCmd_readSerial_frame (cmd : string) (arg : option Token) (w : World) :
  let w' := SCmd_readSerial cmd arg w in
  noise_sigma (noise w') = noise_sigma (noise w)
  /\ noise_var (noise w') = noise_var (noise w)
  /\ noise_dist_variance (noise w') = noise_dist_variance (noise w)
  /\ noise_dist_mean (noise w') = noise_dist_mean (noise w)
  /\ noise_mean (noise w') = noise_mean (noise w)
  /\ PD_values (PD w') = PD_values (PD w)
  /\ PD_counter (PD w') = PD_counter (PD w)
  /\ PD_avgWindow (PD w') = PD_avgWindow (PD w)
  /\ PD_sum (PD w') = PD_sum (PD w).
Proof. cbv zeta. serial_cases cmd arg all_refl. Qed.

Lemma run_update_noise (u : UpdateFn) (hw : Board) (w : World) :
  noise (run_update u hw w)
  = match u with U_Noise => noise (update_Noise hw w) | _ => noise w end.
Proof.
  destruct (update_InputCurrent_frame hw w) as (I1 & _).
  destruct (update_StimulusOutput_frame hw w) as (_ & S2 & _).
  destruct u; cbn [run_update]; auto.
Qed.

Lemma run_update_PD (u : UpdateFn) (hw : Board) (w : World) :
  PD (run_update u hw w)
  = match u with
    | U_Photodiode => update_Photodiode_PD hw (PD w)
    | _ => PD w
    end.
Proof.
  destruct (update_InputCurrent_frame hw w) as (_ & I2 & _).
  destruct (update_Noise_frame hw w) as (_ & N2 & _).
  destruct (update_StimulusOutput_frame hw w) as (_ & _ & S3 & _).
  destruct u; cbn [run_update]; auto.
Qed.

Lemma update_Noise_consistent (hw : Board) (w : World) :
  noise_consistent (noise w) -> noise_consistent (noise (update_Noise hw w)).
Proof.
  intros H. unfold update_Noise.
  destruct (negb (noise_enable (noise w))); [exact H |]. cbv zeta.
  destruct (noise w) as [pv ps am cu en me si ns va dm dv] eqn:Hg.
  unfold noise_consistent in *.
  cbn -[Z.leb pot_offset Qltb Qabs Qeq_bool Qmult Qdiv inject_Z] in *.
  destruct H as (H1 & H2 & H3).
  destruct (_ <=? pot_offset);
    cbn -[Z.leb pot_offset Qltb Qabs Qeq_bool Qmult Qdiv inject_Z];
    [auto |].
  destruct (Qltb _ _);
    cbn -[Z.leb pot_offset Qltb Qabs Qeq_bool Qmult Qdiv inject_Z]; auto.
Qed.

Lemma step_noise_consistent (e : Event) (w : World) :
  noise_consistent (noise w) -> noise_consistent (noise (step w e)).
Proof.
  intros H. destruct e as [u hw | cmd arg | cmd hasVal v]; cbn [step].
  - rewrite run_update_noise.
    destruct u; auto using update_Noise_consistent.
  - destruct (SCmd_readSerial_frame cmd arg w) as (E1 & E2 & E3 & E4 & E5 & _).
    unfold noise_consistent in *. rewrite E1, E2, E3, E4, E5. exact H.
  - destruct (dispatchToken_frame cmd hasVal v w) as (E1 & E2 & E3 & E4 & E5 & _).
    unfold noise_consistent in *. rewrite E1, E2, E3, E4, E5. exact H.
Qed.

Lemma step_PD_ring_invariant (e : Event) (w : World) :
  PD_ring_invariant (PD w) -> PD_ring_invariant (PD (step w e)).
Proof.
  intros H. destruct e as [u hw | cmd arg | cmd hasVal v]; cbn [step].
  - rewrite run_update_PD. destruct u; auto.
    apply (update_Photodiode_PD_ring hw (PD w) H).
  - destruct (SCmd_readSerial_frame cmd arg w)
      as (_ & _ & _ & _ & _ & E1 & E2 & E3 & E4).
    unfold PD_ring_invariant in *. rewrite E1, E2, E3, E4. exact H.
  - destruct (dispatchToken_frame cmd hasVal v w)
      as (_ & _ & _ & _ & _ & E1 & E2 & E3 & E4).
    unfold PD_ring_invariant in *. rewrite E1, E2, E3, E4. exact H.
Qed.

Lemma update_StimulusOutput_stim_counter_in_cycle (hw : Board) (s : Stimulus) :
  stim_counter_in_cycle s ->
  stim_counter_in_cycle (fst (update_StimulusOutput_stim hw s)).
Proof.
  unfold stim_counter_in_cycle. intros [H0 H1].
  destruct (stim_custom_enable s) eqn:Hc.
  - destruct (update_StimulusOutput_stim_auto hw s Hc) as (E1 & _ & _ & E4 & _).
    rewrite E1.
    destruct (Z.leb_spec (stim_steps s) (stim_counter s + 1)) as [L | L].
    + split; [lia | left; reflexivity].
    + rewrite (E4 eq_refl). split; [lia | right; exact L].
  - unfold update_StimulusOutput_stim. cbv zeta.
    destruct (stim_read_strength_frame hw s) as (A1 & A2 & A3 & A4 & _).
    set (s1 := stim_read_strength hw s) in *.
    destruct (stim_read_frequency_frame hw s1) as (B1 & B2 & B3 & B4).
    set (s2 := stim_read_frequency hw s1) in *.
    assert (stim_custom_enable s2 = false) as -> by congruence.
    destruct (stim_custom_frame s2) as (C1 & C2 & C3 & C4).
    cbn [fst]. rewrite C1, C2, B1, B2, A1, A2. auto.
Qed.

Lemma step_stim_counter_in_cycle (e : Event) (w : World) :
  stim_counter_in_cycle (stim w) -> stim_counter_in_cycle (stim (step w e)).
Proof.
  intros H. destruct e as [u hw | cmd arg | cmd hasVal v]; cbn [step].
  - rewrite run_update_stim.
    destruct u; auto using update_StimulusOutput_stim_counter_in_cycle.
  - destruct (SCmd_readSerial_stim_cycle cmd arg w) as (E1 & E2 & E3).
    unfold stim_counter_in_cycle in *. rewrite E1, E2. exact H.
  - destruct (dispatchToken_stim_cycle cmd hasVal v w) as (E1 & E2 & E3).
    unfold stim_counter_in_cycle in *. rewrite E1, E2. exact H.
Qed.

(** An invariant of the steps that holds initially holds in every reachable
    state. *)
Lemma Reachable_ind (P : World -> Prop) :
  P World0 -> (forall e w, P w -> P (step w e)) ->
  forall w, Reachable w -> P w.
Proof.
  intros H0 Hstep w [es ->]. unfold run.
  generalize World0 H0. induction es as [| e es IH]; intros w0 Hw0;
    [exact Hw0 |].
  cbn [fold_left]. apply IH, Hstep, Hw0.
Qed.

(** ** The noise generator on the reachable states *)

(** Everything that the autonomous update leaves, for a reading above the
    offset. *)
Lemma update_Noise_spec (hw : Board) (w : World) :
  noise_enable (noise w) = true ->
  pot_offset < ADC2_read hw pins_adc2_noise_pot ->
  let g := noise w in
  let g' := noise (update_Noise hw w) in
  let amp := (inject_Z (ADC2_read hw pins_adc2_noise_pot - pot_offset)
              / noise_pot_scaling g)%Q in
  let newSigma := ((1#2) * amp)%Q in
  noise_amp g' = amp /\ noise_newSigma g' = newSigma
  /\ (if negb (Qeq_bool newSigma (noise_sigma g))
      then noise_sigma g' = newSigma
           /\ noise_var g' = (newSigma * newSigma)%Q
           /\ noise_dist_variance g' = (newSigma * newSigma)%Q
           /\ noise_dist_mean g' = noise_mean g
      else noise_sigma g' = noise_sigma g /\ noise_var g' = noise_var g
           /\ noise_dist_variance g' = noise_dist_variance g
           /\ noise_dist_mean g' = noise_dist_mean g)
  /\ noise_current g'
     = Gaussian_random hw (noise_dist_mean g') (noise_dist_variance g').
Proof.
  intros He Hp. cbv zeta. unfold update_Noise.
  rewrite He. cbn [negb]. cbv zeta.
  destruct (noise w) as [pv ps am cu en me si ns va dm dv] eqn:Hg.
  cbn -[Z.leb pot_offset Qltb Qabs Qeq_bool Qmult Qdiv inject_Z].
  destruct (Z.leb_spec (ADC2_read hw pins_adc2_noise_pot) pot_offset); [lia |].
  rewrite update_Noise_test.
  cbn -[pot_offset Qeq_bool Qmult Qdiv inject_Z].
  destruct (Qeq_bool _ si); cbn -[pot_offset Qmult Qdiv inject_Z];
    repeat split.
Qed.

(** The scaling is never written, and the stored standard deviation is
    either kept or replaced by the one of the reading. *)
Lemma update_Noise_sigma_cases (hw : Board) (w : World) :
  noise_pot_scaling (noise w) = (inject_Z bits12 / 25)%Q ->
  noise_pot_scaling (noise (update_Noise hw w)) = (inject_Z bits12 / 25)%Q
  /\ (noise_sigma (noise (update_Noise hw w)) = noise_sigma (noise w)
      \/ noise_sigma (noise (update_Noise hw w))
         = noise_sigma_of_pot (ADC2_read hw pins_adc2_noise_pot)).
Proof.
  intros Hs. unfold update_Noise, noise_sigma_of_pot.
  destruct (negb (noise_enable (noise w))); [auto |]. cbv zeta.
  destruct (noise w) as [pv ps am cu en me si ns va dm dv] eqn:Hg.
  cbn in Hs. subst ps.
  cbn -[Z.leb pot_offset Qltb Qabs Qeq_bool Qmult Qdiv inject_Z].
  destruct (_ <=? pot_offset);
    cbn -[Z.leb pot_offset Qltb Qabs Qeq_bool Qmult Qdiv inject_Z];
    [auto |].
  destruct (Qltb _ _);
    cbn -[Z.leb pot_offset Qltb Qabs Qeq_bool Qmult Qdiv inject_Z]; auto.
Qed.

Lemma dispatchToken_noise_scaling (cmd : string) (hasVal : bool) (v : float)
    (w : World) :
  noise_pot_scaling (noise (dispatchToken cmd hasVal v w))
  = noise_pot_scaling (noise w).
Proof. dispatch_cases cmd hasVal all_refl. Qed.

Lemma SCmd_readSerial_noise_scaling (cmd : string) (arg : option Token)
    (w : World) :
  noise_pot_scaling (noise (SCmd_readSerial cmd arg w))
  = noise_pot_scaling (noise w).
Proof. serial_cases cmd arg all_refl. Qed.

(** In every reachable state the scaling of the noise potentiometer is the
    shipped one and the stored standard deviation is one that a reading
    gives (the initial 0 is the one of a reading at the offset). *)
Lemma Reachable_noise_sigma_on_grid (w : World) :
  Reachable w ->
  noise_pot_scaling (noise w) = (inject_Z bits12 / 25)%Q
  /\ exists q : Z, (noise_sigma (noise w) == noise_sigma_of_pot q)%Q.
Proof.
  apply (Reachable_ind (fun w =>
    noise_pot_scaling (noise w) = (inject_Z bits12 / 25)%Q
    /\ exists q : Z, (noise_sigma (noise w) == noise_sigma_of_pot q)%Q)).
  - split; [reflexivity |]. exists pot_offset. vm_compute. reflexivity.
  - intros e w0 [Hs [q Hq]].
    destruct e as [u hw | cmd arg | cmd hasVal v]; cbn [step].
    + rewrite run_update_noise. destruct u; try (split; [exact Hs | eauto]).
      destruct (update_Noise_sigma_cases hw w0 Hs) as [Hs' [E | E]].
      * split; [exact Hs' |]. exists q. rewrite E. exact Hq.
      * split; [exact Hs' |]. eexists. rewrite E. reflexivity.
    + rewrite SCmd_readSerial_noise_scaling.
      destruct (SCmd_readSerial_frame cmd arg w0) as (E1 & _).
      rewrite E1. eauto.
    + rewrite dispatchToken_noise_scaling.
      destruct (dispatchToken_frame cmd hasVal v w0) as (E1 & _).
      rewrite E1. eauto.
Qed.



(** X9. In every state that the firmware reaches, the noise generator is
    consistent: the variance is the square of the stored standard deviation,
    and the distribution holds that variance and the mean of the structure.
    No command and no per-tick function separates them. *)
Theorem Reachable_noise_consistent (w : World) :
  Reachable w -> noise_consistent (noise w).
Proof.
  apply (Reachable_ind (fun w => noise_consistent (noise w))).
  - repeat split.
  - intros e w0. apply step_noise_consistent.
Qed.

(** X10. In every state that the firmware reaches, the ring buffer of the
    photodiode is well formed: the counter is in [0, avgWindow), the buffer
    has avgWindow entries and the sum is the sum of the entries.  Commands, on
    either transport, and the other per-tick functions do not touch it. *)
Theorem Reachable_PD_ring_invariant (w : World) :
  Reachable w -> PD_ring_invariant (PD w).
Proof.
  apply (Reachable_ind (fun w => PD_ring_invariant (PD w))).
  - exact PD0_ring_invariant.
  - intros e w0. apply step_PD_ring_invariant.
Qed.

Lemma stim_auto_count_steps_range (s : Stimulus) :
  - 2 ^ 31 <= stim_steps s < 2 ^ 31 ->
  - 2 ^ 31 <= stim_steps (stim_auto_count s) < 2 ^ 31.
Proof.
  intros H. unfold stim_auto_count. destruct s.
  cbn -[float_to_int Z.pow] in *.
  split_ifs; cbn -[float_to_int Z.pow]; try exact H;
    unfold float_to_int; apply to_int_range.
Qed.

Lemma update_StimulusOutput_stim_steps_range (hw : Board) (s : Stimulus) :
  - 2 ^ 31 <= stim_steps s < 2 ^ 31 ->
  - 2 ^ 31 <= stim_steps (fst (update_StimulusOutput_stim hw s)) < 2 ^ 31.
Proof.
  intros H. unfold update_StimulusOutput_stim. cbv zeta.
  destruct (stim_read_strength_frame hw s) as (A1 & A2 & _).
  set (s1 := stim_read_strength hw s) in *.
  destruct (stim_read_frequency_frame hw s1) as (B1 & B2 & _).
  set (s2 := stim_read_frequency hw s1) in *.
  destruct (stim_custom_enable s2).
  - destruct (stim_auto_values_frame s2) as (C1 & C2 & _).
    set (s3 := stim_auto_values s2) in *.
    destruct (stim_auto_phase_frame s3) as (D1 & D2 & _).
    set (s4 := stim_auto_phase s3) in *.
    cbn [fst]. apply stim_auto_count_steps_range.
    rewrite D2, C2, B2, A2. exact H.
  - destruct (stim_custom_frame s2) as (C1 & C2 & _).
    cbn [fst]. rewrite C2, B2, A2. exact H.
Qed.

Lemma step_stim_steps_range (e : Event) (w : World) :
  - 2 ^ 31 <= stim_steps (stim w) < 2 ^ 31 ->
  - 2 ^ 31 <= stim_steps (stim (step w e)) < 2 ^ 31.
Proof.
  intros H. destruct e as [u hw | cmd arg | cmd hasVal v]; cbn [step].
  - rewrite run_update_stim.
    destruct u; auto using update_StimulusOutput_stim_steps_range.
  - destruct (SCmd_readSerial_stim_cycle cmd arg w) as (_ & E2 & _).
    rewrite E2. exact H.
  - destruct (dispatchToken_stim_cycle cmd hasVal v w) as (_ & E2 & _).
    rewrite E2. exact H.
Qed.

(** X11. In every state that the firmware reaches, the counter of the
    stimulus generator is not negative and is either 0 or below [steps], and
    its successor is an [int]: the increment of the counter in
    [update_StimulusOutput] never overflows.  Commands and a stay in the
    custom mode leave the counter where it was. *)
Theorem Reachable_stim_counter_in_cycle (w : World) :
  Reachable w ->
  stim_counter_in_cycle (stim w) /\ stim_counter (stim w) + 1 < 2 ^ 31.
Proof.
  intros H.
  assert (stim_counter_in_cycle (stim w)
          /\ - 2 ^ 31 <= stim_steps (stim w) < 2 ^ 31) as [H1 H2].
  { revert w H.
    apply (Reachable_ind (fun w => stim_counter_in_cycle (stim w)
             /\ - 2 ^ 31 <= stim_steps (stim w) < 2 ^ 31)).
    - split; [split; [vm_compute; congruence | left; reflexivity] |].
      split; vm_compute; congruence.
    - intros e w0 [I1 I2]. split.
      + apply step_stim_counter_in_cycle, I1.
      + apply step_stim_steps_range, I2. }
  split; [exact H1 |].
  destruct H1 as [_ [-> | H1]]; lia.
Qed.

Lemma Reachable_noise_consistent_witness :
  noise_consistent (noise World_cycle_start).
Proof.
  apply (Reachable_noise_consistent World_cycle_start).
  exact World_cycle_start_Reachable.
Defined.

Lemma Reachable_PD_ring_invariant_witness :
  PD_ring_invariant (PD World_cycle_start).
Proof.
  apply (Reachable_PD_ring_invariant World_cycle_start).
  exact World_cycle_start_Reachable.
Defined.

Lemma Reachable_stim_counter_in_cycle_witness :
  stim_counter_in_cycle (stim World_cycle_start)
  /\ stim_counter (stim World_cycle_start) + 1 < 2 ^ 31.
Proof.
  apply (Reachable_stim_counter_in_cycle World_cycle_start).
  exact World_cycle_start_Reachable.
Defined.

(** ** The synapse under a held input *)

Lemma syn_train_S (g d : Q) (n : nat) :
  (syn_train g d (S n) == syn_train g d n + g * d ^ Z.of_nat (S n))%Q.
Proof.
  induction n as [| n IH].
  - cbn [syn_train]. change (Z.of_nat 1) with 1. rewrite Qpower_1_r. ring.
  - change (syn_train g d (S (S n)))
      with ((syn_train g d (S n) + g) * d)%Q.
    rewrite IH at 1. rewrite (Qpower_S d (S n)).
    cbn [syn_train]. ring.
Qed.

Lemma syn_train_closed (g d : Q) (n : nat) :
  ((1 - d) * syn_train g d n == g * d * (1 - d ^ Z.of_nat n))%Q.
Proof.
  induction n as [| n IH].
  - cbn [syn_train]. change (Z.of_nat 0) with 0.
    change (d ^ 0)%Q with 1%Q. ring.
  - cbn [syn_train]. rewrite Qpower_S.
    transitivity (((1 - d) * syn_train g d n + (1 - d) * g) * d)%Q; [ring |].
    rewrite IH. ring.
Qed.

Lemma update_Synapse_run_train (hws : list Board) (nrn : NeuronModel)
    (defaultDecay : float) (s : Synapse) (c : Q) :
  syn_gain_enable s = false -> syn_decay_enable s = false ->
  Forall (fun hw => digitalRead hw (syn_pin_digital s) = HIGH) hws ->
  (syn_current s == c)%Q ->
  (syn_current (update_Synapse_run hws nrn defaultDecay s)
   == c * syn_decay s ^ Z.of_nat (length hws)
      + syn_train (syn_gain s) (syn_decay s) (length hws))%Q.
Proof.
  revert s c. induction hws as [| hw hws IH]; intros s c Hg Hd Hhigh Hc.
  - unfold update_Synapse_run. cbn [fold_left length syn_train].
    rewrite Hc. change (Z.of_nat 0%nat) with 0.
    change (syn_decay s ^ 0)%Q with 1%Q. ring.
  - inversion Hhigh as [| ? ? Hhw Hrest]; subst.
    unfold update_Synapse_run in *. cbn [fold_left].
    destruct (update_Synapse_manual hw nrn defaultDecay s)
      as (E1 & E2 & E3 & E4 & E5).
    set (s1 := update_Synapse hw nrn defaultDecay s) in *.
    rewrite (IH s1 ((c + syn_gain s) * syn_decay s)%Q).
    + rewrite E3, E4 by assumption. cbn [length].
      rewrite syn_train_S, Qpower_S. ring.
    + congruence.
    + congruence.
    + rewrite E5. exact Hrest.
    + subst s1. rewrite update_Synapse_current by assumption.
      rewrite Hhw, Z.eqb_refl, Hc. reflexivity.
Qed.

(** X12. The synapse is triggered by the level of its input, not by its
    edge: while the digital input stays high, every call adds the gain
    before the decay.  With gain g and decay d set by hand and no current to
    start with, n calls with a high input leave the current
    g*d + g*d^2 + ... + g*d^n, for which (1 - d) * current = g*d*(1 - d^n). *)
Theorem synapse_held_input_accumulates (hws : list Board) (nrn : NeuronModel)
    (defaultDecay : float) (s : Synapse) :
  syn_gain_enable s = false -> syn_decay_enable s = false ->
  Forall (fun hw => digitalRead hw (syn_pin_digital s) = HIGH) hws ->
  (syn_current s == 0)%Q ->
  let I := syn_current (update_Synapse_run hws nrn defaultDecay s) in
  let n := length hws in
  (I == syn_train (syn_gain s) (syn_decay s) n)%Q
  /\ ((1 - syn_decay s) * I
      == syn_gain s * syn_decay s * (1 - syn_decay s ^ Z.of_nat n))%Q.
Proof.
  intros Hg Hd Hhigh Hc. cbv zeta.
  assert (syn_current (update_Synapse_run hws nrn defaultDecay s)
          == syn_train (syn_gain s) (syn_decay s) (length hws))%Q as HI.
  { rewrite (update_Synapse_run_train hws nrn defaultDecay s 0 Hg Hd Hhigh Hc).
    ring. }
  split; [exact HI |].
  rewrite HI. apply syn_train_closed.
Qed.

Lemma synapse_held_input_accumulates_witness :
  let hws := [constant_board 0 0 HIGH; constant_board 0 0 HIGH] in
  let I := syn_current
             (update_Synapse_run hws neuron0 (995#1000) (syn_manual 1 (1#2))) in
  (I == syn_train 1 (1#2) 2)%Q
  /\ ((1 - (1#2)) * I == 1 * (1#2) * (1 - (1#2) ^ 2))%Q.
Proof.
  cbv zeta.
  apply (synapse_held_input_accumulates
           [constant_board 0 0 HIGH; constant_board 0 0 HIGH] neuron0
           (995#1000) (syn_manual 1 (1#2))).
  - reflexivity.
  - reflexivity.
  - repeat constructor.
  - reflexivity.
Defined.

(** ** The analog input of the synapse *)

Lemma update_Synapse_Vm (hw : Board) (nrn : NeuronModel)
    (defaultDecay : float) (s : Synapse) :
  syn_Vm (update_Synapse hw nrn defaultDecay s)
  = (mapfloat (inject_Z (ADC1_read hw (syn_pin_analog s)))
       (syn_analogOffsetLow s) (inject_Z bits12 - syn_analogOffsetHigh s)
       (neuron_Vm_min nrn) (neuron_Vm_max nrn) + axon_offset)%Q.
Proof.
  unfold update_Synapse, syn_read_Vm, syn_integrate, syn_read_inputs.
  destruct s. cbn -[mapfloat axon_offset bits12 Qplus Qminus inject_Z].
  split_ifs; reflexivity.
Qed.

Lemma mapfloat_endpoints (a b lo hi : Q) :
  (a < b)%Q ->
  (mapfloat a a b lo hi == lo)%Q /\ (mapfloat b a b lo hi == hi)%Q.
Proof.
  intros H. unfold mapfloat. split; field; lra.
Qed.

Lemma mapfloat_monotone (x y a b lo hi : Q) :
  (a < b)%Q -> (lo <= hi)%Q -> (x <= y)%Q ->
  (mapfloat x a b lo hi <= mapfloat y a b lo hi)%Q.
Proof.
  intros Hab Hlh Hxy. unfold mapfloat.
  apply Qplus_le_compat; [| apply Qle_refl].
  unfold Qdiv. apply Qmult_le_compat_r.
  - apply Qmult_le_compat_r; lra.
  - apply Qlt_le_weak, Qinv_lt_0_compat. lra.
Qed.

(** X13. The membrane potential that a synapse shows is a linear, rising
    map of its analog input: a reading of [analogOffsetLow] gives the lower
    end of the display range of the neuron and a reading of
    [bits12 - analogOffsetHigh] the upper end, each shifted by the axon
    offset, and a larger reading never gives a smaller potential.  This needs
    the two offsets to leave a non-empty input range and the display range to
    be ordered. *)
Theorem synapse_Vm_maps_input_range (hw1 hw2 : Board) (nrn : NeuronModel)
    (defaultDecay : float) (s : Synapse) :
  (syn_analogOffsetLow s < inject_Z bits12 - syn_analogOffsetHigh s)%Q ->
  (neuron_Vm_min nrn <= neuron_Vm_max nrn)%Q ->
  let adc hw := inject_Z (ADC1_read hw (syn_pin_analog s)) in
  let Vm hw := syn_Vm (update_Synapse hw nrn defaultDecay s) in
  ((adc hw1 == syn_analogOffsetLow s)%Q ->
   (Vm hw1 == neuron_Vm_min nrn + axon_offset)%Q)
  /\ ((adc hw1 == inject_Z bits12 - syn_analogOffsetHigh s)%Q ->
      (Vm hw1 == neuron_Vm_max nrn + axon_offset)%Q)
  /\ ((adc hw1 <= adc hw2)%Q -> (Vm hw1 <= Vm hw2)%Q).
Proof.
  intros Hin Hout. cbv beta zeta. rewrite !update_Synapse_Vm.
  destruct (mapfloat_endpoints (syn_analogOffsetLow s)
              (inject_Z bits12 - syn_analogOffsetHigh s)
              (neuron_Vm_min nrn) (neuron_Vm_max nrn) Hin) as [Elo Ehi].
  split; [| split].
  - intros E. rewrite <- Elo at 2. unfold mapfloat. rewrite E. reflexivity.
  - intros E. rewrite <- Ehi at 2. unfold mapfloat. rewrite E. reflexivity.
  - intros L. apply Qplus_le_compat; [| apply Qle_refl].
    apply mapfloat_monotone; assumption.
Qed.

Lemma synapse_Vm_maps_input_range_witness :
  let Vm hw := syn_Vm (update_Synapse hw neuron0 (995#1000) syn1_0) in
  (Vm (constant_board 0 0 0) <= Vm (constant_board 4095 0 0))%Q.
Proof.
  cbv zeta.
  refine (proj2 (proj2 (synapse_Vm_maps_input_range
            (constant_board 0 0 0) (constant_board 4095 0 0) neuron0
            (995#1000) syn1_0 _ _)) _).
  - vm_compute. reflexivity.
  - vm_compute. congruence.
  - vm_compute. congruence.
Defined.

(** ** Stimulus parameters set by hand *)

Ltac stim_block_manual :=
  match goal with
  | ch : StimChannel, s : Stimulus |- _ =>
      destruct ch, s;
      cbn -[float_to_int float_to_int16 constrain Z.leb Z.ltb Z.quot];
      intros ->;
      cbn -[float_to_int float_to_int16 constrain Z.leb Z.ltb Z.quot];
      repeat match goal with
             | |- context [if ?b then _ else _] =>
                 destruct b;
                 cbn -[float_to_int float_to_int16 constrain Z.leb Z.ltb Z.quot]
             end;
      split; reflexivity
  end.

Lemma stim_read_strength_manual (ch : StimChannel) (hw : Board) (s : Stimulus) :
  stim_channel_enable ch s = false ->
  stim_channel_enable ch (stim_read_strength hw s) = false
  /\ stim_channel_values ch (stim_read_strength hw s) = stim_channel_values ch s.
Proof. unfold stim_read_strength. stim_block_manual. Qed.

Lemma stim_read_frequency_manual (ch : StimChannel) (hw : Board) (s : Stimulus) :
  stim_channel_enable ch s = false ->
  stim_channel_enable ch (stim_read_frequency hw s) = false
  /\ stim_channel_values ch (stim_read_frequency hw s) = stim_channel_values ch s.
Proof. unfold stim_read_frequency. stim_block_manual. Qed.

Lemma stim_auto_values_manual (ch : StimChannel) (s : Stimulus) :
  stim_channel_enable ch s = false ->
  stim_channel_enable ch (stim_auto_values s) = false
  /\ stim_channel_values ch (stim_auto_values s) = stim_channel_values ch s.
Proof. unfold stim_auto_values. stim_block_manual. Qed.

Lemma stim_auto_phase_manual (ch : StimChannel) (s : Stimulus) :
  stim_channel_enable ch s = false ->
  stim_channel_enable ch (stim_auto_phase s) = false
  /\ stim_channel_values ch (stim_auto_phase s) = stim_channel_values ch s.
Proof. unfold stim_auto_phase. stim_block_manual. Qed.

Lemma stim_auto_count_manual (ch : StimChannel) (s : Stimulus) :
  stim_channel_enable ch s = false ->
  stim_channel_enable ch (stim_auto_count s) = false
  /\ stim_channel_values ch (stim_auto_count s) = stim_channel_values ch s.
Proof. unfold stim_auto_count. stim_block_manual. Qed.

Lemma stim_custom_manual (ch : StimChannel) (s : Stimulus) :
  stim_channel_enable ch s = false ->
  stim_channel_enable ch (stim_custom s) = false
  /\ stim_channel_values ch (stim_custom s) = stim_channel_values ch s.
Proof. unfold stim_custom. stim_block_manual. Qed.

Lemma update_StimulusOutput_stim_manual (ch : StimChannel) (hw : Board)
    (s : Stimulus) :
  stim_channel_enable ch s = false ->
  let s' := fst (update_StimulusOutput_stim hw s) in
  stim_channel_enable ch s' = false
  /\ stim_channel_values ch s' = stim_channel_values ch s.
Proof.
  intros H. cbv zeta. unfold update_StimulusOutput_stim. cbv zeta.
  destruct (stim_read_strength_manual ch hw s H) as [A1 A2].
  set (s1 := stim_read_strength hw s) in *.
  destruct (stim_read_frequency_manual ch hw s1 A1) as [B1 B2].
  set (s2 := stim_read_frequency hw s1) in *.
  destruct (stim_custom_enable s2).
  - destruct (stim_auto_values_manual ch s2 B1) as [C1 C2].
    set (s3 := stim_auto_values s2) in *.
    destruct (stim_auto_phase_manual ch s3 C1) as [D1 D2].
    set (s4 := stim_auto_phase s3) in *.
    destruct (stim_auto_count_manual ch s4 D1) as [E1 E2].
    cbn [fst]. split; congruence.
  - destruct (stim_custom_manual ch s2 B1) as [C1 C2].
    cbn [fst]. split; congruence.
Qed.

Lemma run_ticks_stim_manual (ch : StimChannel) (ts : list (UpdateFn * Board))
    (w : World) :
  stim_channel_enable ch (stim w) = false ->
  stim_channel_enable ch (stim (run_ticks ts w)) = false
  /\ stim_channel_values ch (stim (run_ticks ts w))
     = stim_channel_values ch (stim w).
Proof.
  revert w. induction ts as [| [u hw] ts IH]; intros w H; [auto |].
  unfold run_ticks, run in *. cbn [map fold_left step fst snd].
  assert (stim_channel_enable ch (stim (run_update u hw w)) = false
          /\ stim_channel_values ch (stim (run_update u hw w))
             = stim_channel_values ch (stim w)) as [H1 H2].
  { rewrite run_update_stim.
    destruct u; auto using update_StimulusOutput_stim_manual. }
  destruct (IH _ H1) as [H3 H4]. split; congruence.
Qed.

(** X14. The set commands of the stimulus generator, FR1, ST1 and SC1, fix
    their parameter like those of the conditioning channels: after the
    command the flag is cleared and the parameter holds the integer of the
    argument (ST1 stores it both as the digital and as the analog strength),
    and no per-tick function changes the flag or the parameter afterwards,
    whatever the hardware returns.  On the serial transport the integer is
    the one that [atoi] reads from the token; on the network transport it is
    the integer part of the value, when that fits an [int] (the conversion
    is undefined otherwise). *)
Theorem stimulus_manual_value_survives_ticks (ch : StimChannel)
    (v x : float) (n : Z) (w : World) (ts : list (UpdateFn * Board)) :
  int_defined v ->
  let holds (k : Z) (w1 : World) :=
    stim_channel_enable ch (stim w1) = false
    /\ stim_channel_values ch (stim w1) = (k, k)
    /\ stim_channel_enable ch (stim (run_ticks ts w1)) = false
    /\ stim_channel_values ch (stim (run_ticks ts w1)) = (k, k) in
  holds n (SCmd_readSerial (stim_set_command ch) (Some (mkToken x n)) w)
  /\ holds (Qtrunc v) (dispatchToken (stim_set_command ch) true v w).
Proof.
  intros Hd. cbv zeta.
  assert (forall k w1,
    stim_channel_enable ch (stim w1) = false ->
    stim_channel_values ch (stim w1) = (k, k) ->
    stim_channel_enable ch (stim w1) = false
    /\ stim_channel_values ch (stim w1) = (k, k)
    /\ stim_channel_enable ch (stim (run_ticks ts w1)) = false
    /\ stim_channel_values ch (stim (run_ticks ts w1)) = (k, k)) as Hrun.
  { intros k w1 E V. destruct (run_ticks_stim_manual ch ts w1 E) as [E' V'].
    split; [exact E |]. split; [exact V |]. split; [exact E' |].
    congruence. }
  split; apply Hrun.
  - destruct ch; reflexivity.
  - destruct ch; reflexivity.
  - destruct ch; reflexivity.
  - rewrite <- (float_to_int_defined v Hd). destruct ch; reflexivity.
Qed.

Lemma stimulus_manual_value_survives_ticks_witness :
  stim_freq
    (stim (run_ticks [(U_StimulusOutput, constant_board 0 4095 0)]
             (dispatchToken "FR1" true (-40) World0))) = -40.
Proof.
  destruct (stimulus_manual_value_survives_ticks Ch_StimFre (-40) (-40) (-40)
              World0 [(U_StimulusOutput, constant_board 0 4095 0)])
    as [_ (_ & _ & _ & V)].
  - vm_compute. split; congruence.
  - apply (f_equal fst) in V. exact V.
Defined.

(** ** The length of the stimulus cycle *)

Lemma to_int_small (z : Z) : - 2 ^ 31 <= z < 2 ^ 31 -> to_int z = z.
Proof.
  intros H. unfold to_int, wrap_signed. change (32 - 1) with 31.
  rewrite Z.mod_small; lia.
Qed.

Lemma Qtrunc_bounds (a b : Z) (x : Q) :
  a <= 0 <= b -> (inject_Z a <= x)%Q -> (x <= inject_Z b)%Q ->
  a <= Qtrunc x <= b.
Proof.
  intros Hab Ha Hb. unfold Qtrunc. destruct (Qle_bool 0 x) eqn:E.
  - apply Qle_bool_iff in E.
    pose proof (Qfloor_resp_le _ _ E) as F0.
    pose proof (Qfloor_resp_le _ _ Hb) as F1.
    rewrite Qfloor_Z in F1. change (Qfloor 0) with 0 in F0. lia.
  - assert (x <= 0)%Q as E'.
    { apply Qlt_le_weak, Qnot_le_lt. intros C.
      apply Qle_bool_iff in C. congruence. }
    pose proof (Qceiling_resp_le _ _ E') as C0.
    pose proof (Qceiling_resp_le _ _ Ha) as C1.
    rewrite Qceiling_Z in C1. change (Qceiling 0) with 0 in C0. lia.
Qed.

Lemma Qtrunc_half (k : Z) (x : Q) :
  0 <= k -> (x == inject_Z k + (1#2))%Q -> Qtrunc x = k.
Proof.
  intros Hk E. unfold Qtrunc.
  assert (0 <= inject_Z k)%Q as Hk'.
  { change 0%Q with (inject_Z 0). rewrite <- Zle_Qle. exact Hk. }
  assert (Qle_bool 0 x = true) as -> by (apply Qle_bool_iff; lra).
  pose proof (Qfloor_le x) as F1. pose proof (Qlt_floor x) as F2.
  assert (inject_Z (Qfloor x) < inject_Z (k + 1))%Q as G1.
  { rewrite inject_Z_plus. change (inject_Z 1) with 1%Q. lra. }
  assert (inject_Z k < inject_Z (Qfloor x + 1))%Q as G2 by lra.
  rewrite <- Zlt_Qlt in G1, G2. lia.
Qed.

Lemma stim_auto_count_wrap (s : Stimulus) :
  stim_steps s <= stim_counter s + 1 ->
  stim_steps (stim_auto_count s)
  = float_to_int (inject_Z (stim_dutyCycle s)
                  + inject_Z (stim_freq s * stim_dutyCycle s) / 100
                  + inject_Z (stim_dutyCycle_Min s) + (1#2))
  /\ stim_freq (stim_auto_count s) = stim_freq s.
Proof.
  intros H. apply Z.leb_le in H. unfold stim_auto_count. destruct s.
  cbn -[float_to_int Z.leb Qplus Qdiv inject_Z] in *.
  destruct stim_trigger_enable0;
    cbn -[float_to_int Z.leb Qplus Qdiv inject_Z]; rewrite H;
    cbn -[float_to_int Z.leb Qplus Qdiv inject_Z]; split; reflexivity.
Qed.

Ltac stim_block_frame :=
  match goal with
  | s : Stimulus |- _ =>
      destruct s;
      cbn -[float_to_int float_to_int16 constrain Z.leb Z.ltb Z.quot];
      repeat match goal with
             | |- context [if ?b then _ else _] =>
                 destruct b;
                 cbn -[float_to_int float_to_int16 constrain Z.leb Z.ltb Z.quot]
             end;
      repeat (split; [reflexivity |]); reflexivity
  end.

Lemma stim_read_strength_timing (hw : Board) (s : Stimulus) :
  let s' := stim_read_strength hw s in
  stim_dutyCycle s' = stim_dutyCycle s
  /\ stim_dutyCycle_Min s' = stim_dutyCycle_Min s
  /\ stim_freq s' = stim_freq s
  /\ stim_freq_map s' = stim_freq_map s.
Proof. unfold stim_read_strength. stim_block_frame. Qed.

Lemma stim_read_frequency_timing (hw : Board) (s : Stimulus) :
  let s' := stim_read_frequency hw s in
  stim_dutyCycle s' = stim_dutyCycle s
  /\ stim_dutyCycle_Min s' = stim_dutyCycle_Min s
  /\ stim_freq_map s' = stim_freq_map s.
Proof. unfold stim_read_frequency. stim_block_frame. Qed.

Lemma stim_read_frequency_freq (hw : Board) (s : Stimulus) :
  stim_frequency_enable s = true -> stim_custom_enable s = true ->
  stim_freq (stim_read_frequency hw s)
  = float_to_int16 (100 - inject_Z (ADC2_read hw pins_adc2_stim_freq_pot)
                          * stim_freq_map s).
Proof.
  unfold stim_read_frequency. destruct s.
  cbn -[float_to_int16]. intros -> ->. reflexivity.
Qed.

Lemma stim_auto_values_timing (s : Stimulus) :
  let s' := stim_auto_values s in
  stim_dutyCycle s' = stim_dutyCycle s
  /\ stim_dutyCycle_Min s' = stim_dutyCycle_Min s
  /\ stim_freq s' = stim_freq s.
Proof. unfold stim_auto_values. stim_block_frame. Qed.

Lemma stim_auto_phase_timing (s : Stimulus) :
  let s' := stim_auto_phase s in
  stim_dutyCycle s' = stim_dutyCycle s
  /\ stim_dutyCycle_Min s' = stim_dutyCycle_Min s
  /\ stim_freq s' = stim_freq s.
Proof. unfold stim_auto_phase. stim_block_frame. Qed.

(** X15. When a call of [update_StimulusOutput] in the automatic mode ends a
    cycle, the length of the next cycle follows the frequency value of that
    call: with the duty cycle of 500 and the minimum of 10, [steps] becomes
    510 + 5 * freq as long as freq is at least -102 (below, the sum is
    negative and the cast rounds it toward zero).  When the frequency follows
    its potentiometer, freq is between -100 and 100 and the cycle between 10
    and 1010 calls long. *)
Theorem cycle_length_follows_frequency (hw : Board) (s : Stimulus) :
  stim_custom_enable s = true ->
  stim_dutyCycle s = 500 -> stim_dutyCycle_Min s = 10 ->
  stim_steps s <= stim_counter s + 1 ->
  let s' := fst (update_StimulusOutput_stim hw s) in
  (-102 <= stim_freq s' <= 1000000 ->
   stim_steps s' = 510 + 5 * stim_freq s')
  /\ (stim_frequency_enable s = true ->
      stim_freq_map s = (200 / inject_Z bits12)%Q ->
      0 <= ADC2_read hw pins_adc2_stim_freq_pot <= bits12 ->
      -100 <= stim_freq s' <= 100 /\ 10 <= stim_steps s' <= 1010).
Proof.
  intros Hc Hd Hm Hwrap. cbv zeta. unfold update_StimulusOutput_stim. cbv zeta.
  destruct (stim_read_strength_frame hw s) as (A1 & A2 & _ & A4 & A5).
  destruct (stim_read_strength_timing hw s) as (A6 & A7 & A8 & A9).
  set (s1 := stim_read_strength hw s) in *.
  destruct (stim_read_frequency_frame hw s1) as (B1 & B2 & _ & B4).
  destruct (stim_read_frequency_timing hw s1) as (B6 & B7 & B9).
  pose proof (stim_read_frequency_freq hw s1) as B8.
  set (s2 := stim_read_frequency hw s1) in *.
  assert (stim_custom_enable s2 = true) as -> by congruence.
  destruct (stim_auto_values_frame s2) as (C1 & C2 & _).
  destruct (stim_auto_values_timing s2) as (C6 & C7 & C8).
  set (s3 := stim_auto_values s2) in *.
  destruct (stim_auto_phase_frame s3) as (D1 & D2 & _).
  destruct (stim_auto_phase_timing s3) as (D6 & D7 & D8).
  set (s4 := stim_auto_phase s3) in *.
  assert (stim_steps s4 <= stim_counter s4 + 1) as Hwrap4 by congruence.
  destruct (stim_auto_count_wrap s4 Hwrap4) as [E1 E2].
  cbn [fst].
  assert (stim_dutyCycle s4 = 500) as Hd4 by congruence.
  assert (stim_dutyCycle_Min s4 = 10) as Hm4 by congruence.
  rewrite E1, E2, Hd4, Hm4.
  set (f := stim_freq s4) in *.
  assert (-102 <= f <= 1000000 ->
          float_to_int (inject_Z 500 + inject_Z (f * 500) / 100
                        + inject_Z 10 + (1#2)) = 510 + 5 * f) as Hsteps.
  { intros Hf. unfold float_to_int.
    rewrite (Qtrunc_half (510 + 5 * f)).
    - apply to_int_small. lia.
    - lia.
    - rewrite !inject_Z_plus, !inject_Z_mult.
      change (inject_Z 500) with 500%Q. change (inject_Z 10) with 10%Q.
      change (inject_Z 510) with 510%Q. change (inject_Z 5) with 5%Q.
      field. }
  split; [exact Hsteps |].
  intros Hfe Hmap Hpot.
  assert (-100 <= f <= 100) as Hf.
  { rewrite D8, C8, B8 by congruence.
    assert (stim_freq_map s1 = (200 / inject_Z bits12)%Q) as -> by congruence.
    set (p := ADC2_read hw pins_adc2_stim_freq_pot) in *.
    assert (-100 <= Qtrunc (100 - inject_Z p * (200 / inject_Z bits12)) <= 100)
      as Ht.
    { assert (0 <= inject_Z p)%Q as P0.
      { change 0%Q with (inject_Z 0). rewrite <- Zle_Qle. lia. }
      assert (inject_Z p <= 4095)%Q as P1.
      { change 4095%Q with (inject_Z bits12). rewrite <- Zle_Qle. lia. }
      change (inject_Z bits12) with 4095%Q.
      assert (200 / 4095 == 40 # 819)%Q as Hq by reflexivity.
      apply Qtrunc_bounds; [lia | |]; rewrite Hq.
      - change (inject_Z (-100)) with (-100)%Q. lra.
      - change (inject_Z 100) with 100%Q. lra. }
    unfold float_to_int16. rewrite to_int16_small; lia. }
  split; [exact Hf |]. rewrite Hsteps by lia. lia.
Qed.

Lemma cycle_length_follows_frequency_witness :
  let s' := fst (update_StimulusOutput_stim (constant_board 0 4095 0) stim0) in
  -100 <= stim_freq s' <= 100 /\ 10 <= stim_steps s' <= 1010.
Proof.
  cbv zeta.
  refine (proj2 (cycle_length_follows_frequency
            (constant_board 0 4095 0) stim0 _ _ _ _) _ _ _).
  - reflexivity.
  - reflexivity.
  - reflexivity.
  - vm_compute. congruence.
  - reflexivity.
  - reflexivity.
  - vm_compute. split; congruence.
Defined.

(** ** What the stimulus generator writes *)

Lemma constrain_bounds (x lo hi : Z) :
  lo <= hi -> lo <= constrain x lo hi <= hi.
Proof.
  intros H. unfold constrain.
  destruct (Z.ltb_spec x lo); [lia |].
  destruct (Z.ltb_spec hi x); lia.
Qed.

Lemma stim_auto_values_strength (s : Stimulus) :
  stim_str_analog (stim_auto_values s) = stim_str_analog s.
Proof. unfold stim_auto_values. stim_block_frame. Qed.

Lemma stim_auto_phase_spec (s : Stimulus) :
  let s' := stim_auto_phase s in
  0 <= stim_pwm s' <= ledc_Max
  /\ stim_str_analog s' = stim_str_analog s
  /\ (stim_steps s ÷ 2 <= stim_counter s ->
      stim_pwm s' = 0 /\ stim_dac s' = 0 /\ stim_state s' = 0)
  /\ (stim_counter s < stim_steps s ÷ 2 ->
      stim_state s' = stim_str_analog s).
Proof.
  cbv zeta. unfold stim_auto_phase.
  destruct (Z.ltb_spec (stim_counter s) (stim_steps s ÷ 2)) as [L | L];
    destruct s; cbn -[constrain ledc_Max Z.quot] in *.
  - split; [apply constrain_bounds; vm_compute; congruence |].
    split; [reflexivity |]. split; [lia | reflexivity].
  - split; [vm_compute; split; congruence |].
    split; [reflexivity |]. split; [auto | lia].
Qed.

Lemma stim_auto_count_outputs (s : Stimulus) :
  let s' := stim_auto_count s in
  stim_state s' = stim_state s /\ stim_str_analog s' = stim_str_analog s
  /\ stim_serialTrigger_enable s' = stim_serialTrigger_enable s.
Proof. unfold stim_auto_count. stim_block_frame. Qed.

(** X16. Every call of [update_StimulusOutput] writes once to the LED
    channel and once to the converter, and the duty value sent to the LED is
    within [0, ledc_Max].  In the automatic mode, a call in the second half
    of the cycle (the counter has reached half of [steps]) writes 0 to both
    and reports the state 0; a call in the first half reports the analog
    strength as state. *)
Theorem stimulus_output_writes (hw : Board) (s : Stimulus) :
  let s' := fst (update_StimulusOutput_stim hw s) in
  let out := snd (update_StimulusOutput_stim hw s) in
  exists pwm dac,
    out = [LedcWrite pins_gpio_stim_d pwm; DacWrite dac pins_dac_stim_a]
    /\ 0 <= pwm <= ledc_Max
    /\ (stim_custom_enable s = true ->
        stim_steps s ÷ 2 <= stim_counter s ->
        pwm = 0 /\ dac = 0 /\ stim_state s' = 0)
    /\ (stim_custom_enable s = true ->
        stim_counter s < stim_steps s ÷ 2 ->
        stim_state s' = stim_str_analog s').
Proof.
  cbv zeta. unfold update_StimulusOutput_stim. cbv zeta.
  destruct (stim_read_strength_frame hw s) as (A1 & A2 & _ & A4 & _).
  set (s1 := stim_read_strength hw s) in *.
  destruct (stim_read_frequency_frame hw s1) as (B1 & B2 & _ & B4).
  set (s2 := stim_read_frequency hw s1) in *.
  destruct (stim_custom_enable s2) eqn:Hc2.
  - destruct (stim_auto_values_frame s2) as (C1 & C2 & _).
    pose proof (stim_auto_values_strength s2) as C3.
    set (s3 := stim_auto_values s2) in *.
    destruct (stim_auto_phase_spec s3) as (D1 & D2 & D3 & D4).
    set (s4 := stim_auto_phase s3) in *.
    destruct (stim_auto_count_outputs s4) as (E1 & E2 & _).
    cbn [fst snd]. exists (stim_pwm s4), (stim_dac s4).
    split; [reflexivity |]. split; [exact D1 |]. split.
    + intros _ Hoff. rewrite E1. apply D3. congruence.
    + intros _ Hon. rewrite E1, E2, D2. apply D4. congruence.
  - cbn [fst snd].
    exists (constrain (stim_value_digital (stim_custom s2)) 0 ledc_Max),
           (stim_value_analog (stim_custom s2)).
    split; [reflexivity |].
    split; [apply constrain_bounds; vm_compute; congruence |].
    split; intros Hc; congruence.
Qed.

Lemma stimulus_output_writes_witness :
  exists pwm dac,
    snd (update_StimulusOutput_stim (constant_board 0 4095 0) stim0)
    = [LedcWrite pins_gpio_stim_d pwm; DacWrite dac pins_dac_stim_a]
    /\ pwm = 0 /\ dac = 0.
Proof.
  destruct (stimulus_output_writes (constant_board 0 4095 0) stim0)
    as (pwm & dac & E & _ & Hoff & _).
  exists pwm, dac. split; [exact E |].
  destruct (Hoff eq_refl) as (P & D & _).
  - vm_compute. congruence.
  - split; assumption.
Defined.

(** ** The custom mode and the serial trigger *)

Lemma stim_read_strength_trigger (hw : Board) (s : Stimulus) :
  let s' := stim_read_strength hw s in
  stim_serialTrigger_enable s' = stim_serialTrigger_enable s
  /\ stim_value_custom s' = stim_value_custom s.
Proof. unfold stim_read_strength. stim_block_frame. Qed.

Lemma stim_read_frequency_trigger (hw : Board) (s : Stimulus) :
  let s' := stim_read_frequency hw s in
  stim_serialTrigger_enable s' = stim_serialTrigger_enable s
  /\ stim_value_custom s' = stim_value_custom s.
Proof. unfold stim_read_frequency. stim_block_frame. Qed.

Lemma stim_auto_values_trigger (s : Stimulus) :
  stim_serialTrigger_enable (stim_auto_values s) = stim_serialTrigger_enable s.
Proof. unfold stim_auto_values. stim_block_frame. Qed.

Lemma stim_auto_phase_trigger (s : Stimulus) :
  stim_serialTrigger_enable (stim_auto_phase s) = stim_serialTrigger_enable s.
Proof. unfold stim_auto_phase. stim_block_frame. Qed.

Lemma stim_custom_spec (s : Stimulus) :
  let s' := stim_custom s in
  stim_trigger s' = (if stim_serialTrigger_enable s then 1 else 0)
  /\ stim_serialTrigger_enable s' = false
  /\ stim_state s' = stim_value_custom s.
Proof.
  unfold stim_custom. destruct s.
  cbn -[float_to_int float_to_int16 constrain Z.leb Z.ltb Z.quot].
  destruct stim_serialTrigger_enable0;
    cbn -[float_to_int float_to_int16 constrain Z.leb Z.ltb Z.quot];
    destruct (0 <? stim_value_custom0);
    cbn -[float_to_int float_to_int16 constrain Z.leb Z.ltb Z.quot];
    split; [reflexivity | split; reflexivity
           | reflexivity | split; reflexivity
           | reflexivity | split; reflexivity
           | reflexivity | split; reflexivity].
Qed.

Lemma update_StimulusOutput_stim_custom_mode (hw : Board) (s : Stimulus) :
  let s' := fst (update_StimulusOutput_stim hw s) in
  (stim_custom_enable s = false ->
   stim_trigger s' = (if stim_serialTrigger_enable s then 1 else 0)
   /\ stim_serialTrigger_enable s' = false
   /\ stim_state s' = stim_value_custom s
   /\ stim_custom_enable s' = false
   /\ stim_counter s' = stim_counter s /\ stim_steps s' = stim_steps s)
  /\ (stim_custom_enable s = true ->
      stim_serialTrigger_enable s' = stim_serialTrigger_enable s).
Proof.
  cbv zeta. unfold update_StimulusOutput_stim. cbv zeta.
  destruct (stim_read_strength_frame hw s) as (A1 & A2 & _ & A4 & _).
  destruct (stim_read_strength_trigger hw s) as (A5 & A6).
  set (s1 := stim_read_strength hw s) in *.
  destruct (stim_read_frequency_frame hw s1) as (B1 & B2 & _ & B4).
  destruct (stim_read_frequency_trigger hw s1) as (B5 & B6).
  set (s2 := stim_read_frequency hw s1) in *.
  destruct (stim_custom_enable s2) eqn:Hc2.
  - split; [intros Hc; congruence |]. intros _. cbn [fst].
    destruct (stim_auto_count_outputs (stim_auto_phase (stim_auto_values s2)))
      as (_ & _ & E).
    rewrite E, stim_auto_phase_trigger, stim_auto_values_trigger. congruence.
  - split; [| intros Hc; congruence]. intros _. cbn [fst].
    destruct (stim_custom_spec s2) as (C1 & C2 & C3).
    destruct (stim_custom_frame s2) as (F1 & F2 & _ & F4).
    rewrite C1, C2, C3, F1, F2, F4, B5, A5, B6, A6.
    split; [reflexivity |]. split; [reflexivity |].
    split; [reflexivity |]. split; [exact Hc2 |]. split; congruence.
Qed.

Lemma TR_sets_flag (arg : option Token) (hasVal : bool) (v : float)
    (w : World) :
  let ok (w1 : World) :=
    stim_serialTrigger_enable (stim w1) = true
    /\ stim_custom_enable (stim w1) = stim_custom_enable (stim w)
    /\ stim_value_custom (stim w1) = stim_value_custom (stim w) in
  ok (SCmd_readSerial "TR" arg w) /\ ok (dispatchToken "TR" hasVal v w).
Proof.
  cbv zeta. split.
  - destruct arg; split; [reflexivity | split; reflexivity
                         | reflexivity | split; reflexivity].
  - destruct hasVal; split; [reflexivity | split; reflexivity
                            | reflexivity | split; reflexivity].
Qed.

(** X17. In the custom mode a [TR] command, on either transport, raises the
    trigger for exactly one call: the next call of [update_StimulusOutput]
    reports the trigger 1 and the call after it 0, both report the custom
    value as state, and the counter of the automatic mode does not move.  In
    the automatic mode the command is not consumed: the flag it sets stays
    set over a call, until the custom mode is entered. *)
Theorem serial_trigger_fires_once (hw1 hw2 : Board) (arg : option Token)
    (hasVal : bool) (v : float) (w : World) :
  let fires (w1 : World) :=
    let w2 := update_StimulusOutput hw1 w1 in
    let w3 := update_StimulusOutput hw2 w2 in
    (stim_custom_enable (stim w) = false ->
     stim_trigger (stim w2) = 1 /\ stim_trigger (stim w3) = 0
     /\ stim_state (stim w2) = stim_value_custom (stim w)
     /\ stim_state (stim w3) = stim_value_custom (stim w)
     /\ stim_counter (stim w3) = stim_counter (stim w))
    /\ (stim_custom_enable (stim w) = true ->
        stim_serialTrigger_enable (stim w2) = true) in
  fires (SCmd_readSerial "TR" arg w) /\ fires (dispatchToken "TR" hasVal v w).
Proof.
  cbv zeta.
  assert (forall w1,
    stim_serialTrigger_enable (stim w1) = true ->
    stim_custom_enable (stim w1) = stim_custom_enable (stim w) ->
    stim_value_custom (stim w1) = stim_value_custom (stim w) ->
    stim_counter (stim w1) = stim_counter (stim w) ->
    (stim_custom_enable (stim w) = false ->
     stim_trigger (stim (update_StimulusOutput hw1 w1)) = 1
     /\ stim_trigger
          (stim (update_StimulusOutput hw2 (update_StimulusOutput hw1 w1))) = 0
     /\ stim_state (stim (update_StimulusOutput hw1 w1))
        = stim_value_custom (stim w)
     /\ stim_state
          (stim (update_StimulusOutput hw2 (update_StimulusOutput hw1 w1)))
        = stim_value_custom (stim w)
     /\ stim_counter
          (stim (update_StimulusOutput hw2 (update_StimulusOutput hw1 w1)))
        = stim_counter (stim w))
    /\ (stim_custom_enable (stim w) = true ->
        stim_serialTrigger_enable (stim (update_StimulusOutput hw1 w1)) = true))
    as Hfires.
  { intros w1 Ht Hc Hv Hn.
    destruct (update_StimulusOutput_frame hw1 w1) as (_ & _ & _ & _ & _ & S1).
    destruct (update_StimulusOutput_frame hw2 (update_StimulusOutput hw1 w1))
      as (_ & _ & _ & _ & _ & S2).
    rewrite S2, S1.
    destruct (update_StimulusOutput_stim_custom_mode hw1 (stim w1)) as [M1 N1].
    set (s2 := fst (update_StimulusOutput_stim hw1 (stim w1))) in *.
    destruct (update_StimulusOutput_stim_custom_mode hw2 s2) as [M2 _].
    set (s3 := fst (update_StimulusOutput_stim hw2 s2)) in *.
    split.
    - intros Hcus.
      destruct M1 as (T1 & T2 & T3 & T4 & T5 & T6); [congruence |].
      destruct M2 as (U1 & U2 & U3 & U4 & U5 & U6); [exact T4 |].
      rewrite Ht in T1. rewrite T2 in U1.
      assert (stim_value_custom s2 = stim_value_custom (stim w1)) as Hv2.
      { unfold s2, update_StimulusOutput_stim. cbv zeta.
        destruct (stim_read_strength_frame hw1 (stim w1))
          as (_ & _ & _ & A4 & _).
        destruct (stim_read_strength_trigger hw1 (stim w1)) as (_ & A6).
        set (s1 := stim_read_strength hw1 (stim w1)) in *.
        destruct (stim_read_frequency_frame hw1 s1) as (_ & _ & _ & B4).
        destruct (stim_read_frequency_trigger hw1 s1) as (_ & B6).
        set (s1' := stim_read_frequency hw1 s1) in *.
        assert (stim_custom_enable s1' = false) as -> by congruence.
        cbn [fst]. unfold stim_custom. destruct s1'.
        cbn -[float_to_int float_to_int16 constrain Z.leb Z.ltb Z.quot] in *.
        destruct stim_serialTrigger_enable0;
          cbn -[float_to_int float_to_int16 constrain Z.leb Z.ltb Z.quot];
          destruct (0 <? stim_value_custom0);
          cbn -[float_to_int float_to_int16 constrain Z.leb Z.ltb Z.quot];
          congruence. }
      split; [exact T1 |]. split; [exact U1 |].
      split; [congruence |]. split; congruence.
    - intros Hauto. rewrite N1 by congruence. exact Ht. }
  destruct (TR_sets_flag arg hasVal v w) as [(S1 & S2 & S3) (W1 & W2 & W3)].
  split; apply Hfires; try assumption.
  - destruct (SCmd_readSerial_stim_cycle "TR" arg w) as (E & _). exact E.
  - destruct (dispatchToken_stim_cycle "TR" hasVal v w) as (E & _). exact E.
Qed.

Lemma serial_trigger_fires_once_witness :
  let w := SCmd_readSerial "SC1" (Some (decimal_token 50)) World0 in
  let hw := constant_board 0 0 0 in
  stim_trigger (stim (update_StimulusOutput hw (SCmd_readSerial "TR" None w)))
  = 1.
Proof.
  cbv zeta.
  destruct (serial_trigger_fires_once (constant_board 0 0 0)
              (constant_board 0 0 0) None false 0%Q
              (SCmd_readSerial "SC1" (Some (decimal_token 50)) World0)) as [[H _] _].
  destruct (H eq_refl) as (T & _). exact T.
Defined.

(** ** The stimulus current *)

Lemma IC_currentIn_auto_spec (hw : Board) (st : Stimulus) (c : VoltageClamp) :
  let c' := IC_currentIn_auto hw st c in
  let I := (inject_Z (ADC1_read hw pins_adc1_current_in)
            * IC_currentIn_scaling c)%Q in
  IC_current c'
  = (if stim_state st =? 0 then 0%Q
     else if stim_str_analog_min st <? stim_str_analog st then I
     else if stim_str_analog st <? - stim_str_analog_min st
          then (- inject_Z (ADC1_read hw pins_adc1_current_in)
                * IC_currentIn_scaling c)%Q
     else 0%Q)
  /\ IC_current_clamp c' = IC_current_clamp c
  /\ IC_enable c' = IC_enable c.
Proof.
  cbv zeta. unfold IC_currentIn_auto. destruct c.
  cbn -[Z.ltb Z.eqb Qmult Qopp inject_Z].
  destruct (stim_state st =? 0);
    destruct (stim_str_analog_min st <? stim_str_analog st);
    destruct (stim_str_analog st <? - stim_str_analog_min st);
    cbn -[Z.ltb Z.eqb Qmult Qopp inject_Z];
    (split; [reflexivity | split; reflexivity]).
Qed.

Lemma stim_auto_blocks_min (hw : Board) (s : Stimulus) :
  stim_str_analog_min (stim_read_strength hw s) = stim_str_analog_min s
  /\ stim_str_analog_min (stim_read_frequency hw s) = stim_str_analog_min s
  /\ stim_str_analog_min (stim_auto_values s) = stim_str_analog_min s
  /\ stim_str_analog_min (stim_auto_phase s) = stim_str_analog_min s
  /\ stim_str_analog_min (stim_auto_count s) = stim_str_analog_min s.
Proof.
  unfold stim_read_strength, stim_read_frequency, stim_auto_values,
    stim_auto_phase, stim_auto_count.
  stim_block_frame.
Qed.

Lemma update_StimulusOutput_stim_state (hw : Board) (s : Stimulus) :
  stim_custom_enable s = true ->
  let s' := fst (update_StimulusOutput_stim hw s) in
  (stim_steps s ÷ 2 <= stim_counter s -> stim_state s' = 0)
  /\ (stim_counter s < stim_steps s ÷ 2 -> stim_state s' = stim_str_analog s')
  /\ stim_custom_enable s' = true
  /\ stim_str_analog_min s' = stim_str_analog_min s.
Proof.
  intros Hc. cbv zeta.
  destruct (update_StimulusOutput_stim_auto hw s Hc) as (_ & _ & _ & _ & Hc').
  cbv zeta in Hc'. revert Hc'.
  unfold update_StimulusOutput_stim. cbv zeta.
  destruct (stim_read_strength_frame hw s) as (A1 & A2 & _ & A4 & _).
  destruct (stim_auto_blocks_min hw s) as (A5 & _).
  set (s1 := stim_read_strength hw s) in *.
  destruct (stim_read_frequency_frame hw s1) as (B1 & B2 & _ & B4).
  destruct (stim_auto_blocks_min hw s1) as (_ & B5 & _).
  set (s2 := stim_read_frequency hw s1) in *.
  assert (stim_custom_enable s2 = true) as -> by congruence.
  destruct (stim_auto_values_frame s2) as (C1 & C2 & _).
  destruct (stim_auto_blocks_min hw s2) as (_ & _ & C5 & _).
  set (s3 := stim_auto_values s2) in *.
  destruct (stim_auto_phase_spec s3) as (_ & D2 & D3 & D4).
  destruct (stim_auto_blocks_min hw s3) as (_ & _ & _ & D5 & _).
  set (s4 := stim_auto_phase s3) in *.
  destruct (stim_auto_count_outputs s4) as (E1 & E2 & _).
  destruct (stim_auto_blocks_min hw s4) as (_ & _ & _ & _ & E5).
  cbn [fst]. intros Hc'.
  split; [| split; [| split]].
  - intros Hoff. rewrite E1.
    assert (stim_steps s3 ÷ 2 <= stim_counter s3) as Hoff3 by congruence.
    destruct (D3 Hoff3) as (_ & _ & D). exact D.
  - intros Hon. rewrite E1, E2, D2. apply D4. congruence.
  - exact Hc'.
  - congruence.
Qed.

(** X18. [update_StimulusCurrentIn] after [update_StimulusOutput], in the
    automatic mode: the stimulus current is 0 in the second half of the
    cycle, and 0 when the analog strength is within the dead zone
    [-str_analog_min, str_analog_min]; in the first half of the cycle with a
    strength above the dead zone it is the reading scaled by
    [currentIn_scaling], and with a strength below it the negated reading.
    The clamp current and its flag are not touched. *)
Theorem current_in_follows_stimulus (hw1 hw2 : Board) (w : World) :
  stim_custom_enable (stim w) = true ->
  0 <= stim_str_analog_min (stim w) ->
  let w1 := update_StimulusOutput hw1 w in
  let w2 := update_StimulusCurrentIn hw2 w1 in
  let str := stim_str_analog (stim w1) in
  let lim := stim_str_analog_min (stim w) in
  let I := (inject_Z (ADC1_read hw2 pins_adc1_current_in)
            * IC_currentIn_scaling (IC w))%Q in
  (stim_steps (stim w) ÷ 2 <= stim_counter (stim w) ->
   IC_current (IC w2) = 0%Q)
  /\ (- lim <= str <= lim -> IC_current (IC w2) = 0%Q)
  /\ (stim_counter (stim w) < stim_steps (stim w) ÷ 2 ->
      (lim < str -> IC_current (IC w2) = I)
      /\ (str < - lim ->
          IC_current (IC w2)
          = (- inject_Z (ADC1_read hw2 pins_adc1_current_in)
             * IC_currentIn_scaling (IC w))%Q))
  /\ IC_current_clamp (IC w2) = IC_current_clamp (IC w)
  /\ IC_enable (IC w2) = IC_enable (IC w).
Proof.
  intros Hc Hmin. cbv zeta.
  destruct (update_StimulusOutput_frame hw1 w) as (F1 & _ & _ & _ & _ & F6).
  destruct (update_StimulusOutput_stim_state hw1 (stim w) Hc)
    as (Soff & Son & Sc & Smin).
  set (w1 := update_StimulusOutput hw1 w) in *.
  rewrite <- F6 in Soff, Son, Sc, Smin.
  unfold update_StimulusCurrentIn. rewrite Sc.
  change (IC (set_IC (IC_currentIn_auto hw2 (stim w1) (IC w1)) w1))
    with (IC_currentIn_auto hw2 (stim w1) (IC w1)).
  destruct (IC_currentIn_auto_spec hw2 (stim w1) (IC w1)) as (E1 & E2 & E3).
  rewrite E1, E2, E3, F1, Smin.
  split; [| split; [| split; [| split; reflexivity]]].
  - intros Hoff. rewrite (Soff Hoff). reflexivity.
  - intros Hdead. destruct (stim_state (stim w1) =? 0); [reflexivity |].
    destruct (Z.ltb_spec (stim_str_analog_min (stim w))
                (stim_str_analog (stim w1))); [lia |].
    destruct (Z.ltb_spec (stim_str_analog (stim w1))
                (- stim_str_analog_min (stim w))); [lia | reflexivity].
  - intros Hon. rewrite (Son Hon). split; intros Hstr.
    + destruct (Z.eqb_spec (stim_str_analog (stim w1)) 0); [lia |].
      destruct (Z.ltb_spec (stim_str_analog_min (stim w))
                  (stim_str_analog (stim w1))); [reflexivity | lia].
    + destruct (Z.eqb_spec (stim_str_analog (stim w1)) 0); [lia |].
      destruct (Z.ltb_spec (stim_str_analog_min (stim w))
                  (stim_str_analog (stim w1))); [lia |].
      destruct (Z.ltb_spec (stim_str_analog (stim w1))
                  (- stim_str_analog_min (stim w))); [reflexivity | lia].
Qed.

Lemma current_in_follows_stimulus_witness :
  let w1 := update_StimulusOutput (constant_board 0 4095 0) World0 in
  let w2 := update_StimulusCurrentIn (constant_board 4095 0 0) w1 in
  IC_current (IC w2) = 0%Q.
Proof.
  cbv zeta.
  refine (proj1 (current_in_follows_stimulus (constant_board 0 4095 0)
                   (constant_board 4095 0 0) World0 _ _) _).
  - reflexivity.
  - vm_compute. congruence.
  - vm_compute. congruence.
Defined.

(** ** The quantisation of the telemetry *)



(** ** The network stream *)

Lemma wifiSendSamplePacket_spec (p : SamplePacket) (c : WifiStreamCtrl) :
  wifi_enabled c = true ->
  1 <= wifi_decim c <= 500 -> 0 <= wifi_cnt c < wifi_decim c ->
  let c' := fst (wifiSendSamplePacket p c) in
  wifi_enabled c' = true /\ wifi_decim c' = wifi_decim c
  /\ wifi_cnt c' = (wifi_cnt c + 1) mod wifi_decim c
  /\ snd (wifiSendSamplePacket p c)
     = (if (wifi_cnt c + 1) mod wifi_decim c =? 0
        then Some (SamplePacket_bytes p) else None).
Proof.
  intros He Hd Hc. cbv zeta. unfold wifiSendSamplePacket.
  rewrite He. cbn [negb wifi_enabled wifi_decim wifi_cnt].
  assert (to_uint16 (wifi_cnt c + 1) = wifi_cnt c + 1) as ->.
  { unfold to_uint16. change (2 ^ 16) with 65536.
    apply Z.mod_small. lia. }
  destruct (Z.ltb_spec (wifi_cnt c + 1) (wifi_decim c)) as [L | L].
  - cbn [fst snd wifi_enabled wifi_decim wifi_cnt].
    rewrite Z.mod_small by lia.
    destruct (Z.eqb_spec (wifi_cnt c + 1) 0); [lia |].
    repeat split.
  - assert (wifi_cnt c + 1 = wifi_decim c) as E by lia.
    rewrite E, Z.mod_same by lia.
    cbn [fst snd wifi_enabled wifi_decim wifi_cnt negb WIFI_SEND_SERIAL_HEADER
         Z.eqb].
    repeat split.
Qed.

Lemma wifiSend_run_cons (c : WifiStreamCtrl) (p : SamplePacket)
    (ps : list SamplePacket) :
  wifiSend_run c (p :: ps)
  = (fst (wifiSend_run (fst (wifiSendSamplePacket p c)) ps),
     snd (wifiSendSamplePacket p c)
     :: snd (wifiSend_run (fst (wifiSendSamplePacket p c)) ps)).
Proof.
  cbn [wifiSend_run].
  destruct (wifiSendSamplePacket p c) as [c1 out]. cbn [fst snd].
  destruct (wifiSend_run c1 ps) as [c2 outs]. reflexivity.
Qed.

(** X20. The network stream sends one sample out of [decim]: with the
    stream enabled, [decim] between 1 and 500 and the counter below [decim],
    the call number i (from 0) of [wifiSendSamplePacket] broadcasts the 16
    bytes of its packet when [cnt + i + 1] is a multiple of [decim] and
    nothing otherwise, and after n calls the counter is (cnt + n) mod decim.
    With the stream disabled no call broadcasts and the control block does
    not change. *)
Theorem wifi_stream_decimation (c : WifiStreamCtrl) (ps : list SamplePacket) :
  (wifi_enabled c = false ->
   wifiSend_run c ps = (c, map (fun _ => None) ps))
  /\ (wifi_enabled c = true ->
      1 <= wifi_decim c <= 500 -> 0 <= wifi_cnt c < wifi_decim c ->
      let c' := fst (wifiSend_run c ps) in
      wifi_enabled c' = true /\ wifi_decim c' = wifi_decim c
      /\ wifi_cnt c' = (wifi_cnt c + Z.of_nat (length ps)) mod wifi_decim c
      /\ snd (wifiSend_run c ps)
         = imap (fun i p =>
                   if (wifi_cnt c + Z.of_nat i + 1) mod wifi_decim c =? 0
                   then Some (SamplePacket_bytes p) else None) ps
      /\ Forall (fun o => forall b, o = Some b -> length b = 16%nat)
           (snd (wifiSend_run c ps))).
Proof.
  split.
  - intros He. induction ps as [| p ps IH]; [reflexivity |].
    cbn [wifiSend_run map]. unfold wifiSendSamplePacket at 1.
    rewrite He. cbn [negb]. rewrite IH. reflexivity.
  - revert c. induction ps as [| p ps IH]; intros c He Hd Hc; cbv zeta.
    + cbn [wifiSend_run fst snd length imap].
      change (Z.of_nat 0) with 0. rewrite Z.add_0_r, Z.mod_small by lia.
      split; [exact He |]. repeat split. constructor.
    + rewrite wifiSend_run_cons. cbn [fst snd].
      destruct (wifiSendSamplePacket_spec p c He Hd Hc) as (S1 & S2 & S3 & S4).
      set (c1 := fst (wifiSendSamplePacket p c)) in *.
      assert (0 <= wifi_cnt c1 < wifi_decim c1) as Hc1.
      { rewrite S3, S2. apply Z.mod_pos_bound. lia. }
      assert (1 <= wifi_decim c1 <= 500) as Hd1 by lia.
      destruct (IH c1 S1 Hd1 Hc1) as (I1 & I2 & I3 & I4 & I5).
      split; [exact I1 |]. split; [congruence |]. split; [| split].
      * rewrite I3, S3, S2. cbn [length].
        rewrite Nat2Z.inj_succ, Zplus_mod_idemp_l. f_equal. lia.
      * rewrite S4, I4. cbn [imap]. f_equal.
        -- change (Z.of_nat 0) with 0. rewrite Z.add_0_r. reflexivity.
        -- apply imap_ext. intros i q _. cbn [compose].
           rewrite S3, S2, Nat2Z.inj_succ.
           rewrite <- Z.add_assoc, Zplus_mod_idemp_l.
           replace (wifi_cnt c + 1 + (Z.of_nat i + 1))
             with (wifi_cnt c + Z.succ (Z.of_nat i) + 1) by lia.
           reflexivity.
      * constructor; [| exact I5].
        rewrite S4. intros b.
        destruct (_ =? 0); [| discriminate].
        intros [= <-]. reflexivity.
Qed.

Lemma wifi_stream_decimation_witness :
  let c := mkWifiStreamCtrl true 2 0 in
  snd (wifiSend_run c [pkt0; pkt0; pkt0; pkt0])
  = [None; Some (SamplePacket_bytes pkt0);
     None; Some (SamplePacket_bytes pkt0)].
Proof.
  cbv zeta.
  destruct (wifi_stream_decimation (mkWifiStreamCtrl true 2 0)
              [pkt0; pkt0; pkt0; pkt0]) as [_ H].
  destruct H as (_ & _ & _ & E & _).
  - reflexivity.
  - cbn. lia.
  - cbn. lia.
  - exact E.
Defined.

Lemma Reachable_step (e : Event) (w : World) :
  Reachable w -> Reachable (step w e).
Proof.
  intros [es ->]. exists (es ++ [e])%list.
  unfold run. rewrite fold_left_app. reflexivity.
Qed.

Lemma handleCommandJson_spec (d : option JsonDoc) (c : WifiStreamCtrl)
    (w : World) :
  1 <= wifi_decim c <= 500 -> Reachable w ->
  let st := fst (handleCommandJson d (c, w)) in
  1 <= wifi_decim (fst st) <= 500 /\ Reachable (snd st)
  /\ wifi_cnt (fst st) = wifi_cnt c.
Proof.
  intros Hd Hr. cbv zeta. unfold handleCommandJson.
  destruct d as [doc |]; [| cbn; auto].
  destruct (String.eqb (doc_type doc) "stream").
  - cbn [fst snd]. split; [| split; [exact Hr |]].
    + destruct (doc_decim doc) as [n |].
      * cbn [wifi_decim]. cbv zeta. unfold to_uint16.
        change (2 ^ 16) with 65536.
        destruct (Z.ltb_spec n 1).
        -- change (500 <? 1) with false. cbv iota.
           rewrite Z.mod_small; lia.
        -- destruct (Z.ltb_spec 500 n); rewrite Z.mod_small; lia.
      * destruct (doc_enable doc); cbn [wifi_decim]; exact Hd.
    + destruct (doc_decim doc), (doc_enable doc); reflexivity.
  - destruct (String.eqb (doc_type doc) "scmd").
    + destruct (doc_cmd doc) as [cmd |]; cbn [fst snd]; [| auto].
      split; [exact Hd |]. split; [| reflexivity].
      destruct (doc_v doc) as [q |]; cbv zeta.
      * change (Reachable (step w (WifiToken cmd true q))).
        apply Reachable_step, Hr.
      * change (Reachable (step w (WifiToken cmd false 0%Q))).
        apply Reachable_step, Hr.
    + destruct (String.eqb (doc_type doc) "ping"); cbn [fst snd]; auto.
Qed.

(** X21. However many envelopes [handleCommandJson] handles, the decimation
    stays between 1 and 500 (a "stream" envelope clamps the value it
    stores), the counter of the stream is not touched, and the globals stay
    within the reachable states: an "scmd" envelope acts as the token it
    carries, and the other envelopes leave the globals alone. *)
Theorem handleCommandJson_run_invariant (docs : list (option JsonDoc))
    (c : WifiStreamCtrl) (w : World) :
  1 <= wifi_decim c <= 500 -> Reachable w ->
  let st := handleCommandJson_run (c, w) docs in
  1 <= wifi_decim (fst st) <= 500 /\ Reachable (snd st)
  /\ wifi_cnt (fst st) = wifi_cnt c.
Proof.
  revert c w. induction docs as [| d docs IH]; intros c w Hd Hr; cbv zeta.
  - cbn [handleCommandJson_run fst snd]. auto.
  - cbn [handleCommandJson_run].
    destruct (handleCommandJson_spec d c w Hd Hr) as (S1 & S2 & S3).
    destruct (fst (handleCommandJson d (c, w))) as [c1 w1].
    cbn [fst snd] in *.
    destruct (IH c1 w1 S1 S2) as (I1 & I2 & I3).
    split; [exact I1 |]. split; [exact I2 |]. congruence.
Qed.

Lemma handleCommandJson_run_invariant_witness :
  let docs := [Some (mkJsonDoc "stream" (Some true) (Some 100000) None None);
               Some (mkJsonDoc "scmd" None None (Some "IC1") (Some 120%Q))] in
  1 <= wifi_decim (fst (handleCommandJson_run (wifiStream0, World0) docs))
    <= 500.
Proof.
  cbv zeta.
  refine (proj1 (handleCommandJson_run_invariant _ wifiStream0 World0 _ _)).
  - cbn. lia.
  - exists []. reflexivity.
Defined.

(** ** The adaptation of the photodiode keeps the amplitude bounded *)

Lemma Zsum_nonneg (l : list Z) : Forall (fun v => 0 <= v) l -> 0 <= Zsum l.
Proof.
  unfold Zsum. induction 1 as [| v l Hv _ IH]; cbn [fold_right]; lia.
Qed.

Lemma PD_store_sample_values (hw : Board) (p : Photodiode) :
  PD_values (PD_store_sample hw p)
  = <[Z.to_nat (PD_counter p) := ADC1_read hw pins_adc1_pd]> (PD_values p).
Proof.
  unfold PD_store_sample. destruct p. cbn.
  destruct (_ <=? _); reflexivity.
Qed.

Lemma PD_blocks_inv_scaling (hw : Board) (p : Photodiode) :
  PD_inv_scaling (PD_read_gain hw p) = PD_inv_scaling p
  /\ PD_inv_scaling (PD_compute_current p) = PD_inv_scaling p
  /\ PD_inv_scaling (PD_adapt_decay p) = PD_inv_scaling p
  /\ PD_inv_scaling (PD_adapt_recovery p) = PD_inv_scaling p.
Proof.
  unfold PD_read_gain, PD_compute_current, PD_adapt_decay, PD_adapt_recovery.
  destruct p. cbn. split_ifs; repeat split.
Qed.

Lemma PD_compute_current_spec (p : Photodiode) :
  let p' := PD_compute_current p in
  PD_polarity p' = (if Qle_bool 0 (PD_gain p) then 1 else -1)
  /\ PD_current p'
     = ((PD_average p * PD_gain p * PD_inv_scaling p) * PD_amp p)%Q.
Proof. unfold PD_compute_current. destruct p. cbn. split; reflexivity. Qed.

Lemma polarity_current_nonneg (avg g inv a d : Q) :
  (0 <= avg)%Q -> (0 <= inv)%Q -> (0 <= a)%Q -> (0 <= d)%Q ->
  (0 <= inject_Z (if Qle_bool 0 g then 1 else -1) * d
        * ((avg * g * inv) * a))%Q.
Proof.
  intros Havg Hinv Ha Hd.
  assert (0 <= avg * inv * a * d)%Q as Hk
    by (repeat apply Qmult_le_0_compat; assumption).
  destruct (Qle_bool 0 g) eqn:E.
  - apply Qle_bool_iff in E.
    setoid_replace (inject_Z 1 * d * (avg * g * inv * a))%Q
      with ((avg * inv * a * d) * g)%Q using relation Qeq
      by (change (inject_Z 1) with 1%Q; ring).
    apply Qmult_le_0_compat; assumption.
  - assert (0 <= - g)%Q as E'.
    { destruct (Qlt_le_dec g 0) as [L | L]; [lra |].
      apply Qle_bool_iff in L. congruence. }
    setoid_replace (inject_Z (-1) * d * (avg * g * inv * a))%Q
      with ((avg * inv * a * d) * - g)%Q using relation Qeq
      by (change (inject_Z (-1)) with (-1)%Q; ring).
    apply Qmult_le_0_compat; assumption.
Qed.

(** What one call keeps, with non-negative samples and the default decay and
    recovery. *)
Lemma update_Photodiode_PD_bounded (hw : Board) (p : Photodiode) :
  PD_ring_invariant p ->
  Forall (fun v => 0 <= v) (PD_values p) ->
  0 <= ADC1_read hw pins_adc1_pd ->
  PD_decay_enable p = true -> PD_recovery_enable p = true ->
  (0 <= PD_inv_scaling p)%Q -> (0 <= PD_ampMin p)%Q ->
  (PD_ampMin p <= PD_amp p)%Q -> (PD_amp p <= 1 + (25#1000))%Q ->
  let p' := update_Photodiode_PD hw p in
  PD_ring_invariant p'
  /\ Forall (fun v => 0 <= v) (PD_values p')
  /\ PD_decay_enable p' = true /\ PD_recovery_enable p' = true
  /\ PD_inv_scaling p' = PD_inv_scaling p /\ PD_ampMin p' = PD_ampMin p
  /\ (PD_ampMin p <= PD_amp p')%Q /\ (PD_amp p' <= 1 + (25#1000))%Q
  /\ (0 <= inject_Z (PD_polarity p') * PD_decay p' * PD_current p')%Q.
Proof.
  intros Hring Hval Hadc Hde Hre Hinv Hmin0 Hlo Hhi. cbv zeta.
  destruct (update_Photodiode_PD_ring hw p Hring) as (R1 & R2 & _ & R4).
  destruct (update_Photodiode_PD_buffer hw p) as (U1 & _ & U3 & U4 & U5).
  destruct (update_Photodiode_PD_manual hw p) as (_ & M2 & M3 & _).
  destruct (update_Photodiode_PD_auto hw p) as (_ & T2 & T3).
  pose proof (update_Photodiode_PD_amp hw p) as Hamp. cbv zeta in Hamp.
  (* the fields of the result in terms of the blocks *)
  assert (PD_inv_scaling (update_Photodiode_PD hw p) = PD_inv_scaling p
          /\ PD_ampMin (update_Photodiode_PD hw p) = PD_ampMin p
          /\ (0 <= inject_Z (PD_polarity (update_Photodiode_PD hw p))
                   * (1#1000) * PD_current (update_Photodiode_PD hw p))%Q)
    as (Hinv' & Hmin' & Hdec).
  { assert (0 <= PD_average (update_Photodiode_PD hw p))%Q as Havg.
    { rewrite R4. change 0%Q with (inject_Z 0). rewrite <- Zle_Qle.
      destruct R1 as (Rc & Rl & Rs).
      apply Z.quot_pos; [| lia].
      rewrite Rs. apply Zsum_nonneg.
      rewrite U1, PD_store_sample_values.
      apply Forall_insert; assumption. }
    rewrite U5 in Havg.
    unfold update_Photodiode_PD. cbv zeta.
    destruct (PD_store_sample_frame hw p)
      as (_ & _ & _ & _ & _ & _ & A1 & A2).
    destruct (PD_store_sample_flags hw p) as (_ & A3).
    set (p1 := PD_store_sample hw p) in *.
    destruct (PD_read_gain_frame hw p1)
      as (_ & _ & _ & _ & _ & _ & B1 & B2 & _ & _ & _ & _ & B3).
    destruct (PD_blocks_inv_scaling hw p1) as (B4 & _).
    set (p2 := PD_read_gain hw p1) in *.
    destruct (PD_compute_current_frame p2)
      as (_ & _ & _ & _ & _ & _ & _ & C2 & _).
    destruct (PD_compute_current_spec p2) as (C3 & C4).
    destruct (PD_blocks_inv_scaling hw p2) as (_ & C5 & _).
    set (p3 := PD_compute_current p2) in *.
    destruct (PD_adapt_decay_frame p3)
      as (_ & _ & _ & _ & _ & _ & D2 & _).
    destruct (PD_adapt_decay_amp p3) as (D3 & D4 & _).
    destruct (PD_blocks_inv_scaling hw p3) as (_ & _ & D5 & _).
    set (p4 := PD_adapt_decay p3) in *.
    destruct (PD_adapt_recovery_frame p4)
      as (_ & _ & _ & _ & _ & _ & E2 & _).
    destruct (PD_adapt_recovery_amp p4) as (E3 & E4 & _).
    destruct (PD_blocks_inv_scaling hw p4) as (_ & _ & _ & E5).
    split; [congruence |]. split; [congruence |].
    rewrite E3, E4, D3, D4, C3, C4.
    apply polarity_current_nonneg.
    - rewrite B3. exact Havg.
    - rewrite B4, A3. exact Hinv.
    - rewrite B1, A1. lra.
    - lra. }
  set (p' := update_Photodiode_PD hw p) in *.
  rewrite (T2 Hde), (T3 Hre) in Hamp. rewrite (T2 Hde).
  set (dec := (inject_Z (PD_polarity p') * (1#1000) * PD_current p')%Q) in *.
  split; [exact R1 |].
  split; [rewrite U1, PD_store_sample_values;
          apply Forall_insert; assumption |].
  split; [congruence |]. split; [congruence |].
  split; [exact Hinv' |]. split; [exact Hmin' |].
  assert ((PD_ampMin p <= PD_amp p')%Q /\ (PD_amp p' <= 1 + (25#1000))%Q)
    as [G1 G2].
  { rewrite Hamp.
    destruct (Qltb (PD_ampMin p) (PD_amp p)) eqn:E1.
    - destruct (Qltb (PD_amp p - dec) (PD_ampMin p)) eqn:E2.
      + destruct (Qltb (PD_ampMin p) 1) eqn:E3.
        * apply Qltb_true in E3. split; lra.
        * apply Qltb_false in E3. apply Qltb_true in E1. split; lra.
      + apply Qltb_false in E2.
        destruct (Qltb (PD_amp p - dec) 1) eqn:E3.
        * apply Qltb_true in E3. split; lra.
        * split; lra.
    - destruct (Qltb (PD_amp p) 1) eqn:E3.
      + apply Qltb_true in E3. split; lra.
      + split; lra. }
  split; [exact G1 |]. split; [exact G2 | exact Hdec].
Qed.

(** X22. With samples that are not negative and the default decay and
    recovery, the adaptation keeps the amplitude of the photodiode between
    [ampMin] and 1.025 over any number of calls, whatever the gain and its
    sign: the polarity follows the sign of the gain, so that the term
    polarity * decay * current that the decay subtracts is never negative
    and the decay never raises the amplitude. *)
Theorem photodiode_amplitude_bounded (hws : list Board) (p : Photodiode) :
  PD_ring_invariant p ->
  Forall (fun v => 0 <= v) (PD_values p) ->
  Forall (fun hw => 0 <= ADC1_read hw pins_adc1_pd) hws ->
  PD_decay_enable p = true -> PD_recovery_enable p = true ->
  (0 <= PD_inv_scaling p)%Q -> (0 <= PD_ampMin p)%Q ->
  (PD_ampMin p <= PD_amp p)%Q -> (PD_amp p <= 1 + (25#1000))%Q ->
  let p' := update_Photodiode_run p hws in
  (PD_ampMin p <= PD_amp p')%Q /\ (PD_amp p' <= 1 + (25#1000))%Q
  /\ (hws <> [] ->
      (0 <= inject_Z (PD_polarity p') * PD_decay p' * PD_current p')%Q).
Proof.
  revert p.
  induction hws as [| hw hws IH];
    intros p Hring Hval Hadc Hde Hre Hinv Hmin0 Hlo Hhi; cbv zeta.
  - cbn [update_Photodiode_run].
    split; [exact Hlo |]. split; [exact Hhi |]. congruence.
  - rewrite update_Photodiode_run_cons.
    inversion Hadc as [| ? ? Hhw Hrest]; subst.
    destruct (update_Photodiode_PD_bounded hw p Hring Hval Hhw Hde Hre Hinv
                Hmin0 Hlo Hhi) as (B1 & B2 & B3 & B4 & B5 & B6 & B7 & B8 & B9).
    set (p1 := update_Photodiode_PD hw p) in *.
    assert (0 <= PD_inv_scaling p1)%Q as Hinv1 by (rewrite B5; exact Hinv).
    assert (0 <= PD_ampMin p1)%Q as Hmin1 by (rewrite B6; exact Hmin0).
    assert (PD_ampMin p1 <= PD_amp p1)%Q as Hlo1 by (rewrite B6; exact B7).
    destruct (IH p1 B1 B2 Hrest B3 B4 Hinv1 Hmin1 Hlo1 B8) as (I1 & I2 & I3).
    rewrite B6 in I1.
    split; [exact I1 |]. split; [exact I2 |]. intros _.
    destruct hws as [| hw' hws']; [exact B9 |].
    apply I3. discriminate.
Qed.

Lemma photodiode_amplitude_bounded_witness :
  let hws := [constant_board 4095 0 0; constant_board 4095 0 0] in
  (PD_ampMin PD0 <= PD_amp (update_Photodiode_run PD0 hws))%Q
  /\ (PD_amp (update_Photodiode_run PD0 hws) <= 1 + (25#1000))%Q.
Proof.
  cbv zeta.
  destruct (photodiode_amplitude_bounded
              [constant_board 4095 0 0; constant_board 4095 0 0] PD0)
    as (H1 & H2 & _).
  - exact PD0_ring_invariant.
  - vm_compute PD_values.
    repeat first [apply Forall_nil_2 | apply Forall_cons_2; [lia |]].
  - repeat first [apply Forall_nil_2
                 | apply Forall_cons_2; [vm_compute; congruence |]].
  - reflexivity.
  - reflexivity.
  - vm_compute. congruence.
  - vm_compute. congruence.
  - vm_compute. congruence.
  - vm_compute. congruence.
  - split; [exact H1 | exact H2].
Defined.

(** ** Network tokens without a value, and the period *)

(** X23. On the network transport a command that takes a value is ignored
    when the value is missing: the globals are left exactly as they were,
    autonomy flag included (the serial handlers clear the flag first). *)
Theorem network_set_without_value_is_ignored (cmd : string) (v : float)
    (w : World) :
  In cmd ["DT"; "NEU"; "FR1"; "ST1"; "SC1"; "PG1"; "PD1"; "PR1"; "IC1"; "NO1";
          "SG11"; "SD11"; "SG21"; "SD21"] ->
  dispatchToken cmd false v w = w.
Proof.
  intros Hin.
  repeat (destruct Hin as [<- | Hin]; [reflexivity |]).
  destruct Hin.
Qed.

Lemma network_set_without_value_is_ignored_witness :
  dispatchToken "IC1" false 0%Q World0 = World0.
Proof.
  apply (network_set_without_value_is_ignored "IC1" 0%Q World0).
  cbn. auto 12.
Defined.

(** X24. Whatever value a [DT] token carries on the network transport, the
    period that is stored is between 1000 and 1000000 microseconds; it is the
    integer part of the value when that integer part is itself in this
    range; and the two time stamps of [timing] are not touched. *)
Theorem network_DT_is_clamped (v : float) (w : World) :
  let t := timing (dispatchToken "DT" true v w) in
  1000 <= step_us t <= 1000000
  /\ (1000 <= Qtrunc v <= 1000000 -> step_us t = Qtrunc v)
  /\ current_us t = current_us (timing w)
  /\ lastStep_us t = lastStep_us (timing w).
Proof.
  cbv zeta.
  assert (1000 <= Qtrunc v <= 1000000 -> float_to_int v = Qtrunc v) as Hdef.
  { intros H. apply float_to_int_defined. unfold int_defined. lia. }
  unfold dispatchToken.
  change (String.eqb "DT" "DT" && true) with true. cbv iota zeta.
  change (timing (set_timing ?t w)) with t.
  cbn [step_us current_us lastStep_us set_step_us].
  unfold to_uint32. change (2 ^ 32) with 4294967296.
  split; [| split; [| split; reflexivity]].
  - destruct (Z.ltb_spec (float_to_int v) 1000).
    + change (1000000 <? 1000) with false. cbv iota.
      rewrite Z.mod_small by lia. lia.
    + destruct (Z.ltb_spec 1000000 (float_to_int v));
        rewrite Z.mod_small by lia; lia.
  - intros Hr. rewrite (Hdef Hr).
    destruct (Z.ltb_spec (Qtrunc v) 1000); [lia |].
    destruct (Z.ltb_spec 1000000 (Qtrunc v)); [lia |].
    apply Z.mod_small. lia.
Qed.

Lemma network_DT_is_clamped_witness :
  step_us (timing (dispatchToken "DT" true 5000%Q World0)) = 5000.
Proof.
  refine (proj1 (proj2 (network_DT_is_clamped 5000%Q World0)) _).
  vm_compute. split; congruence.
Defined.

(** ** The custom stimulus, from the command to the current *)

Lemma stim_read_custom_mode (hw : Board) (s : Stimulus) :
  stim_custom_enable s = false ->
  stim_read_frequency hw (stim_read_strength hw s) = s.
Proof.
  intros H. unfold stim_read_strength. rewrite H, andb_false_r.
  unfold stim_read_frequency. rewrite H, andb_false_r. reflexivity.
Qed.

Lemma stim_custom_outputs (s : Stimulus) :
  let s' := stim_custom s in
  stim_value_digital s'
  = (if 0 <? stim_value_custom s
     then float_to_int (inject_Z (stim_value_custom s) * stim_light_scaling s)
     else 0)
  /\ stim_value_analog s'
     = float_to_int (inject_Z (Z.abs (stim_value_custom s))
                     * stim_current_scaling s)
  /\ stim_value_custom s' = stim_value_custom s.
Proof.
  unfold stim_custom. destruct s.
  cbn -[float_to_int float_to_int16 constrain Z.leb Z.ltb Z.quot Z.abs].
  destruct stim_serialTrigger_enable0;
    cbn -[float_to_int float_to_int16 constrain Z.leb Z.ltb Z.quot Z.abs];
    destruct (0 <? stim_value_custom0);
    cbn -[float_to_int float_to_int16 constrain Z.leb Z.ltb Z.quot Z.abs];
    (split; [reflexivity | split; reflexivity]).
Qed.

Lemma update_StimulusOutput_effects (hw : Board) (w : World) :
  effects (update_StimulusOutput hw w)
  = (effects w ++ snd (update_StimulusOutput_stim hw (stim w)))%list.
Proof.
  unfold update_StimulusOutput.
  destruct (update_StimulusOutput_stim hw (stim w)) as [s out]. reflexivity.
Qed.

Lemma IC_currentIn_custom_spec (hw : Board) (st : Stimulus) (c : VoltageClamp) :
  IC_current (IC_currentIn_custom hw st c)
  = (if stim_value_custom st =? 0 then 0%Q
     else if 0 <? stim_value_custom st
          then (inject_Z (ADC1_read hw pins_adc1_current_in)
                * IC_currentIn_scaling c)%Q
          else (- inject_Z (ADC1_read hw pins_adc1_current_in)
                * IC_currentIn_scaling c)%Q).
Proof.
  unfold IC_currentIn_custom. destruct c.
  cbn -[Z.ltb Z.leb Z.eqb Qmult Qopp inject_Z].
  destruct (Z.eqb_spec (stim_value_custom st) 0) as [E | E].
  - destruct (0 <=? stim_value_custom st);
      [| destruct (stim_value_custom st <? 0)]; reflexivity.
  - destruct (Z.leb_spec 0 (stim_value_custom st));
      destruct (Z.ltb_spec 0 (stim_value_custom st)); try lia;
      cbn -[Z.ltb Z.leb Z.eqb Qmult Qopp inject_Z]; [reflexivity |].
    destruct (Z.ltb_spec (stim_value_custom st) 0); [reflexivity | lia].
Qed.

Lemma SC1_sets_custom (v x : float) (n : Z) (w : World) :
  let ok (k : Z) (w1 : World) :=
    stim w1 = set_stim_value_custom k
                (set_stim_custom_enable false (stim w))
    /\ IC w1 = IC w /\ effects w1 = effects w in
  ok n (SCmd_readSerial "SC1" (Some (mkToken x n)) w)
  /\ ok (float_to_int v) (dispatchToken "SC1" true v w).
Proof. cbv zeta. repeat split. Qed.

(** The two calls after a custom value [n] has been stored. *)
Lemma custom_stimulus_calls (n : Z) (hw1 hw2 : Board) (w w1 : World) :
  stim w1 = set_stim_value_custom n (set_stim_custom_enable false (stim w)) ->
  IC w1 = IC w -> effects w1 = effects w ->
  let w2 := update_StimulusOutput hw1 w1 in
  let w3 := update_StimulusCurrentIn hw2 w2 in
  stim_state (stim w2) = n
  /\ effects w2
     = (effects w
        ++ [LedcWrite pins_gpio_stim_d
              (constrain
                 (if 0 <? n
                  then float_to_int (inject_Z n * stim_light_scaling (stim w))
                  else 0) 0 ledc_Max);
            DacWrite
              (float_to_int (inject_Z (Z.abs n) * stim_current_scaling (stim w)))
              pins_dac_stim_a])%list
  /\ IC_current (IC w3)
     = (if n =? 0 then 0%Q
        else if 0 <? n
             then (inject_Z (ADC1_read hw2 pins_adc1_current_in)
                   * IC_currentIn_scaling (IC w))%Q
             else (- inject_Z (ADC1_read hw2 pins_adc1_current_in)
                   * IC_currentIn_scaling (IC w))%Q).
Proof.
  intros Hs HI He. cbv zeta.
  assert (stim_custom_enable (stim w1) = false
          /\ stim_value_custom (stim w1) = n
          /\ stim_light_scaling (stim w1) = stim_light_scaling (stim w)
          /\ stim_current_scaling (stim w1) = stim_current_scaling (stim w))
    as (Hc & Hv & Hl & Hcs).
  { rewrite Hs. destruct (stim w). repeat split. }
  destruct (update_StimulusOutput_frame hw1 w1) as (F1 & _ & _ & _ & _ & F6).
  pose proof (update_StimulusOutput_effects hw1 w1) as Fe.
  set (w2 := update_StimulusOutput hw1 w1) in *.
  destruct (update_StimulusOutput_stim_custom_mode hw1 (stim w1)) as [M _].
  destruct (M Hc) as (_ & _ & M3 & M4 & _).
  assert (snd (update_StimulusOutput_stim hw1 (stim w1))
          = [LedcWrite pins_gpio_stim_d
               (constrain (stim_value_digital (stim_custom (stim w1)))
                  0 ledc_Max);
             DacWrite (stim_value_analog (stim_custom (stim w1)))
               pins_dac_stim_a]
          /\ stim_value_custom (fst (update_StimulusOutput_stim hw1 (stim w1)))
             = stim_value_custom (stim w1)) as [Hout Hv2].
  { unfold update_StimulusOutput_stim. cbv zeta.
    rewrite (stim_read_custom_mode hw1 (stim w1) Hc), Hc. cbn [fst snd].
    destruct (stim_custom_outputs (stim w1)) as (_ & _ & O3).
    split; [reflexivity | exact O3]. }
  destruct (stim_custom_outputs (stim w1)) as (O1 & O2 & _).
  split; [| split].
  - rewrite F6, M3. exact Hv.
  - rewrite Fe, Hout, O1, O2, Hv, Hl, Hcs, He. reflexivity.
  - unfold update_StimulusCurrentIn. rewrite F6, M4.
    change (IC (set_IC ?c w2)) with c.
    rewrite IC_currentIn_custom_spec, <- F6, F1, HI, F6, Hv2, Hv.
    reflexivity.
Qed.

(** X25. The custom stimulus from the command to the current: after [SC1]
    with the integer n (the one that [atoi] reads on the serial transport;
    the integer part of the value on the network transport, when it fits an
    [int]), a call of [update_StimulusOutput] reports n as state and writes
    once to the LED, a duty within [0, ledc_Max] that is 0 when n is not
    positive, and once to the converter; the call of
    [update_StimulusCurrentIn] that follows gives the current the sign of n:
    the scaled reading for n > 0, its negation for n < 0 and 0 for n = 0. *)
Theorem custom_stimulus_pipeline (v x : float) (hw1 hw2 : Board) (w : World) :
  let n := Qtrunc v in
  int_defined v ->
  let holds (w1 : World) :=
    let w2 := update_StimulusOutput hw1 w1 in
    let w3 := update_StimulusCurrentIn hw2 w2 in
    stim_state (stim w2) = n
    /\ (exists pwm dac,
          effects w2
          = (effects w ++ [LedcWrite pins_gpio_stim_d pwm;
                           DacWrite dac pins_dac_stim_a])%list
          /\ 0 <= pwm <= ledc_Max /\ (n <= 0 -> pwm = 0))
    /\ IC_current (IC w3)
       = (if n =? 0 then 0%Q
          else if 0 <? n
               then (inject_Z (ADC1_read hw2 pins_adc1_current_in)
                     * IC_currentIn_scaling (IC w))%Q
               else (- inject_Z (ADC1_read hw2 pins_adc1_current_in)
                     * IC_currentIn_scaling (IC w))%Q) in
  holds (SCmd_readSerial "SC1" (Some (mkToken x n)) w)
  /\ holds (dispatchToken "SC1" true v w).
Proof.
  intros n Hd. cbv zeta.
  destruct (SC1_sets_custom v x n w) as [(S1 & S2 & S3) (W1 & W2 & W3)].
  rewrite (float_to_int_defined v Hd) in W1. fold n in W1.
  assert (forall w1,
    stim w1 = set_stim_value_custom n (set_stim_custom_enable false (stim w)) ->
    IC w1 = IC w -> effects w1 = effects w ->
    stim_state (stim (update_StimulusOutput hw1 w1)) = n
    /\ (exists pwm dac,
          effects (update_StimulusOutput hw1 w1)
          = (effects w ++ [LedcWrite pins_gpio_stim_d pwm;
                           DacWrite dac pins_dac_stim_a])%list
          /\ 0 <= pwm <= ledc_Max /\ (n <= 0 -> pwm = 0))
    /\ IC_current
         (IC (update_StimulusCurrentIn hw2 (update_StimulusOutput hw1 w1)))
       = (if n =? 0 then 0%Q
          else if 0 <? n
               then (inject_Z (ADC1_read hw2 pins_adc1_current_in)
                     * IC_currentIn_scaling (IC w))%Q
               else (- inject_Z (ADC1_read hw2 pins_adc1_current_in)
                     * IC_currentIn_scaling (IC w))%Q)) as Hpipe.
  { intros w1 Hs HI He.
    destruct (custom_stimulus_calls n hw1 hw2 w w1 Hs HI He) as (P1 & P2 & P3).
    split; [exact P1 |]. split; [| exact P3].
    eexists _, _. split; [exact P2 |].
    split; [apply constrain_bounds; vm_compute; congruence |].
    intros Hn. destruct (Z.ltb_spec 0 n); [lia | reflexivity]. }
  split; apply Hpipe; assumption.
Qed.

Lemma custom_stimulus_pipeline_witness :
  stim_state
    (stim (update_StimulusOutput (constant_board 0 0 0)
             (dispatchToken "SC1" true (-50) World0))) = -50.
Proof.
  destruct (custom_stimulus_pipeline (-50) (-50) (constant_board 0 0 0)
              (constant_board 0 0 0) World0) as [_ (H1 & _)].
  - vm_compute. split; congruence.
  - exact H1.
Defined.

(** ** The total current *)

Lemma update_StimulusCurrentIn_frame (hw : Board) (w : World) :
  let w' := update_StimulusCurrentIn hw w in
  noise w' = noise w /\ PD w' = PD w /\ syn1 w' = syn1 w /\ syn2 w' = syn2 w
  /\ stim w' = stim w /\ neuron w' = neuron w.
Proof.
  cbv zeta. unfold update_StimulusCurrentIn.
  destruct (stim_custom_enable (stim w)); repeat split.
Qed.

(** X26. The stimulus adds nothing to the total current in the second half of
    its cycle: after [update_StimulusOutput], [update_StimulusCurrentIn] and
    [compute_AllCurrent] in the automatic mode with the counter at or past
    half of [steps], the total current is the sum of the clamp, photodiode,
    synapse and noise currents, whatever the Current-In pin reads. *)
Theorem total_current_in_off_phase (hw1 hw2 : Board) (w : World) :
  stim_custom_enable (stim w) = true ->
  stim_steps (stim w) ÷ 2 <= stim_counter (stim w) ->
  let w3 := compute_AllCurrent
              (update_StimulusCurrentIn hw2 (update_StimulusOutput hw1 w)) in
  (neuron_total_current (neuron w3)
   == IC_current_clamp (IC w) + PD_current (PD w) + syn_current (syn1 w)
      + syn_current (syn2 w) + noise_current (noise w))%Q.
Proof.
  intros Hc Hoff. cbv zeta.
  destruct (update_StimulusOutput_frame hw1 w)
    as (F1 & F2 & F3 & F4 & F5 & F6).
  destruct (update_StimulusOutput_stim_state hw1 (stim w) Hc)
    as (Soff & _ & Sc & _).
  set (w1 := update_StimulusOutput hw1 w) in *.
  rewrite <- F6 in Soff, Sc.
  destruct (update_StimulusCurrentIn_frame hw2 w1) as (G1 & G2 & G3 & G4 & _).
  assert (IC_current (IC (update_StimulusCurrentIn hw2 w1)) = 0%Q
          /\ IC_current_clamp (IC (update_StimulusCurrentIn hw2 w1))
             = IC_current_clamp (IC w)) as [HI HC].
  { unfold update_StimulusCurrentIn. rewrite Sc.
    change (IC (set_IC ?c w1)) with c.
    destruct (IC_currentIn_auto_spec hw2 (stim w1) (IC w1)) as (E1 & E2 & _).
    rewrite E1, E2, (Soff Hoff), F1. split; reflexivity. }
  set (w2 := update_StimulusCurrentIn hw2 w1) in *.
  unfold compute_AllCurrent.
  change (neuron (set_neuron ?n w2)) with n.
  change (neuron_total_current (set_neuron_total_current ?x (neuron w2)))
    with x.
  rewrite HI, HC, G1, G2, G3, G4, F2, F3, F4, F5. ring.
Qed.

Lemma total_current_in_off_phase_witness :
  let w3 := compute_AllCurrent
              (update_StimulusCurrentIn (constant_board 4095 0 0)
                 (update_StimulusOutput (constant_board 0 4095 0) World0)) in
  (neuron_total_current (neuron w3)
   == IC_current_clamp (IC World0) + PD_current (PD World0)
      + syn_current (syn1 World0) + syn_current (syn2 World0)
      + noise_current (noise World0))%Q.
Proof.
  cbv zeta.
  apply (total_current_in_off_phase (constant_board 0 4095 0)
           (constant_board 4095 0 0) World0).
  - reflexivity.
  - vm_compute. congruence.
Defined.
